(** * ToSpeech backend: job orchestration, model residency and signed links

    A shallow embedding of the parts of [Backend/main.py] and
    [Backend/tasks.py] that implement the signed artifact gateway, the
    single-slot model cache, the worker task and the cancel / status
    endpoints, followed by the properties established about them.

    Conventions of the embedding.
    - A Python [str] is a [string]; each character is a code point below
      256, and a character is ASCII when its code is below 128.
    - A Python [int] is a [Z]; [bytes] are lists of [Z] in [0, 256).
    - A reading of the clock ([datetime.utcnow().timestamp()]) is a [Z]
      counting microseconds, the resolution of [datetime]; adding
      [timedelta(minutes=60)] adds 3600 seconds to it.
    - Audio samples are rationals ([Q]): the arithmetic of the PCM
      conversion is the exact one, without rounding, NaN or infinities.
    - Calls into libraries (torch, transformers, celery, redis, the file
      system, the database) are answered by an environment record; each
      answer is a value or a raised exception. *)

From Stdlib Require Import ZArith QArith Qround Qabs Qminmax Lia Lqa Bool Ascii
  String Sorted.
From stdpp Require Import base tactics option list strings pretty gmap.

Local Open Scope string_scope.
Local Open Scope Z_scope.
Local Open Scope list_scope.

(** ** Python strings *)

Definition truthy (s : string) : bool :=
  match s with EmptyString => false | String _ _ => true end.

Definition str_of_int (n : Z) : string := pretty n.

(** [s.startswith(p)]. *)
Fixpoint startswith (s p : string) {struct p} : bool :=
  match p with
  | EmptyString => true
  | String a p' =>
      match s with
      | EmptyString => false
      | String b s' => Ascii.eqb a b && startswith s' p'
      end
  end.

(** [s.endswith(p)]. *)
Definition endswith (s p : string) : bool :=
  startswith (String.rev s) (String.rev p).

(** [needle in hay] for strings. *)
Fixpoint contains (needle hay : string) : bool :=
  startswith hay needle ||
  match hay with
  | EmptyString => false
  | String _ rest => contains needle rest
  end.

(** [s.split(sep)] for a one-character separator: [cur] holds the
    characters of the current field in reverse order. *)
Fixpoint split_go (sep : ascii) (s : string) (cur : string) : list string :=
  match s with
  | EmptyString => [String.rev cur]
  | String c rest =>
      if Ascii.eqb c sep then String.rev cur :: split_go sep rest EmptyString
      else split_go sep rest (String c cur)
  end.

Definition split (sep : ascii) (s : string) : list string :=
  split_go sep s EmptyString.

(** [sep.join(parts)]. *)
Fixpoint join_with (sep : string) (parts : list string) : string :=
  match parts with
  | [] => ""
  | [p] => p
  | p :: ps => p +:+ sep +:+ join_with sep ps
  end.

Definition slash : ascii := "/"%char.

(** [str.isascii()]. *)
Definition is_ascii_char (c : ascii) : bool := (N_of_ascii c <? 128)%N.

Fixpoint isascii (s : string) : bool :=
  match s with
  | EmptyString => true
  | String c rest => is_ascii_char c && isascii rest
  end.

(** Unicode white space among the code points below 256, as [str.strip]
    sees it. *)
Definition is_space (c : ascii) : bool :=
  let n := N_of_ascii c in
  ((9 <=? n) && (n <=? 13) || (28 <=? n) && (n <=? 32)
   || (n =? 133) || (n =? 160))%N.

Fixpoint lstrip (s : string) : string :=
  match s with
  | EmptyString => EmptyString
  | String c rest => if is_space c then lstrip rest else s
  end.

Definition strip (s : string) : string :=
  String.rev (lstrip (String.rev (lstrip s))).

(** [s.encode()]: UTF-8, one byte below 128 and two bytes from 128 on. *)
Fixpoint encode (s : string) : list Z :=
  match s with
  | EmptyString => []
  | String c rest =>
      let n := Z.of_N (N_of_ascii c) in
      if n <? 128 then n :: encode rest
      else Z.lor 192 (Z.shiftr n 6) :: Z.lor 128 (Z.land n 63) :: encode rest
  end.

(** ** hashlib.sha256 and hmac (FIPS 180-4, RFC 2104) *)

Module SHA256.

Definition mask32 : Z := Z.ones 32.
Definition add32 (x y : Z) : Z := Z.land (x + y) mask32.
Definition rotr (n x : Z) : Z :=
  Z.lor (Z.shiftr x n) (Z.land (Z.shiftl x (32 - n)) mask32).
Definition not32 (x : Z) : Z := Z.lxor x mask32.

Definition Ch (x y z : Z) : Z := Z.lxor (Z.land x y) (Z.land (not32 x) z).
Definition Maj (x y z : Z) : Z :=
  Z.lxor (Z.lxor (Z.land x y) (Z.land x z)) (Z.land y z).
Definition Sigma0 (x : Z) : Z :=
  Z.lxor (Z.lxor (rotr 2 x) (rotr 13 x)) (rotr 22 x).
Definition Sigma1 (x : Z) : Z :=
  Z.lxor (Z.lxor (rotr 6 x) (rotr 11 x)) (rotr 25 x).
Definition sigma0 (x : Z) : Z :=
  Z.lxor (Z.lxor (rotr 7 x) (rotr 18 x)) (Z.shiftr x 3).
Definition sigma1 (x : Z) : Z :=
  Z.lxor (Z.lxor (rotr 17 x) (rotr 19 x)) (Z.shiftr x 10).

Definition primes : list Z :=
  [2; 3; 5; 7; 11; 13; 17; 19; 23; 29; 31; 37; 41; 43; 47; 53;
   59; 61; 67; 71; 73; 79; 83; 89; 97; 101; 103; 107; 109; 113; 127; 131;
   137; 139; 149; 151; 157; 163; 167; 173; 179; 181; 191; 193; 197; 199;
   211; 223; 227; 229; 233; 239; 241; 251; 257; 263; 269; 271; 277; 281;
   283; 293; 307; 311].

(** Integer cube root, one bit at a time from bit [b - 1] down. *)
Fixpoint icbrt_go (b : nat) (n r : Z) : Z :=
  match b with
  | O => r
  | S b' =>
      let r' := r + Z.shiftl 1 (Z.of_nat b') in
      icbrt_go b' n (if r' * r' * r' <=? n then r' else r)
  end.

(** The round constants: the first 32 bits of the fractional parts of
    the cube roots of the first 64 primes. *)
Definition K : list Z :=
  Eval vm_compute in
    map (fun p => Z.land (icbrt_go 36 (p * Z.shiftl 1 96) 0) mask32) primes.

(** The initial hash value: the same of the square roots of the first
    eight primes. *)
Definition H0 : list Z :=
  Eval vm_compute in
    map (fun p => Z.land (Z.sqrt (p * Z.shiftl 1 64)) mask32) (take 8 primes).

Definition be_bytes (n : nat) (x : Z) : list Z :=
  map (fun i => Z.land (Z.shiftr x (8 * Z.of_nat i)) 255) (rev (seq 0 n)).

Definition pad (msg : list Z) : list Z :=
  let len := Z.of_nat (length msg) in
  let zeros := Z.to_nat ((55 - len) mod 64) in
  msg ++ [128] ++ repeat 0 zeros ++ be_bytes 8 (8 * len).

Definition word_of_bytes (bs : list Z) : Z :=
  fold_left (fun acc b => Z.lor (Z.shiftl acc 8) b) bs 0.

Fixpoint words (n : nat) (bs : list Z) : list Z :=
  match n with
  | O => []
  | S n' => word_of_bytes (take 4 bs) :: words n' (drop 4 bs)
  end.

(** The message schedule, extended by [n] words. *)
Fixpoint schedule (n : nat) (w : list Z) : list Z :=
  match n with
  | O => w
  | S n' =>
      let t := length w in
      let at_ k := nth (t - k) w 0 in
      schedule n'
        (w ++ [add32 (add32 (sigma1 (at_ 2%nat)) (at_ 7%nat))
                     (add32 (sigma0 (at_ 15%nat)) (at_ 16%nat))])
  end.

Record state := State { sa : Z; sb : Z; sc : Z; sd : Z;
                        se : Z; sf : Z; sg : Z; sh : Z }.

Definition round (s : state) (kw : Z * Z) : state :=
  let t1 := add32 (add32 (add32 (sh s) (Sigma1 (se s)))
                         (add32 (Ch (se s) (sf s) (sg s)) (fst kw)))
                  (snd kw) in
  let t2 := add32 (Sigma0 (sa s)) (Maj (sa s) (sb s) (sc s)) in
  State (add32 t1 t2) (sa s) (sb s) (sc s) (add32 (sd s) t1)
        (se s) (sf s) (sg s).

Definition compress (s : state) (block : list Z) : state :=
  let w := schedule 48 (words 16 block) in
  let s' := fold_left round (zip K w) s in
  State (add32 (sa s) (sa s')) (add32 (sb s) (sb s'))
        (add32 (sc s) (sc s')) (add32 (sd s) (sd s'))
        (add32 (se s) (se s')) (add32 (sf s) (sf s'))
        (add32 (sg s) (sg s')) (add32 (sh s) (sh s')).

Fixpoint blocks (n : nat) (bs : list Z) (s : state) : state :=
  match n with
  | O => s
  | S n' => blocks n' (drop 64 bs) (compress s (take 64 bs))
  end.

Definition init : state :=
  State (nth 0 H0 0) (nth 1 H0 0) (nth 2 H0 0) (nth 3 H0 0)
        (nth 4 H0 0) (nth 5 H0 0) (nth 6 H0 0) (nth 7 H0 0).

Definition hash (msg : list Z) : state :=
  let p := pad msg in
  blocks (length p / 64) p init.

Definition state_words (s : state) : list Z :=
  [sa s; sb s; sc s; sd s; se s; sf s; sg s; sh s].

Definition digest (msg : list Z) : list Z :=
  flat_map (be_bytes 4) (state_words (hash msg)).

Definition hexdigits : list ascii :=
  ["0"; "1"; "2"; "3"; "4"; "5"; "6"; "7";
   "8"; "9"; "a"; "b"; "c"; "d"; "e"; "f"]%char.

Definition hexchar (n : Z) : ascii :=
  nth (Z.to_nat (Z.land n 15)) hexdigits "0"%char.

Definition hex_of_word (w : Z) (rest : string) : string :=
  String (hexchar (Z.shiftr w 28)) (String (hexchar (Z.shiftr w 24))
  (String (hexchar (Z.shiftr w 20)) (String (hexchar (Z.shiftr w 16))
  (String (hexchar (Z.shiftr w 12)) (String (hexchar (Z.shiftr w 8))
  (String (hexchar (Z.shiftr w 4)) (String (hexchar w) rest))))))).

Definition hex_of_state (s : state) : string :=
  hex_of_word (sa s) (hex_of_word (sb s) (hex_of_word (sc s)
  (hex_of_word (sd s) (hex_of_word (se s) (hex_of_word (sf s)
  (hex_of_word (sg s) (hex_of_word (sh s) EmptyString))))))).

Definition hexdigest (msg : list Z) : string := hex_of_state (hash msg).

End SHA256.

(** [hmac.new(key, msg, hashlib.sha256)], block size 64. *)
Module HMAC.

Definition block_key (key : list Z) : list Z :=
  let k := if (64 <? Z.of_nat (length key)) then SHA256.digest key else key in
  k ++ repeat 0 (64 - length k)%nat.

Definition inner (key msg : list Z) : list Z :=
  SHA256.digest (map (Z.lxor 54) (block_key key) ++ msg).

Definition outer_state (key msg : list Z) : SHA256.state :=
  SHA256.hash (map (Z.lxor 92) (block_key key) ++ inner key msg).

Definition hexdigest (key msg : list Z) : string :=
  SHA256.hex_of_state (outer_state key msg).

End HMAC.

(** ** Exceptions and outcomes of calls *)

(** The classes of exception the code distinguishes or raises itself; all
    of them derive from [Exception]. *)
Inductive exc_class :=
| SoftTimeLimitExceeded
| ValueError
| TypeError
| AttributeError
| ZeroDivisionError
| PlainException
| LibraryError.

(** An exception object: its class and [str(e)]. *)
Record exc := Exc { exc_cls : exc_class; exc_str : string }.

Inductive outcome (A : Type) :=
| Ok (a : A)
| Raise (e : exc).
Arguments Ok {A} a.
Arguments Raise {A} e.

Definition is_soft_time_limit (e : exc) : bool :=
  match exc_cls e with SoftTimeLimitExceeded => true | _ => false end.

(** ** os.path (posixpath) *)

Module posixpath.

(** [os.path.basename(p)]: what follows the last slash. *)
Definition basename (p : string) : string := List.last (split slash p) "".

(** [os.path.join(a, b)]. *)
Definition join (a b : string) : string :=
  if startswith b "/" then b
  else if negb (truthy a) || endswith a "/" then a +:+ b
  else a +:+ "/" +:+ b.

Definition isabs (p : string) : bool := startswith p "/".

(** The loop of [normpath] over the components. *)
Fixpoint norm_comps (initial_slashes : bool) (comps new_comps : list string)
  : list string :=
  match comps with
  | [] => new_comps
  | comp :: rest =>
      if String.eqb comp "" || String.eqb comp "." then
        norm_comps initial_slashes rest new_comps
      else if negb (String.eqb comp "..")
              || (negb initial_slashes && bool_decide (new_comps = []))
              || (bool_decide (new_comps ≠ [])
                  && String.eqb (List.last new_comps "") "..") then
        norm_comps initial_slashes rest (new_comps ++ [comp])
      else
        norm_comps initial_slashes rest (removelast new_comps)
  end.

Definition normpath (path : string) : string :=
  if negb (truthy path) then "."
  else
    let initial_slashes := startswith path "/" in
    let two := initial_slashes && startswith path "//"
               && negb (startswith path "///") in
    let comps := norm_comps initial_slashes (split slash path) [] in
    let body := join_with "/" comps in
    let res := if two then "//" +:+ body
               else if initial_slashes then "/" +:+ body else body in
    if truthy res then res else ".".

Definition abspath (cwd path : string) : string :=
  normpath (if isabs path then path else join cwd path).

Definition path_comps (p : string) : list string :=
  filter (λ c, c ≠ "" ∧ c ≠ ".") (split slash p).

Fixpoint common_prefix (s1 s2 : list string) : list string :=
  match s1, s2 with
  | c1 :: r1, c2 :: r2 =>
      if String.eqb c1 c2 then c1 :: common_prefix r1 r2 else []
  | _, _ => []
  end.

(** [os.path.commonpath([p1, p2])]: the longest common run of leading
    components; mixing an absolute and a relative path raises. *)
Definition commonpath (p1 p2 : string) : outcome string :=
  if negb (Bool.eqb (isabs p1) (isabs p2)) then
    Raise (Exc ValueError "Can't mix absolute and relative paths")
  else
    Ok ((if isabs p1 then "/" else "")
        +:+ join_with "/" (common_prefix (path_comps p1) (path_comps p2))).

End posixpath.

(** ** The signed artifact gateway ([main.py]) *)

Definition SECRET_KEY : string := "SECRET_KEY_GOES_HERE_CHANGE_IN_PROD".
Definition AUDIO_DIR : string := "generated_audio".

(** [int(t)] of a clock reading: whole seconds, truncated towards zero. *)
Definition int_of_timestamp (us : Z) : Z := Z.quot us 1000000.

Definition minutes (n : Z) : Z := n * 60 * 1000000.

Definition create_access_signature (filename : string) (expires_timestamp : Z)
  : string :=
  let data := filename +:+ ":" +:+ str_of_int expires_timestamp in
  HMAC.hexdigest (encode SECRET_KEY) (encode data).

(** [sign_path], at clock reading [now]. *)
Definition sign_path (now : Z) (path : string) : string :=
  if negb (truthy path) || negb (startswith path "/static/") then path
  else
    let filename := List.last (split slash path) "" in
    let expires := int_of_timestamp (now + minutes 60) in
    let signature := create_access_signature filename expires in
    path +:+ "?expires=" +:+ str_of_int expires +:+ "&signature=" +:+ signature.

(** [hmac.compare_digest] on two [str]: both must be ASCII. *)
Definition compare_digest (a b : string) : outcome bool :=
  if isascii a && isascii b then Ok (String.eqb a b)
  else Raise (Exc TypeError
                "comparing strings with non-ASCII characters is not supported").

(** What a request handler produces: a file, an [HTTPException], or an
    exception nobody caught (answered as a server error). *)
Inductive response :=
| FileResponse (path : string)
| HTTPException (status_code : Z) (detail : string)
| Unhandled (e : exc).

(** The machine the gateway runs on. *)
Record host := Host {
  getcwd : string;
  path_exists : string → bool
}.

(** The end of [get_audio_file], from [file_path = ...] on. *)
Definition resolve_file (h : host) (filename : string) : response :=
  let file_path := posixpath.join AUDIO_DIR filename in
  let root := posixpath.abspath (getcwd h) AUDIO_DIR in
  match posixpath.commonpath (posixpath.abspath (getcwd h) file_path) root with
  | Raise e => Unhandled e
  | Ok common =>
      if negb (String.eqb common root) then HTTPException 403 "Invalid path"
      else if negb (path_exists h file_path) then
        HTTPException 404 "File not found"
      else FileResponse file_path
  end.

(** [get_audio_file], at clock reading [now]. *)
Definition get_audio_file (h : host) (now : Z)
    (filename : string) (expires : Z) (signature : string) : response :=
  if (expires =? 0) || negb (truthy signature) then
    HTTPException 403 "Missing signature or expiry"
  else if expires * 1000000 <? now then
    HTTPException 403 "Link expired"
  else
    let expected_signature := create_access_signature filename expires in
    match compare_digest signature expected_signature with
    | Raise e => Unhandled e
    | Ok false => HTTPException 403 "Invalid signature"
    | Ok true => resolve_file h filename
    end.

(** ** A monad for the worker process

    A computation reads and updates [LOADED_MODELS], appends to the list of
    calls it made into the outside world, and ends with a value or a raised
    exception. *)

Definition handle := nat.

(** An entry of [LOADED_MODELS], tagged by its ["type"] field. *)
Inductive loaded_obj :=
| VibeVoiceObj (model processor : handle) (subtype : string)
| PipelineObj (pipe : handle).

Definition obj_type (o : loaded_obj) : string :=
  match o with
  | VibeVoiceObj _ _ _ => "vibevoice"
  | PipelineObj _ => "pipeline"
  end.

(** A row of [models.AudioHistory]. *)
Record AudioHistory := {
  text_input : string;
  file_path : string;
  model_name : string;
  speaker : option string;
  cfg_scale : Q;
  inference_steps : Z;
  duration : Q;
  timestamp : string;
  user_id : Z
}.

Inductive event :=
| EvClear
| EvEmptyCache (device : string)
| EvProcessorFromPretrained (streaming : bool) (path : string)
| EvModelFromPretrained (streaming : bool) (path dtype : string)
    (device_map : option string) (attn : string)
| EvModelTo (m : handle) (device : string)
| EvModelEval (m : handle)
| EvPipeline (path device : string)
| EvUpdateState (state status : string)
| EvBackendGet (key : string)
| EvRedisExists (key : string)
| EvPathExists (path : string)
| EvListdir (path : string)
| EvTorchLoad (path : string)
| EvProcessInput (text : string)
| EvSetSteps (num_steps : Z)
| EvGenerate (streaming : bool)
| EvPipeCall (text : string)
| EvAsyncState (task_id : string)
| EvWavWrite (path : string) (rate : Z) (data : list Z)
| EvSessionLocal
| EvDbAdd (row : AudioHistory)
| EvDbCommit
| EvDbRefresh
| EvDbClose
| EvPrintExc.

Record run (A : Type) := Run {
  models_after : gmap string loaded_obj;
  events : list event;
  result : outcome A
}.
Arguments Run {A} _ _ _.
Arguments models_after {A} _.
Arguments events {A} _.
Arguments result {A} _.

Definition M (A : Type) : Type := gmap string loaded_obj → run A.

Definition ret {A} (a : A) : M A := λ ms, Run ms [] (Ok a).
Definition raise {A} (e : exc) : M A := λ ms, Run ms [] (Raise e).

Definition bind {A B} (m : M A) (k : A → M B) : M B := λ ms,
  match m ms with
  | Run ms1 evs1 (Raise e) => Run ms1 evs1 (Raise e)
  | Run ms1 evs1 (Ok a) =>
      match k a ms1 with
      | Run ms2 evs2 r => Run ms2 (evs1 ++ evs2) r
      end
  end.

(** [try: m except Exception as e: handler(e)]. *)
Definition try_except {A} (m : M A) (handler : exc → M A) : M A := λ ms,
  match m ms with
  | Run ms1 evs1 (Ok a) => Run ms1 evs1 (Ok a)
  | Run ms1 evs1 (Raise e) =>
      match handler e ms1 with
      | Run ms2 evs2 r => Run ms2 (evs1 ++ evs2) r
      end
  end.

(** [try: m finally: f]. *)
Definition try_finally {A} (m : M A) (f : M unit) : M A := λ ms,
  match m ms with
  | Run ms1 evs1 r =>
      match f ms1 with
      | Run ms2 evs2 (Raise e) => Run ms2 (evs1 ++ evs2) (Raise e)
      | Run ms2 evs2 (Ok _) => Run ms2 (evs1 ++ evs2) r
      end
  end.

(** A call into the outside world: it is recorded, then answers. *)
Definition call {A} (ev : event) (answer : outcome A) : M A :=
  λ ms, Run ms [ev] answer.

Definition get_models : M (gmap string loaded_obj) := λ ms, Run ms [] (Ok ms).
Definition put_models (ms : gmap string loaded_obj) : M unit :=
  λ _, Run ms [] (Ok tt).

Declare Scope py_scope.
Delimit Scope py_scope with py.
Notation "x <- m ;; k" := (bind m (λ x, k))
  (at level 100, m at next level, right associativity) : py_scope.
Notation "m ;;; k" := (bind m (λ _, k))
  (at level 100, right associativity) : py_scope.
Local Open Scope py_scope.

Definition when (b : bool) (m : M unit) : M unit := if b then m else ret tt.

(** ** The model residency cache ([main.py], [load_model_pipeline]) *)

Definition MODELS_DIR : string := "local_models".

(** What the loader sees of the process it runs in. *)
Record runtime := {
  mps_is_available : bool;
  cuda_is_available : bool;
  VIBEVOICE_AVAILABLE : bool;
  current_dir : string;
  os_path_exists : string → bool;
  processor_from_pretrained : bool → string → outcome handle;
  model_from_pretrained :
    bool → string → string → option string → string → outcome handle;
  model_to : handle → string → outcome unit;
  model_eval : handle → outcome unit;
  (** [pipeline("text-to-speech", model=..., device=...)]; the first
      argument numbers the attempts. *)
  pipeline : nat → string → string → outcome handle
}.

Definition get_compute_device (rt : runtime) : string :=
  if mps_is_available rt then "mps"
  else if cuda_is_available rt then "cuda"
  else "cpu".

(** "Clean up other models to save RAM (Simple 1-model cache rule)". *)
Definition unload_previous (rt : runtime) : M unit :=
  ms <- get_models ;;
  when (bool_decide (0 < size ms)%nat)
    (call EvClear (Ok tt) ;;;
     put_models ∅ ;;;
     if cuda_is_available rt then call (EvEmptyCache "cuda") (Ok tt)
     else when (mps_is_available rt) (call (EvEmptyCache "mps") (Ok tt))).

Definition resolve_model_path (rt : runtime) (model_name : string) : string :=
  let model_path := posixpath.join MODELS_DIR model_name in
  if os_path_exists rt model_path then model_path
  else posixpath.join (posixpath.join (current_dir rt) MODELS_DIR) model_name.

Definition is_realtime_model (model_name : string) : bool :=
  contains "Realtime" model_name || contains "0.5B" model_name.

Definition cache_and_return (model_name : string) (obj : loaded_obj)
  : M loaded_obj :=
  ms <- get_models ;;
  put_models (<[model_name := obj]> ms) ;;;
  ret obj.

(** The custom VibeVoice loader, the body of the outer [try]. *)
Definition load_vibevoice (rt : runtime) (model_name model_path device : string)
  : M loaded_obj :=
  let '(load_dtype, device_map, attn_impl) :=
    if String.eqb device "mps" then ("float32", None, "sdpa")
    else if String.eqb device "cuda" then
      ("bfloat16", Some "cuda", "flash_attention_2")
    else ("float32", Some "cpu", "sdpa") in
  let is_realtime := is_realtime_model model_name in
  let to_mps (model : handle) : M unit :=
    when (String.eqb device "mps")
         (call (EvModelTo model "mps") (model_to rt model "mps")) in
  processor <- call (EvProcessorFromPretrained is_realtime model_path)
                    (processor_from_pretrained rt is_realtime model_path) ;;
  model <-
    try_except
      (model <- call (EvModelFromPretrained is_realtime model_path load_dtype
                                            device_map attn_impl)
                     (model_from_pretrained rt is_realtime model_path
                                            load_dtype device_map attn_impl) ;;
       to_mps model ;;;
       ret model)
      (λ e,
         if String.eqb attn_impl "flash_attention_2" then
           let device_map' :=
             if negb (String.eqb device "mps") then Some device else None in
           model <- call (EvModelFromPretrained is_realtime model_path
                                                load_dtype device_map' "sdpa")
                         (model_from_pretrained rt is_realtime model_path
                                                load_dtype device_map' "sdpa") ;;
           to_mps model ;;;
           ret model
         else raise e) ;;
  let model_type_tag :=
    if is_realtime then "vibevoice_streaming" else "vibevoice_standard" in
  call (EvModelEval model) (model_eval rt model) ;;;
  cache_and_return model_name (VibeVoiceObj model processor model_type_tag).

(** Everything of [load_model_pipeline] after the eviction. *)
Definition load_and_cache (rt : runtime) (model_name : string) : M loaded_obj :=
  let model_path := resolve_model_path rt model_name in
  let device := get_compute_device rt in
  if contains "VibeVoice" model_name && VIBEVOICE_AVAILABLE rt then
    try_except (load_vibevoice rt model_name model_path device)
      (λ e, raise (Exc PlainException
                       ("Failed to load VibeVoice model: " +:+ exc_str e)))
  else
    try_except
      (pipe <- call (EvPipeline model_path device)
                    (pipeline rt 0 model_path device) ;;
       cache_and_return model_name (PipelineObj pipe))
      (λ _,
         pipe <- call (EvPipeline model_path "cpu")
                      (pipeline rt 1 model_path "cpu") ;;
         cache_and_return model_name (PipelineObj pipe)).

Definition load_model_pipeline (rt : runtime) (model_name : string)
  : M loaded_obj :=
  ms <- get_models ;;
  match ms !! model_name with
  | Some obj => ret obj
  | None => unload_previous rt ;;; load_and_cache rt model_name
  end.

(** ** The shared state store, as the worker reads it *)

(** The Redis-compatible store at one instant: its keys and values, or the
    error every command raises while it cannot be reached. *)
Inductive store :=
| StoreUp (kv : gmap string string)
| StoreDown (e : exc).

(** [celery_app.backend.get(key)]. *)
Definition backend_get (st : store) (key : string) : outcome (option string) :=
  match st with
  | StoreUp kv => Ok (kv !! key)
  | StoreDown e => Raise e
  end.

(** [celery_app.backend.client.exists(key)]. *)
Definition client_exists (st : store) (key : string) : outcome bool :=
  match st with
  | StoreUp kv => Ok (bool_decide (is_Some (kv !! key)))
  | StoreDown e => Raise e
  end.

Definition cancel_key (task_id : string) : string :=
  "task_cancelled:" +:+ task_id.
Definition meta_key (task_id : string) : string :=
  "celery-task-meta-" +:+ task_id.

(** Truth value of [self.request.id]. *)
Definition id_truthy (request_id : option string) : bool :=
  match request_id with Some i => truthy i | None => false end.

(** [f"{self.request.id}"]. *)
Definition id_str (request_id : option string) : string :=
  match request_id with Some i => i | None => "None" end.

(** The closure [stop_check_fn] of the task, polled while the store is in
    state [st]. *)
Definition stop_check_fn (request_id : option string) (st : store) : bool :=
  if id_truthy request_id then
    match client_exists st (cancel_key (id_str request_id)) with
    | Ok true => true
    | Ok false => false
    | Raise _ => false
    end
  else false.

(** ** PCM conversion and duration ([tasks.py]) *)

(** [np.max(np.abs(a))]; the reduction of an empty array raises. *)
Definition np_max_abs (a : list Q) : outcome Q :=
  match a with
  | [] => Raise (Exc ValueError
      "zero-size array to reduction operation maximum which has no identity")
  | x :: rest => Ok (fold_left Qmax (map Qabs rest) (Qabs x))
  end.

(** [a / d], element by element. A zero divisor has no rational result
    (numpy answers with nan or inf): it is reported as an error. *)
Definition np_divide (a : list Q) (d : Q) : outcome (list Q) :=
  if Qeq_bool d 0 then Raise (Exc ZeroDivisionError "divide by zero")
  else Ok (map (λ x, x / d)%Q a).

(** Two's complement wrap-around to 16 bits. *)
Definition wrap_int16 (n : Z) : Z := (n + 32768) mod 65536 - 32768.

(** [x.astype(np.int16)]: truncation towards zero, then 16 bits. *)
Definition astype_int16 (x : Q) : Z :=
  wrap_int16 (Z.quot (Qnum x) (Zpos (Qden x))).

(** The block "Convert to 16-bit PCM". *)
Definition to_pcm16 (audio_data : list Q) : outcome (list Z) :=
  match np_max_abs audio_data with
  | Raise e => Raise e
  | Ok peak =>
      let normalized :=
        if Qlt_le_dec 0 peak then
          match np_max_abs audio_data with
          | Raise e => Raise e
          | Ok peak' => np_divide audio_data peak'
          end
        else Ok audio_data in
      match normalized with
      | Raise e => Raise e
      | Ok a => Ok (map (λ x, astype_int16 (x * 32767)%Q) a)
      end
  end.

(** [round(x)] to the nearest integer, ties to even. *)
Definition round_half_even (x : Q) : Z :=
  let n := Qnum x in
  let d := Zpos (Qden x) in
  let f := n / d in
  let r := n mod d in
  if 2 * r <? d then f
  else if d <? 2 * r then f + 1
  else if Z.even f then f else f + 1.

(** [round(n_frames / sampling_rate, 2)]. *)
Definition duration_of (n_frames sampling_rate : Z) : outcome Q :=
  if sampling_rate =? 0 then Raise (Exc ZeroDivisionError "division by zero")
  else
    Ok (round_half_even (inject_Z n_frames / inject_Z sampling_rate * 100)%Q
        # 100)%Q.

(** ** The worker task ([tasks.py], [generate_audio_task]) *)

(** What the task returns to the result backend. *)
Inductive payload :=
| Completed (id : Z) (row : AudioHistory)
| Cancelled (message : string)
| TimedOut (message : string)
| Failed (message : string).

(** The ['status'] field of the returned dictionary. *)
Definition status_of (p : payload) : string :=
  match p with
  | Completed _ _ => "completed"
  | Cancelled _ => "cancelled"
  | TimedOut _ => "timeout"
  | Failed _ => "error"
  end.

(** [outputs.speech_outputs]: one optional array per input. *)
Definition speech_outputs := list (option (list Q)).

(** The answers of the outside world during one run of the task. *)
Record task_env := {
  request_id : option string;
  loader : runtime;
  module_dir : string;
  update_state : string → outcome unit;
  (** the store when the task meta is read, and when generation is over *)
  store_before : store;
  store_after : store;
  voice_exists : string → bool;
  listdir : string → outcome (list string);
  torch_load : string → outcome handle;
  process_input_with_cached_prompt : string → handle → outcome handle;
  processor_call : string → list string → outcome handle;
  set_ddpm_inference_steps : Z → outcome unit;
  generate_streaming : handle → Q → (store → bool) → outcome speech_outputs;
  generate_standard : handle → Q → bool → outcome speech_outputs;
  pipe_call : string → outcome (list Q * Z);
  async_result_state : outcome string;
  uuid4 : string;
  wavfile_write : string → Z → list Z → outcome unit;
  session_local : outcome unit;
  db_commit : AudioHistory → outcome unit;
  db_refresh : AudioHistory → outcome Z;
  db_close : outcome unit;
  utcnow_isoformat : string
}.

Definition progress (env : task_env) (status : string) : M unit :=
  call (EvUpdateState "PROGRESS" status) (update_state env status).

(** "Check for task revocation (cancellation)": is REVOKED written in the
    task meta of the result backend? *)
Definition meta_revoked (env : task_env) : M bool :=
  if id_truthy (request_id env) then
    let key := meta_key (id_str (request_id env)) in
    first <- call (EvBackendGet key) (backend_get (store_before env) key) ;;
    match first with
    | Some (String _ _) =>
        task_meta <- call (EvBackendGet key)
                          (backend_get (store_before env) key) ;;
        ret match task_meta with
            | Some (String _ _ as m) => contains "REVOKED" m
            | _ => false
            end
    | _ => ret false
    end
  else ret false.

(** Voice lookup and generation of the Realtime (0.5B) model. *)
Definition synthesize_streaming (env : task_env)
    (text : string) (speaker : option string) (cfg_scale : Q)
    (inference_steps : Z) : M speech_outputs :=
  prefilled_outputs <-
    match speaker with
    | Some (String _ _ as sp) =>
        let voice_dir :=
          posixpath.join (module_dir env)
                         "VibeVoice1.5/demo/voices/streaming_model" in
        let voice_file := posixpath.join voice_dir (sp +:+ ".pt") in
        found <- call (EvPathExists voice_file)
                      (Ok (voice_exists env voice_file)) ;;
        if found : bool then
          call (EvTorchLoad voice_file) (torch_load env voice_file)
        else raise (Exc ValueError ("Voice file not found: " +:+ voice_file))
    | _ => raise (Exc ValueError
             "Speaker/voice must be specified for VibeVoice Realtime model")
    end ;;
  inputs <- call (EvProcessInput (strip text))
                 (process_input_with_cached_prompt env (strip text)
                                                   prefilled_outputs) ;;
  let num_steps := if inference_steps =? 0 then 5 else inference_steps in
  call (EvSetSteps num_steps) (set_ddpm_inference_steps env num_steps) ;;;
  call (EvGenerate true)
       (generate_streaming env inputs cfg_scale
                           (stop_check_fn (request_id env))).

(** Voice lookup and generation of the standard (1.5B) model. *)
Definition synthesize_standard (env : task_env)
    (text : string) (speaker : option string) (cfg_scale : Q)
    (inference_steps : Z) : M speech_outputs :=
  voice_samples <-
    match speaker with
    | Some (String _ _ as sp) =>
        let voice_dir :=
          posixpath.join (module_dir env) "VibeVoice1.5/demo/voices" in
        let voice_file := posixpath.join voice_dir (sp +:+ ".wav") in
        found <- call (EvPathExists voice_file)
                      (Ok (voice_exists env voice_file)) ;;
        if found : bool then ret [voice_file]
        else
          files <- call (EvListdir voice_dir) (listdir env voice_dir) ;;
          match List.find (λ f, startswith f sp && endswith f ".wav") files with
          | Some f => ret [posixpath.join voice_dir f]
          | None => raise (Exc ValueError
                      ("Voice file for speaker " +:+ sp +:+ " not found."))
          end
    | _ => ret []
    end ;;
  inputs <- call (EvProcessInput (strip text))
                 (processor_call env (strip text) voice_samples) ;;
  let num_steps := if inference_steps =? 0 then 5 else inference_steps in
  call (EvSetSteps num_steps) (set_ddpm_inference_steps env num_steps) ;;;
  call (EvGenerate false)
       (generate_standard env inputs cfg_scale
                          (bool_decide (voice_samples ≠ []))).

Definition lift {A} (o : outcome A) : M A := λ ms, Run ms [] o.

(** Truth value and [f"{speaker}"] of the optional speaker. *)
Definition speaker_truthy (speaker : option string) : bool :=
  match speaker with Some sp => truthy sp | None => false end.
Definition speaker_str (speaker : option string) : string :=
  match speaker with Some sp => sp | None => "None" end.

(** "Security: Validate speaker name to prevent path traversal". *)
Definition invalid_speaker (speaker : option string) : bool :=
  match speaker with
  | Some sp => truthy sp && negb (String.eqb (posixpath.basename sp) sp)
  | None => false
  end.

(** "Check for cancellation before saving": the state of the task's
    [AsyncResult]; whatever the lookup raises is dropped. *)
Definition state_revoked (env : task_env) : M bool :=
  if id_truthy (request_id env) then
    try_except
      (st <- call (EvAsyncState (id_str (request_id env)))
                  (async_result_state env) ;;
       ret (String.eqb st "REVOKED"))
      (λ _, ret false)
  else ret false.

(** From "Check for cancellation before saving" to [return result]. *)
Definition save_audio (env : task_env)
    (text model_name : string) (speaker : option string) (cfg_scale : Q)
    (inference_steps user_id : Z) (audio_data : list Q) (sampling_rate : Z)
  : M payload :=
  revoked <- state_revoked env ;;
  if revoked : bool then ret (Cancelled "Task was cancelled")
  else
    progress env "Saving audio file..." ;;;
    let n_frames := Z.of_nat (length audio_data) in
    duration_sec <- lift (duration_of n_frames sampling_rate) ;;
    pcm <- lift (to_pcm16 audio_data) ;;
    let filename := "audio_" +:+ uuid4 env +:+ ".wav" in
    let file_path := posixpath.join AUDIO_DIR filename in
    let web_path := "/static/" +:+ filename in
    call (EvWavWrite file_path sampling_rate pcm)
         (wavfile_write env file_path sampling_rate pcm) ;;;
    call EvSessionLocal (session_local env) ;;;
    try_finally
      (let db_item :=
         {| text_input := text; file_path := web_path;
            model_name := model_name; speaker := speaker;
            cfg_scale := cfg_scale; inference_steps := inference_steps;
            duration := duration_sec; timestamp := utcnow_isoformat env;
            user_id := user_id |} in
       call (EvDbAdd db_item) (Ok tt) ;;;
       call EvDbCommit (db_commit env db_item) ;;;
       id <- call EvDbRefresh (db_refresh env db_item) ;;
       ret (Completed id db_item))
      (call EvDbClose (db_close env)).

(** Voice lookup and generation, by model family. *)
Definition synthesize (env : task_env)
    (text model_name : string) (speaker : option string) (cfg_scale : Q)
    (inference_steps : Z) : M speech_outputs :=
  if is_realtime_model model_name then
    synthesize_streaming env text speaker cfg_scale inference_steps
  else synthesize_standard env text speaker cfg_scale inference_steps.

(** The branch [loaded_obj["type"] == "vibevoice"]. *)
Definition run_vibevoice (env : task_env)
    (text model_name : string) (speaker : option string) (cfg_scale : Q)
    (inference_steps user_id : Z) : M payload :=
  (if invalid_speaker speaker then
     raise (Exc ValueError ("Invalid speaker name: " +:+ speaker_str speaker))
   else ret tt) ;;;
  outputs <- synthesize env text model_name speaker cfg_scale
                        inference_steps ;;
  cancelled <-
    (if id_truthy (request_id env) then
       let key := cancel_key (id_str (request_id env)) in
       call (EvRedisExists key) (client_exists (store_after env) key)
     else ret false) ;;
  if cancelled : bool then ret (Cancelled "Task was cancelled during generation")
  else
    match outputs with
    | Some audio :: _ =>
        save_audio env text model_name speaker cfg_scale inference_steps
                   user_id audio 24000
    | None :: _ =>
        raise (Exc AttributeError
                   "'NoneType' object has no attribute 'flatten'")
    | [] => raise (Exc ValueError "No audio generated.")
    end.

(** The start of the task body, up to the dispatch on the type of the
    loaded object; [None] stands for the early [return] of the
    revocation check. *)
Definition prepare (env : task_env) (model_name : string)
    (speaker : option string) : M (option loaded_obj) :=
  progress env "Loading model..." ;;;
  loaded_obj <- load_model_pipeline (loader env) model_name ;;
  progress env ("Configuring voice: " +:+ speaker_str speaker +:+ "...") ;;;
  revoked <- meta_revoked env ;;
  if revoked : bool then ret None
  else
    progress env "Synthesizing audio..." ;;;
    ret (Some loaded_obj).

(** The body of the outer [try]. *)
Definition task_body (env : task_env)
    (text model_name : string) (speaker : option string) (cfg_scale : Q)
    (inference_steps user_id : Z) : M payload :=
  prepared <- prepare env model_name speaker ;;
  match prepared with
  | None => ret (Cancelled "Task was cancelled")
  | Some (VibeVoiceObj _ _ _) =>
      run_vibevoice env text model_name speaker cfg_scale inference_steps
                    user_id
  | Some (PipelineObj _) =>
      output <- call (EvPipeCall text) (pipe_call env text) ;;
      save_audio env text model_name speaker cfg_scale inference_steps
                 user_id (fst output) (snd output)
  end.

(** The two handlers at the end of the task. *)
Definition job_boundary (e : exc) : M payload :=
  if is_soft_time_limit e then ret (TimedOut "Task exceeded time limit")
  else
    call EvPrintExc (Ok tt) ;;;
    ret (Failed ("Generation failed: " +:+ exc_str e)).

Definition generate_audio_task (env : task_env)
    (text model_name : string) (speaker : option string) (cfg_scale : Q)
    (inference_steps user_id : Z) : M payload :=
  try_except
    (task_body env text model_name speaker cfg_scale inference_steps user_id)
    job_boundary.

(** ** Submission schema ([schemas.py], [GenerateRequest]) *)

(** The character class of the [speaker] pattern. *)
Definition speaker_char_ok (c : ascii) : bool :=
  let n := N_of_ascii c in
  ((97 <=? n) && (n <=? 122) || (65 <=? n) && (n <=? 90)
   || (48 <=? n) && (n <=? 57) || (n =? 95) || (n =? 45) || (n =? 46))%N.

Fixpoint all_chars (f : ascii → bool) (s : string) : bool :=
  match s with
  | EmptyString => true
  | String c rest => f c && all_chars f rest
  end.

(** Does an optional speaker pass the validation of the request body? *)
Definition speaker_field_ok (speaker : option string) : bool :=
  match speaker with
  | None => true
  | Some sp => truthy sp && all_chars speaker_char_ok sp
  end.

(** ** Status and cancellation endpoints ([main.py]) *)

(** [task_result.info] (also [task_result.result]): the dictionary given
    to [update_state], the dictionary the task returned, or anything
    else. *)
Inductive info_value :=
| InfoMeta (meta : gmap string string)
| InfoPayload (p : payload)
| InfoOther.

(** One task record of the result backend; [info_str] is [str(info)]. *)
Record task_meta := {
  meta_state : string;
  meta_info : info_value;
  meta_info_str : string
}.

(** [AsyncResult(task_id).state]: a task without a record is PENDING. *)
Definition async_state (metas : gmap string task_meta) (task_id : string)
  : string :=
  match metas !! task_id with
  | Some m => meta_state m
  | None => "PENDING"
  end.

(** The dictionary [get_task_status] answers with: ['task_id'], ['state']
    and either ['status'] or ['result']. *)
Inductive status_body :=
| StatusText (status : string)
| StatusResult (result : info_value).

Record status_response := {
  st_task_id : string;
  st_state : string;
  st_body : status_body
}.

(** The ['result'] of a finished task, its file path signed. *)
Definition sign_result (now : Z) (r : info_value) : info_value :=
  match r with
  | InfoPayload (Completed id row) =>
      InfoPayload (Completed id
        {| text_input := text_input row;
           file_path := sign_path now (file_path row);
           model_name := model_name row; speaker := speaker row;
           cfg_scale := cfg_scale row;
           inference_steps := inference_steps row;
           duration := duration row; timestamp := timestamp row;
           user_id := user_id row |})
  | _ => r
  end.

Definition get_task_status (now : Z) (metas : gmap string task_meta)
    (task_id : string) : outcome status_response :=
  let state := async_state metas task_id in
  let info := match metas !! task_id with
              | Some m => meta_info m
              | None => InfoOther
              end in
  let info_str := match metas !! task_id with
                  | Some m => meta_info_str m
                  | None => "None"
                  end in
  let respond body :=
    Ok {| st_task_id := task_id; st_state := state; st_body := body |} in
  if String.eqb state "PENDING" then
    respond (StatusText "Task is waiting to start...")
  else if String.eqb state "PROGRESS" then
    match info with
    | InfoMeta meta => respond (StatusText (default "" (meta !! "status")))
    | _ => Raise (Exc AttributeError "object has no attribute 'get'")
    end
  else if String.eqb state "SUCCESS" then
    respond (StatusResult (sign_result now info))
  else if String.eqb state "FAILURE" then respond (StatusText info_str)
  else if String.eqb state "REVOKED" then
    respond (StatusText "Task was cancelled")
  else respond (StatusText info_str).

(** The store as the cancel endpoint writes it: values and, for keys set
    with [setex], their time to live in seconds. *)
Record redis := {
  kv : gmap string string;
  ttl : gmap string Z
}.

Definition setex (key : string) (seconds : Z) (value : string) (r : redis)
  : redis :=
  {| kv := <[key := value]> (kv r); ttl := <[key := seconds]> (ttl r) |}.

(** [celery_app.control.revoke(task_id, terminate=..., signal=...)]. *)
Record revocation := {
  rv_task_id : string;
  rv_terminate : bool;
  rv_signal : string
}.

(** What the cancel endpoint can change. *)
Record shared := {
  sh_redis : redis;
  sh_revoked : list revocation
}.

Record cancel_response := {
  c_task_id : string;
  c_status : string;
  c_message : string
}.

(** [cancel_task]; [setex_error] is the exception the store raises on the
    write, if it does. *)
Definition cancel_task (metas : gmap string task_meta)
    (setex_error : option exc) (task_id : string) (s : shared)
  : shared * cancel_response :=
  let state := async_state metas task_id in
  if negb (bool_decide (state ∈ ["SUCCESS"; "FAILURE"; "REVOKED"])) then
    let r := match setex_error with
             | None => setex (cancel_key task_id) 3600 "1" (sh_redis s)
             | Some _ => sh_redis s
             end in
    ({| sh_redis := r;
        sh_revoked := sh_revoked s ++
          [{| rv_task_id := task_id; rv_terminate := true;
              rv_signal := "SIGTERM" |}] |},
     {| c_task_id := task_id; c_status := "cancelled";
        c_message := "Task cancellation requested" |})
  else
    (s, {| c_task_id := task_id; c_status := state;
           c_message := "Task is in " +:+ state
                        +:+ " state and cannot be cancelled" |}).

(** ** Vocabulary of the properties and sample environments *)

Definition slash_free (s : string) : bool :=
  all_chars (λ c, negb (Ascii.eqb c slash)) s.

Definition demo_host : host :=
  Host "/srv/app" (λ p, String.eqb p "generated_audio/audio_1.wav").

Definition is_served (r : response) : bool :=
  match r with FileResponse _ => true | _ => false end.

(** The calls that release the accelerator memory after the cache was
    cleared. *)
Definition release_events (rt : runtime) : list event :=
  if cuda_is_available rt then [EvEmptyCache "cuda"]
  else if mps_is_available rt then [EvEmptyCache "mps"]
  else [].

(** The cache of a process that answered the given calls, in order,
    starting from [LOADED_MODELS = {}]. *)
Definition run_loads (calls : list (runtime * string))
  : gmap string loaded_obj :=
  fold_left (λ ms c, models_after (load_model_pipeline c.1 c.2 ms)) calls ∅.

(** Every call a computation makes, from any cache, satisfies [P]. *)
Definition emits {A} (P : event → bool) (m : M A) : Prop :=
  ∀ ms, forallb P (events (m ms)) = true.

(** The calls of the loader. *)
Definition is_loader_event (ev : event) : bool :=
  match ev with
  | EvClear | EvEmptyCache _ | EvProcessorFromPretrained _ _
  | EvModelFromPretrained _ _ _ _ _ | EvModelTo _ _ | EvModelEval _
  | EvPipeline _ _ => true
  | _ => false
  end.

Definition is_eviction (ev : event) : bool :=
  match ev with EvClear | EvEmptyCache _ => true | _ => false end.

Definition is_voice_lookup (ev : event) : bool :=
  match ev with
  | EvPathExists _ | EvListdir _ | EvTorchLoad _ => true
  | _ => false
  end.

Definition is_synthesis (ev : event) : bool :=
  match ev with
  | EvProcessInput _ | EvSetSteps _ | EvGenerate _ | EvPipeCall _ => true
  | _ => false
  end.

(** Writing the audio file, and every use of the database session. *)
Definition is_artifact_write (ev : event) : bool :=
  match ev with
  | EvWavWrite _ _ _ | EvSessionLocal | EvDbAdd _ | EvDbCommit | EvDbRefresh
  | EvDbClose => true
  | _ => false
  end.

(** The calls made before the dispatch on the model type. *)
Definition is_setup_event (ev : event) : bool :=
  match ev with
  | EvUpdateState _ _ | EvBackendGet _ => true
  | _ => is_loader_event ev
  end.

(** A sample environment: a CPU-only host where every call succeeds. The
    model loads through the custom loader when its name contains
    "VibeVoice", and as a pipeline otherwise. *)
Definition demo_runtime : runtime := {|
  mps_is_available := false;
  cuda_is_available := false;
  VIBEVOICE_AVAILABLE := true;
  current_dir := "/srv/app";
  os_path_exists := λ _, true;
  processor_from_pretrained := λ _ _, Ok 1%nat;
  model_from_pretrained := λ _ _ _ _ _, Ok 2%nat;
  model_to := λ _ _, Ok tt;
  model_eval := λ _, Ok tt;
  pipeline := λ _ _ _, Ok 3%nat
|}.

Definition demo_env (rt : runtime) (rid : option string)
    (before after : store) (state : string) : task_env := {|
  request_id := rid;
  loader := rt;
  module_dir := "/srv/app";
  update_state := λ _, Ok tt;
  store_before := before;
  store_after := after;
  voice_exists := λ _, true;
  listdir := λ _, Ok [];
  torch_load := λ _, Ok 4%nat;
  process_input_with_cached_prompt := λ _ _, Ok 5%nat;
  processor_call := λ _ _, Ok 5%nat;
  set_ddpm_inference_steps := λ _, Ok tt;
  generate_streaming := λ _ _ _, Ok [Some [0; 1 # 2; - (1 # 4)]%Q];
  generate_standard := λ _ _ _, Ok [Some [0; 1 # 2; - (1 # 4)]%Q];
  pipe_call := λ _, Ok ([0; 1 # 2; - (1 # 4)]%Q, 16000);
  async_result_state := Ok state;
  uuid4 := "0b0e9f6e-7d1c-4a3b-9a53-2f0c8a1d4e11";
  wavfile_write := λ _ _ _, Ok tt;
  session_local := Ok tt;
  db_commit := λ _, Ok tt;
  db_refresh := λ _, Ok 7;
  db_close := Ok tt;
  utcnow_isoformat := "2024-01-01T00:00:00"
|}.

(** The ['status'] a finished run reports, if it returned. *)
Definition reported_status (r : run payload) : option string :=
  match result r with
  | Ok p => Some (status_of p)
  | Raise _ => None
  end.

(** Calls that must not happen for a job that is rejected or cancelled. *)
Definition touches_voice_or_artifact (ev : event) : bool :=
  is_voice_lookup ev || is_synthesis ev || is_artifact_write ev.

Definition standard_model : string := "microsoft/VibeVoice-1.5B".
Definition realtime_model : string := "microsoft/VibeVoice-Realtime-0.5B".

Definition is_cancelled (o : outcome payload) : bool :=
  match o with
  | Ok (Cancelled _) => true
  | _ => false
  end.

(** A computation that never returns a "cancelled" payload. *)
Definition never_cancelled (m : M payload) : Prop :=
  ∀ ms, is_cancelled (result (m ms)) = false.

(** A computation that, when it returns "cancelled", has made no call
    that writes the audio file or uses the database. *)
Definition cancel_clean (m : M payload) : Prop :=
  ∀ ms, is_cancelled (result (m ms)) = true →
        forallb (λ ev, negb (is_artifact_write ev)) (events (m ms)) = true.

(** The bytes of a task meta with the given status, as the result backend
    stores it. *)
Definition task_meta_json (status : string) : string :=
  let dq := String (ascii_of_nat 34) "" in
  "{" +:+ dq +:+ "status" +:+ dq +:+ ": " +:+ dq +:+ status +:+ dq +:+ "}".

(** The store of a job whose cancellation was requested: the marker is
    there, the task meta is not REVOKED. *)
Definition marked_store : store :=
  StoreUp {[ cancel_key "job-1" := "1";
             meta_key "job-1" := task_meta_json "STARTED" ]}.

Definition revoked_store : store :=
  StoreUp {[ meta_key "job-1" := task_meta_json "REVOKED" ]}.


(** What the two handlers make of an exception. *)
Definition translated (e : exc) : payload :=
  if is_soft_time_limit e then TimedOut "Task exceeded time limit"
  else Failed ("Generation failed: " +:+ exc_str e).

(** A host whose soft time limit expires while the weights are read. *)
Definition slow_runtime : runtime := {|
  mps_is_available := false;
  cuda_is_available := false;
  VIBEVOICE_AVAILABLE := true;
  current_dir := "/srv/app";
  os_path_exists := λ _, true;
  processor_from_pretrained := λ _ _, Ok 1%nat;
  model_from_pretrained := λ _ _ _ _ _,
    Raise (Exc SoftTimeLimitExceeded "SoftTimeLimitExceeded()");
  model_to := λ _ _, Ok tt;
  model_eval := λ _, Ok tt;
  pipeline := λ _ _ _, Ok 3%nat
|}.

Definition terminal_states : list string := ["SUCCESS"; "FAILURE"; "REVOKED"].

Definition empty_shared : shared :=
  {| sh_redis := {| kv := ∅; ttl := ∅ |}; sh_revoked := [] |}.

(** Does the endpoint answer that the job does not exist? *)
Definition is_not_found (r : outcome status_response) : bool :=
  match r with
  | Ok resp =>
      bool_decide (st_state resp ∈ ["NotFound"; "NOT_FOUND"; "not_found"])
  | Raise _ => false
  end.

(** ** Vocabulary of the further properties *)

Definition is_pipeline_load (ev : event) : bool :=
  match ev with EvPipeline _ _ => true | _ => false end.

Definition is_from_pretrained (ev : event) : bool :=
  match ev with
  | EvProcessorFromPretrained _ _ | EvModelFromPretrained _ _ _ _ _ => true
  | _ => false
  end.

(** The ["subtype"] the custom loader gives a model of that name. *)
Definition vibevoice_subtype (model_name : string) : string :=
  if is_realtime_model model_name then "vibevoice_streaming"
  else "vibevoice_standard".


(** The dtype, device map and attention implementation of the first
    attempt of the custom loader on a device. *)
Definition load_settings (device : string) : string * option string * string :=
  if String.eqb device "mps" then ("float32", None, "sdpa")
  else if String.eqb device "cuda" then
    ("bfloat16", Some "cuda", "flash_attention_2")
  else ("float32", Some "cpu", "sdpa").


(** The pairs of state and status the task hands to [update_state], in
    the order of the source. *)
Definition progress_notes (speaker : option string) : list (string * string) :=
  [("PROGRESS", "Loading model...");
   ("PROGRESS", "Configuring voice: " +:+ speaker_str speaker +:+ "...");
   ("PROGRESS", "Synthesizing audio...");
   ("PROGRESS", "Saving audio file...")].

(** The state updates among the calls of a run. *)
Definition state_updates (evs : list event) : list (string * string) :=
  flat_map (λ ev, match ev with
                  | EvUpdateState state status => [(state, status)]
                  | _ => []
                  end) evs.

Definition is_update (ev : event) : bool :=
  match ev with EvUpdateState _ _ => true | _ => false end.

Definition is_completed (o : outcome payload) : bool :=
  match o with Ok (Completed _ _) => true | _ => false end.

(** A computation that makes no state update, or only the last one, and
    that completes only with the last one made. *)
Definition saves_last (m : M payload) : Prop :=
  ∀ ms, (state_updates (events (m ms)) = []
         ∧ is_completed (result (m ms)) = false)
        ∨ state_updates (events (m ms))
          = [("PROGRESS", "Saving audio file...")].

(** The file a run writes: its name and its place. *)
Definition artifact_name (env : task_env) : string :=
  "audio_" +:+ uuid4 env +:+ ".wav".
Definition artifact_path (env : task_env) : string :=
  posixpath.join AUDIO_DIR (artifact_name env).

(** The calls of a run that saves, from the file to the closed session. *)
Definition save_trail (env : task_env) (rate : Z) (pcm : list Z)
    (row : AudioHistory) : list event :=
  [EvWavWrite (artifact_path env) rate pcm; EvSessionLocal; EvDbAdd row;
   EvDbCommit; EvDbRefresh; EvDbClose].

(** What stands behind a "completed" answer with row [row] and key [id],
    given the calls [evs] of the run. *)
Definition saved (env : task_env) (text model_name : string)
    (speaker : option string) (cfg_scale : Q) (inference_steps user_id : Z)
    (id : Z) (row : AudioHistory) (evs : list event) : Prop :=
  ∃ pre rate pcm d,
    evs = pre ++ save_trail env rate pcm row
    ∧ forallb (λ ev, negb (is_artifact_write ev)) pre = true
    ∧ row = {| text_input := text;
               file_path := "/static/" +:+ artifact_name env;
               model_name := model_name; speaker := speaker;
               cfg_scale := cfg_scale; inference_steps := inference_steps;
               duration := d; timestamp := utcnow_isoformat env;
               user_id := user_id |}
    ∧ rate ≠ 0 ∧ pcm ≠ []
    ∧ Forall (λ v, -32767 <= v <= 32767) pcm
    ∧ wavfile_write env (artifact_path env) rate pcm = Ok tt
    ∧ session_local env = Ok tt
    ∧ db_commit env row = Ok tt
    ∧ db_refresh env row = Ok id
    ∧ db_close env = Ok tt.

(** A computation whose "completed" answers are all backed in this way. *)
Definition completes_saved (env : task_env) (text model_name : string)
    (speaker : option string) (cfg_scale : Q) (inference_steps user_id : Z)
    (m : M payload) : Prop :=
  ∀ ms id row, result (m ms) = Ok (Completed id row) →
    saved env text model_name speaker cfg_scale inference_steps user_id
          id row (events (m ms)).

(** The calls of a run that write the file or use the database, in
    order. *)
Definition artifact_calls (evs : list event) : list event :=
  List.filter is_artifact_write evs.

(** The shapes the artifact calls of a run can have: none; the file only
    (the write raised, or the session could not be opened); and with a
    session, always its [close] at the end. *)
Definition trail_shape (env : task_env) (w : list event) : Prop :=
  w = []
  ∨ ∃ rate pcm,
      w = [EvWavWrite (artifact_path env) rate pcm]
      ∨ w = [EvWavWrite (artifact_path env) rate pcm; EvSessionLocal]
      ∨ ∃ row,
          w = [EvWavWrite (artifact_path env) rate pcm; EvSessionLocal;
               EvDbAdd row; EvDbCommit; EvDbClose]
          ∨ w = save_trail env rate pcm row.

Definition shaped (env : task_env) {A} (m : M A) : Prop :=
  ∀ ms, trail_shape env (artifact_calls (events (m ms))).

(** The directory the voices of a model family are kept in. *)
Definition voices_dir (env : task_env) (model_name : string) : string :=
  posixpath.join (module_dir env)
    (if is_realtime_model model_name
     then "VibeVoice1.5/demo/voices/streaming_model"
     else "VibeVoice1.5/demo/voices").

(** A look at the file system that stays directly inside [dir]. *)
Definition lookup_within (dir : string) (ev : event) : Prop :=
  match ev with
  | EvPathExists p | EvTorchLoad p =>
      ∃ name, name ≠ "" ∧ slash_free name = true
              ∧ p = posixpath.join dir name
  | EvListdir d => d = dir
  | _ => True
  end.

(** The calls of the custom VibeVoice generation. *)
Definition is_vibevoice_call (ev : event) : bool :=
  match ev with
  | EvPathExists _ | EvListdir _ | EvTorchLoad _ | EvProcessInput _
  | EvSetSteps _ | EvGenerate _ => true
  | _ => false
  end.

(** A component as [path_comps] keeps them. *)
Definition proper_comp (c : string) : Prop :=
  slash_free c = true ∧ c ≠ "" ∧ c ≠ ".".

(** ** The model files ([main.py]) *)

(** What a JSON endpoint produces: a body, an [HTTPException], or an
    exception nobody caught. *)
Inductive reply (A : Type) :=
| Reply (body : A)
| HTTPError (status_code : Z) (detail : string)
| ServerError (e : exc).
Arguments Reply {A} _.
Arguments HTTPError {A} _ _.
Arguments ServerError {A} _.

(** The file system as the model endpoints see it. *)
Record files := {
  fs_cwd : string;
  fs_exists : string → bool;
  fs_isdir : string → bool;
  fs_isfile : string → bool;
  fs_listdir : string → outcome (list string);
  fs_rmtree : string → outcome unit;
  fs_remove : string → outcome unit
}.

(** The calls that remove something. *)
Inductive removal :=
| Rmtree (path : string)
| Remove (path : string).

Definition removed_path (c : removal) : string :=
  match c with Rmtree p | Remove p => p end.

(** [delete_model]: the removals it asked for, and its answer. *)
Definition delete_model (loaded : gmap string loaded_obj) (fs : files)
    (model_name : string) : list removal * reply string :=
  if bool_decide (is_Some (loaded !! model_name)) then
    ([], HTTPError 400 ("Cannot delete a currently loaded model. "
                        +:+ "Please restart the server first."))
  else
    let model_path :=
      posixpath.abspath (fs_cwd fs) (posixpath.join MODELS_DIR model_name) in
    let models_dir_abs := posixpath.abspath (fs_cwd fs) MODELS_DIR in
    match posixpath.commonpath model_path models_dir_abs with
    | Raise e => ([], ServerError e)
    | Ok common =>
        if negb (String.eqb common models_dir_abs) then
          ([], HTTPError 400 "Invalid model path")
        else if negb (fs_exists fs model_path) then
          ([], HTTPError 404 "Model not found")
        else
          let deleted :=
            Reply ("Model " +:+ model_name +:+ " deleted successfully") in
          let failed (e : exc) :=
            HTTPError 500 ("Failed to delete model: " +:+ exc_str e) in
          if fs_isdir fs model_path then
            ([Rmtree model_path],
             match fs_rmtree fs model_path with
             | Ok _ => deleted
             | Raise e => failed e
             end)
          else
            ([Remove model_path],
             match fs_remove fs model_path with
             | Ok _ => deleted
             | Raise e => failed e
             end)
    end.

(** What holds of a removal that [delete_model] asks for. *)
Definition removal_ok (loaded : gmap string loaded_obj) (fs : files)
    (model_name : string) (c : removal) : Prop :=
  let p := removed_path c in
  loaded !! model_name = None
  ∧ p = posixpath.abspath (fs_cwd fs) (posixpath.join MODELS_DIR model_name)
  ∧ fs_exists fs p = true
  ∧ c = (if fs_isdir fs p then Rmtree p else Remove p)
  ∧ posixpath.path_comps (posixpath.abspath (fs_cwd fs) MODELS_DIR)
    `prefix_of` posixpath.path_comps p
  ∧ (posixpath.isabs (fs_cwd fs) = true →
     Forall (λ c, c ≠ "..") (posixpath.path_comps p)).

(** ** Model downloads ([main.py]) *)

(** [s.split(sep)] for a separator of any length: a match is cut out and
    the scan goes on behind it; [skip] counts the characters of a match
    still to pass, [cur] holds the current field in reverse order. *)
Fixpoint split_str_go (sep s : string) (skip : nat) (cur : string)
  : list string :=
  match s with
  | EmptyString => [String.rev cur]
  | String c rest =>
      match skip with
      | S k => split_str_go sep rest k cur
      | O =>
          if startswith s sep then
            String.rev cur
            :: split_str_go sep rest (String.length sep - 1) EmptyString
          else split_str_go sep rest 0 (String c cur)
      end
  end.

Definition split_str (sep s : string) : list string :=
  split_str_go sep s 0 EmptyString.

(** [s.strip(c)] for one character. *)
Fixpoint lstrip_char (c : ascii) (s : string) : string :=
  match s with
  | EmptyString => EmptyString
  | String x rest => if Ascii.eqb x c then lstrip_char c rest else s
  end.

Definition strip_char (c : ascii) (s : string) : string :=
  String.rev (lstrip_char c (String.rev (lstrip_char c s))).

(** [s.count(c)] and [s.replace(c, d)] for single characters. *)
Fixpoint count_char (c : ascii) (s : string) : nat :=
  match s with
  | EmptyString => 0
  | String x rest => (if Ascii.eqb x c then 1 else 0) + count_char c rest
  end.

Fixpoint replace_char (c d : ascii) (s : string) : string :=
  match s with
  | EmptyString => EmptyString
  | String x rest =>
      String (if Ascii.eqb x c then d else x) (replace_char c d rest)
  end.

(** An entry of [download_progress]; the keys a given entry lacks are
    [None]. *)
Record download_entry := {
  dl_status : string;
  dl_progress : Q;
  dl_filename : option string;
  dl_detail : option string;
  dl_downloaded : option Q;
  dl_total : option Q
}.

(** One call of [CustomTqdm.update], after [super().update]: the counter,
    the total and the description of the bar. *)
Record tqdm_tick := {
  tq_n : Q;
  tq_total : option Q;
  tq_desc : option string
}.

(** [snapshot_download(repo_id=..., local_dir=..., token=..., tqdm_class=...)]:
    the ticks of its progress bars, then its outcome. *)
Definition snapshot := string → string → option string
                       → list tqdm_tick * outcome unit.

Definition on_update (repo_id : string) (dp : gmap string download_entry)
    (t : tqdm_tick) : gmap string download_entry :=
  match tq_total t with
  | Some total =>
      if Qlt_le_dec 0 total then
        <[repo_id := {| dl_status := "downloading";
                        dl_progress := (tq_n t / total * 100)%Q;
                        dl_filename :=
                          Some match tq_desc t with
                               | Some (String _ _ as d) => d
                               | _ => "Downloading..."
                               end;
                        dl_detail := None;
                        dl_downloaded := Some (tq_n t);
                        dl_total := Some total |}]> dp
      else dp
  | None => dp
  end.

Definition local_dir_of (repo_id : string) : string :=
  posixpath.join MODELS_DIR (replace_char "/" "_" repo_id).

(** [download_model_task], as a change of [download_progress]. *)
Definition download_model_task (snapshot_download : snapshot)
    (repo_id : string) (token : option string)
    (dp : gmap string download_entry) : gmap string download_entry :=
  let dp1 :=
    <[repo_id := {| dl_status := "starting"; dl_progress := 0;
                    dl_filename := Some "Initializing..."; dl_detail := None;
                    dl_downloaded := None; dl_total := None |}]> dp in
  let local_dir := local_dir_of repo_id in
  let '(ticks, res) := snapshot_download repo_id local_dir token in
  let dp2 := fold_left (on_update repo_id) ticks dp1 in
  match res with
  | Ok _ =>
      <[repo_id := {| dl_status := "completed"; dl_progress := 100;
                      dl_filename := Some "Done"; dl_detail := None;
                      dl_downloaded := None; dl_total := None |}]> dp2
  | Raise e =>
      <[repo_id := {| dl_status := "error"; dl_progress := 0;
                      dl_filename := Some "Error";
                      dl_detail := Some (exc_str e);
                      dl_downloaded := None; dl_total := None |}]> dp2
  end.

Definition ALLOWED_MODELS : list string :=
  ["microsoft/VibeVoice-1.5B"; "microsoft/VibeVoice-Realtime-0.5B"].

(** The first lines of [download_model]: the identifier in the request. *)
Definition repo_id_of (url : string) : string :=
  let repo_id := strip url in
  if contains "huggingface.co/" repo_id then
    strip_char "/" (List.last (split_str "huggingface.co/" repo_id) "")
  else repo_id.

(** Is a download of [repo_id] under way, as [download_model] sees it? *)
Definition download_active (dp : gmap string download_entry)
    (repo_id : string) : bool :=
  match dp !! repo_id with
  | Some entry =>
      bool_decide (dl_status entry ∈ ["pending"; "downloading"; "starting"])
  | None => false
  end.

(** [download_model]: the background tasks it added, and its answer. It
    does not touch [download_progress]. *)
Definition download_model (url : string) (hf_token : option string)
    (dp : gmap string download_entry)
  : list (string * option string) * reply string :=
  let repo_id := repo_id_of url in
  if negb (truthy repo_id) || negb (count_char "/" repo_id =? 1)%nat then
    ([], HTTPError 400
           "Invalid model identifier. Must be in 'owner/repo' format.")
  else if negb (bool_decide (repo_id ∈ ALLOWED_MODELS)) then
    ([], HTTPError 400
           ("Model '" +:+ repo_id +:+ "' is not allowed. Only official "
            +:+ "VibeVoice models are currently supported."))
  else if download_active dp repo_id then
    ([], HTTPError 400
           ("Download for " +:+ repo_id +:+ " is already in progress."))
  else
    ([(repo_id, hf_token)],
     Reply ("Download started for " +:+ repo_id
            +:+ ". Check logs or refresh models list later.")).

(** [get_model_download_status]. *)
Definition get_model_download_status (repo_id : string)
    (dp : gmap string download_entry) : download_entry :=
  match dp !! repo_id with
  | Some status => status
  | None => {| dl_status := "not_found"; dl_progress := 0;
               dl_filename := None; dl_detail := None;
               dl_downloaded := None; dl_total := None |}
  end.

Definition is_scheduled (out : list (string * option string) * reply string)
  : bool :=
  match out with
  | ([_], Reply _) => true
  | _ => false
  end.

(** ** Listings: models and voices ([main.py]) *)

(** [s[:-n]] for [n > 0]. *)
Definition drop_end (n : nat) (s : string) : string :=
  String.substring 0 (String.length s - n) s.

(** [str.lower()] on the code points below 256. *)
Definition lower_char (c : ascii) : ascii :=
  let n := N_of_ascii c in
  if ((65 <=? n) && (n <=? 90)
      || (192 <=? n) && (n <=? 222) && negb (n =? 215))%N
  then ascii_of_N (n + 32) else c.

Fixpoint lower (s : string) : string :=
  match s with
  | EmptyString => EmptyString
  | String c rest => String (lower_char c) (lower rest)
  end.

(** [list.sort]: the stable arrangement in ascending order, which for a
    total preorder is unique; it is computed here by insertion. *)
Fixpoint insert_by {A} (leb : A → A → bool) (x : A) (l : list A) : list A :=
  match l with
  | [] => [x]
  | y :: rest => if leb x y then x :: l else y :: insert_by leb x rest
  end.

Definition sort_by {A} (leb : A → A → bool) (l : list A) : list A :=
  foldr (insert_by leb) [] l.

(** The order of the keys [(not x.startswith('en-'), x)]. *)
Definition is_english (x : string) : bool := startswith x "en-".

Definition voice_key_leb (x y : string) : bool :=
  let kx := negb (is_english x) in
  let ky := negb (is_english y) in
  if Bool.eqb kx ky then String.leb x y else negb kx.

Definition streaming_voices (module_dir : string) : string :=
  posixpath.join module_dir "VibeVoice1.5/demo/voices/streaming_model".
Definition standard_voices (module_dir : string) : string :=
  posixpath.join module_dir "VibeVoice1.5/demo/voices".

(** [get_available_voices]; [module_dir] is [os.path.dirname(__file__)]. *)
Definition get_available_voices (fs : files) (module_dir : string)
    (model_type : string) : outcome (list string) :=
  let found :=
    if String.eqb model_type "streaming" then
      let voice_dir := streaming_voices module_dir in
      if fs_exists fs voice_dir then
        match fs_listdir fs voice_dir with
        | Raise e => Raise e
        | Ok listing =>
            Ok (map (drop_end 3)
                    (List.filter (λ file, endswith file ".pt") listing))
        end
      else Ok []
    else
      let voice_dir := standard_voices module_dir in
      if fs_exists fs voice_dir then
        match fs_listdir fs voice_dir with
        | Raise e => Raise e
        | Ok listing =>
            Ok (map (drop_end 4)
                    (List.filter
                       (λ file, endswith file ".wav"
                                && fs_isfile fs (posixpath.join voice_dir file))
                       listing))
        end
      else Ok []
  in
  match found with
  | Raise e => Raise e
  | Ok voices => Ok (sort_by voice_key_leb voices)
  end.

Definition MODEL_VOICES : gmap string (list string) := {["default" := []]}.

(** [get_model_speakers]. *)
Definition get_model_speakers (fs : files) (module_dir : string)
    (model_name : string) : outcome (list string) :=
  match get_available_voices fs module_dir "streaming" with
  | Raise e => Raise e
  | Ok AVAILABLE_VOICES_STREAMING =>
  match get_available_voices fs module_dir "standard" with
  | Raise e => Raise e
  | Ok AVAILABLE_VOICES_STANDARD =>
      let is_realtime :=
        contains "Realtime" model_name || contains "0.5B" model_name in
      let available_pool :=
        if is_realtime then AVAILABLE_VOICES_STREAMING
        else AVAILABLE_VOICES_STANDARD in
      (* [MODEL_VOICES.get(model_name)], else [MODEL_VOICES["default"]],
         a key the dictionary has *)
      let speakers :=
        match MODEL_VOICES !! model_name with
        | Some speakers => speakers
        | None => default [] (MODEL_VOICES !! "default")
        end in
      match Ok speakers with
      | Raise e => Raise e
      | Ok speakers =>
          let filtered :=
            match speakers with
            | [] => Ok speakers
            | _ :: _ =>
                let '(voice_dir, ext) :=
                  if is_realtime then (streaming_voices module_dir, ".pt")
                  else (standard_voices module_dir, ".wav") in
                if fs_exists fs voice_dir then
                  match fs_listdir fs voice_dir with
                  | Raise e => Raise e
                  | Ok listing =>
                      let available_files :=
                        map (drop_end (String.length ext))
                            (List.filter (λ f, endswith f ext) listing) in
                      Ok (List.filter
                            (λ s, bool_decide (s ∈ available_files))
                            speakers)
                  end
                else Ok speakers
            end in
          match filtered with
          | Raise e => Raise e
          | Ok [] => Ok available_pool
          | Ok speakers => Ok speakers
          end
      end
  end
  end.

Definition model_suffixes : list string :=
  [".pth"; ".bin"; ".pt"; ".safetensors"; ".ckpt"].

(** The test of the loop of [get_available_models]. *)
Definition is_model_entry (fs : files) (entry : string) : bool :=
  let full_path := posixpath.join MODELS_DIR entry in
  fs_isdir fs full_path
  || fs_isfile fs full_path
     && existsb (endswith (lower entry)) model_suffixes.

(** [get_available_models]: the list under the key ["models"]. *)
Definition get_available_models (fs : files) : outcome (list string) :=
  if fs_exists fs MODELS_DIR then
    match fs_listdir fs MODELS_DIR with
    | Raise e => Raise e
    | Ok listing =>
        Ok (sort_by String.leb (List.filter (is_model_entry fs) listing))
    end
  else Ok (sort_by String.leb []).

(** A sample file system: two voices directories and a models
    directory. *)
Definition demo_files : files := {|
  fs_cwd := "/srv/app";
  fs_exists := λ _, true;
  fs_isdir := λ p, String.eqb p "local_models/microsoft_VibeVoice-1.5B";
  fs_isfile := λ p, negb (String.eqb p "local_models/microsoft_VibeVoice-1.5B");
  fs_listdir := λ p,
    if String.eqb p "/srv/app/VibeVoice1.5/demo/voices/streaming_model" then
      Ok ["zh-Bowen_man.pt"; "en-Carter_man.pt"; "notes.txt"; "en-Alice.pt"]
    else if String.eqb p "/srv/app/VibeVoice1.5/demo/voices" then
      Ok ["streaming_model"; "en-Frank_man.wav"; "en-Alice_woman.wav"]
    else if String.eqb p "local_models" then
      Ok ["tiny.PT"; "readme.md"; "microsoft_VibeVoice-1.5B"]
    else Raise (Exc LibraryError "No such file or directory");
  fs_rmtree := λ _, Ok tt;
  fs_remove := λ _, Ok tt
|}.

(** A computation that leaves [LOADED_MODELS] as it found it. *)
Definition keeps_models {A} (m : M A) : Prop :=
  ∀ ms, models_after (m ms) = ms.

(** ** Submitting a job ([schemas.py], [main.py]) *)

Record GenerateRequest := {
  gr_text : string;
  gr_model_name : string;
  gr_speaker : option string;
  gr_cfg_scale : Q;
  gr_inference_steps : Z
}.

(** The character class of the [model_name] pattern. *)
Definition model_name_char_ok (c : ascii) : bool :=
  speaker_char_ok c || Ascii.eqb c slash.

(** The constraints of the fields of [GenerateRequest]. *)
Definition generate_request_ok (r : GenerateRequest) : bool :=
  (1 <=? Z.of_nat (String.length (gr_text r)))
  && (Z.of_nat (String.length (gr_text r)) <=? 100000)
  && truthy (gr_model_name r)
  && all_chars model_name_char_ok (gr_model_name r)
  && speaker_field_ok (gr_speaker r)
  && Qle_bool (1 # 10) (gr_cfg_scale r)
  && Qle_bool (gr_cfg_scale r) 20
  && (1 <=? gr_inference_steps r)
  && (gr_inference_steps r <=? 50).

(** The job that [generate_audio_celery] queues for a request of the
    user [user_id], as the worker runs it. *)
Definition queued_job (env : task_env) (r : GenerateRequest) (user_id : Z)
  : M payload :=
  generate_audio_task env (gr_text r) (gr_model_name r) (gr_speaker r)
                      (gr_cfg_scale r) (gr_inference_steps r) user_id.

(** What the generation calls of a job are given. *)
Definition fed_with (text : string) (steps : Z) (ev : event) : Prop :=
  match ev with
  | EvProcessInput t => t = strip text
  | EvSetSteps n => n = steps
  | EvPipeCall t => t = text
  | _ => True
  end.

(** ** Accounts ([main.py]) *)

(** A row of [models.User]. *)
Record User := {
  u_id : Z;
  email : string
}.

(** The claims of an access token; [exp] in seconds since the epoch. *)
Record token_claims := {
  sub : option string;
  claim_user_id : option Z;
  exp : Z
}.

(** What [jwt.decode] does with a token: the claims, a [JWTError], or any
    other exception. *)
Inductive decoded :=
| Decoded (c : token_claims)
| JWTError
| DecodeCrash (e : exc).

(** The [jose.jwt] functions for the key and algorithm of the service;
    [jwt_decode] is given the clock reading in seconds. *)
Record jose := {
  jwt_encode : token_claims → string;
  jwt_decode : Z → string → decoded
}.

Definition ACCESS_TOKEN_EXPIRE_MINUTES : Z := 1440.

(** [create_access_token], at clock reading [now] (seconds). *)
Definition create_access_token (j : jose) (now : Z) (data : token_claims)
    (expires_delta : option Z) : string :=
  let expire :=
    match expires_delta with
    | Some minutes => if minutes =? 0 then now + 15 * 60 else now + minutes * 60
    | None => now + 15 * 60
    end in
  jwt_encode j {| sub := sub data; claim_user_id := claim_user_id data;
                  exp := expire |}.

(** [db.query(models.User).filter(models.User.email == email).first()]. *)
Definition user_by_email (users : list User) (e : string) : option User :=
  List.find (λ u, String.eqb (email u) e) users.

Definition credentials_exception {A} : reply A :=
  HTTPError 401 "Could not validate credentials".

(** The token of a request: the cookie, else the bearer token of the
    [Authorization] header. *)
Definition request_token (cookie authorization : option string)
  : option string :=
  match cookie with
  | Some (String _ _ as token) => Some token
  | _ =>
      match authorization with
      | Some (String _ _ as auth_header) =>
          if startswith auth_header "Bearer " then
            nth_error (split " "%char auth_header) 1
          else cookie
      | _ => cookie
      end
  end.

(** [get_current_user], at clock reading [now] (seconds). *)
Definition get_current_user (j : jose) (now : Z) (users : list User)
    (cookie authorization : option string) : reply User :=
  match request_token cookie authorization with
  | Some (String _ _ as token) =>
      match jwt_decode j now token with
      | DecodeCrash e => ServerError e
      | JWTError => credentials_exception
      | Decoded payload =>
          match sub payload with
          | None => credentials_exception
          | Some e =>
              match user_by_email users e with
              | None => credentials_exception
              | Some user => Reply user
              end
          end
      end
  | _ => credentials_exception
  end.

(** The cookie that [login] sets. *)
Record set_cookie := {
  ck_key : string;
  ck_value : string;
  ck_httponly : bool;
  ck_secure : bool;
  ck_samesite : string;
  ck_max_age : Z
}.

(** [login], at clock reading [now] (seconds): the answer with its
    cookie. *)
Definition login (j : jose) (now : Z) (users : list User) (e : string)
  : reply (string * string * set_cookie) :=
  match user_by_email users e with
  | None => HTTPError 404 "User not found"
  | Some user =>
      let access_token :=
        create_access_token j now
          {| sub := Some (email user); claim_user_id := Some (u_id user);
             exp := 0 |}
          (Some ACCESS_TOKEN_EXPIRE_MINUTES) in
      Reply ("Login successful", email user,
             {| ck_key := "access_token"; ck_value := access_token;
                ck_httponly := true; ck_secure := false;
                ck_samesite := "lax";
                ck_max_age := ACCESS_TOKEN_EXPIRE_MINUTES * 60 |})
  end.

(** A row of [models.UserSetting]. *)
Record UserSetting := {
  us_id : Z;
  us_user_id : Z;
  sample_rate : Z;
  quality : string;
  format : string;
  auto_save : bool;
  tts_model : string;
  hf_token : option string
}.

(** [models.UserSetting(user_id=...)] once the database has given it the
    key [id] and the defaults of its columns. *)
Definition default_setting (id uid : Z) : UserSetting :=
  {| us_id := id; us_user_id := uid; sample_rate := 48000;
     quality := "high"; format := "uncompressed"; auto_save := true;
     tts_model := "default"; hf_token := None |}.

(** The body of a PATCH request: [settings_update.dict(exclude_unset=True)]
    holds the fields that the request sets. *)
Record UserSettingsUpdate := {
  set_sample_rate : option Z;
  set_quality : option string;
  set_format : option string;
  set_auto_save : option bool;
  set_tts_model : option string;
  set_hf_token : option (option string)
}.

(** The loop [for key, value in update_data.items(): setattr(...)]. *)
Definition apply_update (upd : UserSettingsUpdate) (s : UserSetting)
  : UserSetting :=
  {| us_id := us_id s; us_user_id := us_user_id s;
     sample_rate := default (sample_rate s) (set_sample_rate upd);
     quality := default (quality s) (set_quality upd);
     format := default (format s) (set_format upd);
     auto_save := default (auto_save s) (set_auto_save upd);
     tts_model := default (tts_model s) (set_tts_model upd);
     hf_token := default (hf_token s) (set_hf_token upd) |}.

(** [db.query(models.UserSetting).filter(... user_id == uid).first()]. *)
Definition setting_of (table : list UserSetting) (uid : Z)
  : option UserSetting :=
  List.find (λ s, us_user_id s =? uid) table.

(** The first row of [uid] replaced by [s]. *)
Fixpoint store_setting (table : list UserSetting) (uid : Z) (s : UserSetting)
  : list UserSetting :=
  match table with
  | [] => []
  | row :: rest =>
      if us_user_id row =? uid then s :: rest
      else row :: store_setting rest uid s
  end.

(** [get_settings] for the user [uid]; [fresh] is the key that the
    database gives to a new row. The table after the request, and the
    answer, for a [commit] that goes through. *)
Definition get_settings (fresh uid : Z) (table : list UserSetting)
  : list UserSetting * UserSetting :=
  match setting_of table uid with
  | Some settings => (table, settings)
  | None =>
      let settings := default_setting fresh uid in
      (table ++ [settings], settings)
  end.

(** [update_settings] for the user [uid]. *)
Definition update_settings (fresh uid : Z) (settings_update : UserSettingsUpdate)
    (table : list UserSetting) : list UserSetting * UserSetting :=
  match setting_of table uid with
  | Some db_settings =>
      let db_settings := apply_update settings_update db_settings in
      (store_setting table uid db_settings, db_settings)
  | None =>
      let db_settings :=
        apply_update settings_update (default_setting fresh uid) in
      (table ++ [db_settings], db_settings)
  end.

(** [register], for commits that go through; [fresh_user] and
    [fresh_setting] are the keys that the database gives to the new rows.
    The two tables after the request, and the answer. *)
Definition register (fresh_user fresh_setting : Z) (e : string)
    (users : list User) (table : list UserSetting)
  : list User * list UserSetting * reply User :=
  match user_by_email users e with
  | Some _ => (users, table, HTTPError 400 "Email already registered")
  | None =>
      let db_user := {| u_id := fresh_user; email := e |} in
      let default_settings := default_setting fresh_setting (u_id db_user) in
      (users ++ [db_user], table ++ [default_settings], Reply db_user)
  end.

(** * Properties *)

(** ** Test vectors of the digest *)

Example sha256_abc :
  SHA256.hexdigest (encode "abc")
  = "ba7816bf8f01cfea414140de5dae2223b00361a396177a9cb410ff61f20015ad".
Proof. vm_compute. reflexivity. Qed.

Example sha256_empty :
  SHA256.hexdigest []
  = "e3b0c44298fc1c149afbf4c8996fb92427ae41e4649b934ca495991b7852b855".
Proof. vm_compute. reflexivity. Qed.

Example hmac_rfc_style :
  HMAC.hexdigest (encode "key")
                 (encode "The quick brown fox jumps over the lazy dog")
  = "f7bc83f430538424b13298e6aa6fb143ef4d59a14946175997479dbc2d1a3cd8".
Proof. vm_compute. reflexivity. Qed.

(** ** Strings and digests *)

Lemma append_cons (c : ascii) (s t : string) :
  String c s +:+ t = String c (s +:+ t).
Proof. reflexivity. Qed.

Lemma append_empty_r (s : string) : s +:+ "" = s.
Proof.
  induction s as [|c s IH]; [reflexivity | now rewrite append_cons, IH].
Qed.


Lemma rev_app_append (s acc t : string) :
  String.rev_app s acc +:+ t = String.rev_app s (acc +:+ t).
Proof.
  revert acc. induction s as [|c s IH]; intros acc; [reflexivity|].
  cbn [String.rev_app]. now rewrite IH.
Qed.

Lemma split_go_slash_free (s cur : string) :
  slash_free s = true → split_go slash s cur = [String.rev cur +:+ s].
Proof.
  revert cur. induction s as [|c s IH]; intros cur Hs.
  - cbn [split_go]. now rewrite append_empty_r.
  - cbn [slash_free all_chars] in Hs. apply andb_prop in Hs as [Hc Hs].
    apply negb_true_iff in Hc. cbn [split_go]. rewrite Hc, (IH _ Hs).
    unfold String.rev. cbn [String.rev_app]. now rewrite !rev_app_append.
Qed.

Lemma split_slash_free (s : string) : slash_free s = true → split slash s = [s].
Proof. intros Hs. unfold split. now rewrite split_go_slash_free. Qed.

Lemma basename_slash_free (s : string) :
  slash_free s = true → posixpath.basename s = s.
Proof. intros Hs. unfold posixpath.basename. now rewrite split_slash_free. Qed.


Lemma hexchar_ascii (n : Z) : is_ascii_char (SHA256.hexchar n) = true.
Proof.
  unfold SHA256.hexchar. generalize (Z.to_nat (Z.land n 15)). intros i.
  do 17 (destruct i as [|i]; [reflexivity|]). reflexivity.
Qed.

Lemma hex_of_word_ascii (w : Z) (rest : string) :
  isascii (SHA256.hex_of_word w rest) = isascii rest.
Proof.
  unfold SHA256.hex_of_word. cbn [isascii]. now rewrite !hexchar_ascii.
Qed.

Lemma signature_isascii (filename : string) (expires : Z) :
  isascii (create_access_signature filename expires) = true.
Proof.
  unfold create_access_signature, HMAC.hexdigest, SHA256.hex_of_state.
  now rewrite !hex_of_word_ascii.
Qed.



Lemma compare_digest_differ (a b : string) :
  isascii a = true → isascii b = true → a ≠ b → compare_digest a b = Ok false.
Proof.
  intros Ha Hb Hab. unfold compare_digest. rewrite Ha, Hb. simpl.
  apply String.eqb_neq in Hab. now rewrite Hab.
Qed.

Lemma compare_digest_true (a b : string) : compare_digest a b = Ok true → a = b.
Proof.
  unfold compare_digest. destruct (isascii a && isascii b); [|discriminate].
  intros [= H]. now apply String.eqb_eq.
Qed.


(** ** The signed artifact gateway *)





Lemma served_only_if_valid (h : host) (now : Z) (filename : string)
    (expires : Z) (signature : string) :
  is_served (get_audio_file h now filename expires signature) = true →
  expires ≠ 0 ∧ signature ≠ "" ∧ now <= expires * 1000000
  ∧ signature = create_access_signature filename expires.
Proof.
  unfold get_audio_file.
  destruct (Z.eqb_spec expires 0) as [|Hz]; [discriminate|].
  destruct signature as [|c s]; [discriminate|]. cbn [truthy negb orb].
  destruct (Z.ltb_spec (expires * 1000000) now) as [|Hn]; [discriminate|].
  destruct (compare_digest (String c s)
              (create_access_signature filename expires)) as [[|]|e] eqn:Hcmp;
    try discriminate.
  intros _. apply compare_digest_true in Hcmp. repeat split; auto.
Qed.

(** C2, as the code has it. A request with a non-zero expiry and a
    non-empty signature whose expiry lies in the past is answered 403
    "Link expired", whatever the signature; one that has not expired and
    carries an ASCII signature other than the HMAC of
    ["<filename>:<expires>"] is answered 403 "Invalid signature"; and no
    request that has expired or whose signature differs from that HMAC is
    ever answered with the file. *)
Theorem link_rejection (h : host) (now : Z) (filename : string)
    (expires : Z) (signature : string) :
  expires ≠ 0 →
  signature ≠ "" →
  (expires * 1000000 < now →
   get_audio_file h now filename expires signature
   = HTTPException 403 "Link expired")
  ∧ (now <= expires * 1000000 →
     isascii signature = true →
     signature ≠ create_access_signature filename expires →
     get_audio_file h now filename expires signature
     = HTTPException 403 "Invalid signature")
  ∧ (expires * 1000000 < now
     ∨ signature ≠ create_access_signature filename expires →
     is_served (get_audio_file h now filename expires signature) = false).
Proof.
  intros Hexp Hsig.
  assert (Hguard : (expires =? 0) || negb (truthy signature) = false).
  { apply Z.eqb_neq in Hexp. rewrite Hexp.
    destruct signature; [contradiction | reflexivity]. }
  split; [|split].
  - intros Hpast. unfold get_audio_file. rewrite Hguard.
    apply Z.ltb_lt in Hpast. now rewrite Hpast.
  - intros Hfresh Hascii Hne. unfold get_audio_file. rewrite Hguard.
    apply Z.ltb_ge in Hfresh. rewrite Hfresh.
    rewrite compare_digest_differ; auto using signature_isascii.
  - intros Hbad.
    destruct (is_served (get_audio_file h now filename expires signature))
      eqn:Hserved; [|reflexivity].
    apply served_only_if_valid in Hserved as (_ & _ & Hfresh & Heq).
    destruct Hbad as [Hpast | Hne]; [lia | contradiction].
Qed.

Lemma link_rejection_witness :
  get_audio_file demo_host 1700003600000001 "audio_1.wav" 1700003600
    "4e723ccf40da50a566bb3dfa4f65c6e05ae9e7741930f5ccdb5bf84fef9b0b29"
  = HTTPException 403 "Link expired"
  ∧ get_audio_file demo_host 1700000000000000 "audio_1.wav" 1700003600
      "4e723ccf40da50a566bb3dfa4f65c6e05ae9e7741930f5ccdb5bf84fef9b0b20"
    = HTTPException 403 "Invalid signature".
Proof.
  split.
  - apply (link_rejection demo_host 1700003600000001 "audio_1.wav" 1700003600
      "4e723ccf40da50a566bb3dfa4f65c6e05ae9e7741930f5ccdb5bf84fef9b0b29");
      [lia | discriminate | lia].
  - apply (link_rejection demo_host 1700000000000000 "audio_1.wav" 1700003600
      "4e723ccf40da50a566bb3dfa4f65c6e05ae9e7741930f5ccdb5bf84fef9b0b20");
      [lia | discriminate | lia | reflexivity | vm_compute; discriminate].
Defined.

(** C2, as the claim has it, fails: a link whose expiry is 0 is long
    expired and carries exactly the HMAC of ["audio_1.wav:0"], yet the
    answer is "Missing signature or expiry", not "Link expired"; and an
    empty signature, which differs from the HMAC, is not answered
    "Invalid signature". *)
Lemma link_rejection_counterexample :
  0 * 1000000 < 1700000000000000
  ∧ get_audio_file demo_host 1700000000000000 "audio_1.wav" 0
      (create_access_signature "audio_1.wav" 0)
    ≠ HTTPException 403 "Link expired"
  ∧ "" ≠ create_access_signature "audio_1.wav" 1700003600
  ∧ get_audio_file demo_host 1700000000000000 "audio_1.wav" 1700003600 ""
    ≠ HTTPException 403 "Invalid signature".
Proof. vm_compute. repeat split; discriminate. Qed.

(** A signature with a character outside ASCII makes the comparison raise;
    the request ends in a server error, without a file. *)
Example non_ascii_signature :
  get_audio_file demo_host 1700000000000000 "audio_1.wav" 1700003600
    (String (ascii_of_nat 233) "")
  = Unhandled (Exc TypeError
      "comparing strings with non-ASCII characters is not supported").
Proof. vm_compute. reflexivity. Qed.

(** The route hands over one path segment. Were a filename with a slash
    presented, the link signed for its path would not verify: the signer
    keeps the last segment only. *)
Example nested_filename_not_signed_whole :
  sign_path 1700000000000000 "/static/a/b.wav"
  = "/static/a/b.wav?expires=1700003600&signature="
    +:+ create_access_signature "b.wav" 1700003600
  ∧ get_audio_file demo_host 1700000000000000 "a/b.wav" 1700003600
      (create_access_signature "b.wav" 1700003600)
    = HTTPException 403 "Invalid signature".
Proof. vm_compute. split; reflexivity. Qed.

(** C10. A request whose [expires] is 0, or whose signature is empty, is
    answered 403 "Missing signature or expiry" whatever the clock, the
    file system and the other parameter are, and so before the expiry and
    the signature are looked at: also when the signature is exactly the
    HMAC of ["<filename>:0"]. *)
Theorem missing_guard_first :
  (∀ h now filename signature,
     get_audio_file h now filename 0 signature
     = HTTPException 403 "Missing signature or expiry")
  ∧ (∀ h now filename expires,
       get_audio_file h now filename expires ""
       = HTTPException 403 "Missing signature or expiry")
  ∧ (∀ h now filename,
       get_audio_file h now filename 0 (create_access_signature filename 0)
       = HTTPException 403 "Missing signature or expiry").
Proof.
  split; [|split]; intros; unfold get_audio_file.
  - reflexivity.
  - now rewrite orb_true_r.
  - reflexivity.
Qed.

(** ** The model residency cache *)

(** Case analysis on every answer of the outside world that the goal
    branches on. *)
Ltac case_outcomes :=
  repeat match goal with
    | |- context [match ?o with Ok _ => _ | Raise _ => _ end] =>
        destruct o eqn:?; cbn
    end.

Lemma unload_previous_run (rt : runtime) (ms : gmap string loaded_obj) :
  unload_previous rt ms
  = Run ∅ (if bool_decide (ms = ∅) then [] else EvClear :: release_events rt)
        (Ok tt).
Proof.
  unfold unload_previous, release_events, bind, get_models. cbn.
  destruct (decide (ms = ∅)) as [->|Hne].
  - rewrite (bool_decide_eq_true_2 (∅ = ∅)) by reflexivity.
    rewrite bool_decide_eq_false_2 by (rewrite map_size_empty; lia).
    reflexivity.
  - rewrite (bool_decide_eq_false_2 (ms = ∅)) by assumption.
    rewrite bool_decide_eq_true_2
      by (apply map_size_non_empty_iff in Hne; lia).
    cbn. destruct (cuda_is_available rt); cbn; [reflexivity|].
    destruct (mps_is_available rt); reflexivity.
Qed.

Lemma load_and_cache_models (rt : runtime) (model_name : string)
    (ms : gmap string loaded_obj) :
  let r := load_and_cache rt model_name ms in
  (∃ obj, result r = Ok obj ∧ models_after r = <[model_name := obj]> ms)
  ∨ (∃ e, result r = Raise e ∧ models_after r = ms).
Proof.
  unfold load_and_cache, load_vibevoice, get_compute_device.
  destruct (contains "VibeVoice" model_name && VIBEVOICE_AVAILABLE rt);
    destruct (mps_is_available rt); [| destruct (cuda_is_available rt) | |];
    cbn; unfold try_except, bind, call, cache_and_return, bind, get_models,
           put_models, ret, raise, when; cbn;
    case_outcomes; eauto.
Qed.

Lemma load_model_pipeline_hit (rt : runtime) (model_name : string)
    (ms : gmap string loaded_obj) (obj : loaded_obj) :
  ms !! model_name = Some obj →
  load_model_pipeline rt model_name ms = Run ms [] (Ok obj).
Proof.
  intros Hhit. unfold load_model_pipeline, bind, get_models. cbn.
  rewrite Hhit. reflexivity.
Qed.

Lemma load_model_pipeline_miss (rt : runtime) (model_name : string)
    (ms : gmap string loaded_obj) :
  ms !! model_name = None →
  let fresh := load_and_cache rt model_name ∅ in
  load_model_pipeline rt model_name ms
  = Run (models_after fresh)
        ((if bool_decide (ms = ∅) then [] else EvClear :: release_events rt)
         ++ events fresh)
        (result fresh).
Proof.
  intros Hmiss. unfold load_model_pipeline, bind at 1, get_models.
  rewrite Hmiss. unfold bind. rewrite unload_previous_run.
  now destruct (load_and_cache rt model_name ∅).
Qed.

Lemma load_model_pipeline_size (rt : runtime) (model_name : string)
    (ms : gmap string loaded_obj) :
  (size ms ≤ 1)%nat →
  (size (models_after (load_model_pipeline rt model_name ms)) ≤ 1)%nat.
Proof.
  intros Hone. destruct (ms !! model_name) as [obj|] eqn:Hlook.
  - now rewrite (load_model_pipeline_hit _ _ _ _ Hlook).
  - rewrite (load_model_pipeline_miss _ _ _ Hlook). cbn.
    destruct (load_and_cache_models rt model_name ∅)
      as [(obj & _ & ->) | (e & _ & ->)].
    + rewrite insert_empty, map_size_singleton. lia.
    + rewrite map_size_empty. lia.
Qed.

Lemma run_loads_size (calls : list (runtime * string)) :
  (size (run_loads calls) ≤ 1)%nat.
Proof.
  unfold run_loads.
  assert (Hgen : ∀ ms, (size ms ≤ 1)%nat →
    (size (fold_left
             (λ ms c, models_after (load_model_pipeline c.1 c.2 ms))
             calls ms) ≤ 1)%nat).
  { induction calls as [|c calls IH]; intros ms Hms; cbn; [assumption|].
    apply IH. now apply load_model_pipeline_size. }
  apply Hgen. rewrite map_size_empty. lia.
Qed.

(** *** Which calls a computation makes *)

Lemma forallb_weaken {A} (P Q : A → bool) (l : list A) :
  (∀ x, P x = true → Q x = true) →
  forallb P l = true → forallb Q l = true.
Proof.
  intros HPQ. induction l as [|x l IH]; cbn; [reflexivity|].
  intros H. apply andb_prop in H as [Hx Hl]. now rewrite (HPQ _ Hx), IH.
Qed.

Section Emits.
Context (P : event → bool).

Lemma emits_ret {A} (a : A) : emits P (ret a).
Proof. intros ms. reflexivity. Qed.

Lemma emits_raise {A} (e : exc) : emits P (@raise A e).
Proof. intros ms. reflexivity. Qed.

Lemma emits_lift {A} (o : outcome A) : emits P (lift o).
Proof. intros ms. reflexivity. Qed.

Lemma emits_get_models : emits P get_models.
Proof. intros ms. reflexivity. Qed.

Lemma emits_put_models (ms' : gmap string loaded_obj) :
  emits P (put_models ms').
Proof. intros ms. reflexivity. Qed.

Lemma emits_call {A} (ev : event) (o : outcome A) :
  P ev = true → emits P (call ev o).
Proof. intros Hev ms. cbn. now rewrite Hev. Qed.

Lemma emits_bind {A B} (m : M A) (k : A → M B) :
  emits P m → (∀ a, emits P (k a)) → emits P (bind m k).
Proof.
  intros Hm Hk ms. unfold bind. specialize (Hm ms).
  destruct (m ms) as [ms1 evs1 [a|e]]; cbn in *; [|assumption].
  specialize (Hk a ms1). destruct (k a ms1) as [ms2 evs2 r]; cbn in *.
  rewrite forallb_app. now rewrite Hm, Hk.
Qed.

Lemma emits_try_except {A} (m : M A) (handler : exc → M A) :
  emits P m → (∀ e, emits P (handler e)) → emits P (try_except m handler).
Proof.
  intros Hm Hh ms. unfold try_except. specialize (Hm ms).
  destruct (m ms) as [ms1 evs1 [a|e]]; cbn in *; [assumption|].
  specialize (Hh e ms1). destruct (handler e ms1) as [ms2 evs2 r]; cbn in *.
  rewrite forallb_app. now rewrite Hm, Hh.
Qed.

Lemma emits_try_finally {A} (m : M A) (f : M unit) :
  emits P m → emits P f → emits P (try_finally m f).
Proof.
  intros Hm Hf ms. unfold try_finally. specialize (Hm ms).
  destruct (m ms) as [ms1 evs1 r]; cbn in *.
  specialize (Hf ms1). destruct (f ms1) as [ms2 evs2 [[]|e]]; cbn in *;
    rewrite forallb_app; now rewrite Hm, Hf.
Qed.

Lemma emits_when (b : bool) (m : M unit) : emits P m → emits P (when b m).
Proof. intros Hm. destruct b; [assumption | apply emits_ret]. Qed.

End Emits.

(** Syntax-directed proof that a computation only makes calls in [P]. *)
Ltac emits_step :=
  lazymatch goal with
  | |- emits _ (ret _) => apply emits_ret
  | |- emits _ (raise _) => apply emits_raise
  | |- emits _ (lift _) => apply emits_lift
  | |- emits _ get_models => apply emits_get_models
  | |- emits _ (put_models _) => apply emits_put_models
  | |- emits _ (call _ _) => apply emits_call; reflexivity
  | |- emits _ (bind _ _) => apply emits_bind; [|intros ?]
  | |- emits _ (try_except _ _) => apply emits_try_except; [|intros ?]
  | |- emits _ (try_finally _ _) => apply emits_try_finally
  | |- emits _ (when _ _) => apply emits_when
  | |- emits _ (if ?b then _ else _) => destruct b
  | |- emits _ (match ?x with _ => _ end) => destruct x
  end.

Ltac emits_auto := repeat emits_step.

Lemma load_and_cache_emits (rt : runtime) (model_name : string) :
  emits (λ ev, is_loader_event ev && negb (is_eviction ev))
        (load_and_cache rt model_name).
Proof.
  unfold load_and_cache, load_vibevoice, cache_and_return. emits_auto.
Qed.

(** C4. In a process whose cache started empty and changed only through
    [load_model_pipeline], at most one model is resident before and after
    every call. A call for the resident model returns the cached entry and
    does nothing else: no eviction, no load, the cache unchanged. A call
    for another model first clears the cache and releases the accelerator
    memory, and only then runs the loader, from the empty cache: it ends
    with the new entry alone in the cache and returned, or with a raised
    exception and an empty cache. *)
Theorem single_residency (calls : list (runtime * string)) (rt : runtime)
    (model_name : string) :
  let ms := run_loads calls in
  let r := load_model_pipeline rt model_name ms in
  (size ms ≤ 1)%nat
  ∧ (size (models_after r) ≤ 1)%nat
  ∧ match ms !! model_name with
    | Some obj => r = Run ms [] (Ok obj)
    | None =>
        let fresh := load_and_cache rt model_name ∅ in
        r = Run (models_after fresh)
                ((if bool_decide (ms = ∅) then []
                  else EvClear :: release_events rt) ++ events fresh)
                (result fresh)
        ∧ forallb (λ ev, negb (is_eviction ev)) (events fresh) = true
        ∧ ((∃ obj, result r = Ok obj
                   ∧ models_after r = {[model_name := obj]})
           ∨ (∃ e, result r = Raise e ∧ models_after r = ∅))
    end.
Proof.
  intros ms r. pose proof (run_loads_size calls) as Hms. fold ms in Hms.
  split; [assumption|].
  split; [now apply load_model_pipeline_size|].
  destruct (ms !! model_name) as [obj|] eqn:Hlook.
  - now apply load_model_pipeline_hit.
  - intros fresh. subst r. rewrite (load_model_pipeline_miss _ _ _ Hlook).
    fold fresh. split; [reflexivity|]. split.
    + pose proof (load_and_cache_emits rt model_name ∅) as Hev.
      fold fresh in Hev. eapply forallb_weaken; [|exact Hev].
      intros ev H. now apply andb_prop in H as [_ H].
    + cbn. destruct (load_and_cache_models rt model_name ∅)
        as [(obj & Hr & Hm) | (e & Hr & Hm)]; fold fresh in Hr, Hm.
      * left. exists obj. rewrite Hm, insert_empty. auto.
      * right. exists e. auto.
Qed.

(** Two models asked for in turn on a CUDA host: the second call clears
    the cache and empties the accelerator cache before its loader runs,
    and the second model is alone in the cache afterwards. *)
Example acquire_a_then_b :
  let rt := {| mps_is_available := false; cuda_is_available := true;
               VIBEVOICE_AVAILABLE := false; current_dir := "/srv/app";
               os_path_exists := λ _, true;
               processor_from_pretrained := λ _ _, Ok 1%nat;
               model_from_pretrained := λ _ _ _ _ _, Ok 2%nat;
               model_to := λ _ _, Ok tt; model_eval := λ _, Ok tt;
               pipeline := λ _ path _,
                 Ok (if String.eqb path "local_models/a" then 10 else 11)%nat
            |} in
  let after_a := models_after (load_model_pipeline rt "a" ∅) in
  after_a = {[ "a" := PipelineObj 10%nat ]}
  ∧ load_model_pipeline rt "b" after_a
    = Run {[ "b" := PipelineObj 11%nat ]}
          [EvClear; EvEmptyCache "cuda"; EvPipeline "local_models/b" "cuda"]
          (Ok (PipelineObj 11%nat))
  ∧ load_model_pipeline rt "a" after_a
    = Run after_a [] (Ok (PipelineObj 10%nat)).
Proof. vm_compute. repeat split. Qed.

(** ** The worker task *)

Lemma emits_weaken {A} (P Q : event → bool) (m : M A) :
  (∀ ev, P ev = true → Q ev = true) → emits P m → emits Q m.
Proof. intros HPQ Hm ms. eapply forallb_weaken; [exact HPQ | apply Hm]. Qed.

Lemma load_model_pipeline_emits (rt : runtime) (model_name : string) :
  emits is_loader_event (load_model_pipeline rt model_name).
Proof.
  unfold load_model_pipeline, unload_previous. emits_auto.
  eapply emits_weaken; [|apply load_and_cache_emits].
  intros ev H. now apply andb_prop in H as [H _].
Qed.

Lemma prepare_emits (env : task_env) (model_name : string)
    (speaker : option string) :
  emits is_setup_event (prepare env model_name speaker).
Proof.
  unfold prepare, progress, meta_revoked. emits_auto.
  eapply emits_weaken; [|apply load_model_pipeline_emits].
  intros ev H. now destruct ev.
Qed.

Lemma invalid_speaker_iff (sp : string) :
  invalid_speaker (Some sp) = true ↔ sp ≠ "" ∧ posixpath.basename sp ≠ sp.
Proof.
  unfold invalid_speaker. rewrite andb_true_iff, negb_true_iff.
  rewrite String.eqb_neq. destruct sp; cbn; intuition congruence.
Qed.

Lemma speaker_char_not_slash (c : ascii) :
  speaker_char_ok c = true → Ascii.eqb c slash = false.
Proof.
  destruct c as [[] [] [] [] [] [] [] []]; vm_compute; congruence.
Qed.

Lemma speaker_field_slash_free (sp : string) :
  all_chars speaker_char_ok sp = true → slash_free sp = true.
Proof.
  induction sp as [|c sp IH]; cbn; [reflexivity|].
  intros H. apply andb_prop in H as [Hc Hsp].
  unfold slash_free in *. cbn. now rewrite (speaker_char_not_slash _ Hc), IH.
Qed.

(** A speaker that passed the validation of the request body is its own
    base name: the check of the worker only fires for jobs that were not
    submitted through [GenerateRequest]. *)
Lemma speaker_field_ok_valid (speaker : option string) :
  speaker_field_ok speaker = true → invalid_speaker speaker = false.
Proof.
  destruct speaker as [sp|]; [|reflexivity]. cbn.
  intros H. apply andb_prop in H as [_ H].
  rewrite (basename_slash_free _ (speaker_field_slash_free _ H)).
  now rewrite String.eqb_refl, andb_false_r.
Qed.

Lemma save_audio_no_lookup (env : task_env) (text model_name : string)
    (speaker : option string) (cfg_scale : Q) (inference_steps user_id : Z)
    (audio_data : list Q) (sampling_rate : Z) :
  emits (λ ev, negb (is_voice_lookup ev))
        (save_audio env text model_name speaker cfg_scale inference_steps
                    user_id audio_data sampling_rate).
Proof. unfold save_audio, state_revoked, progress. emits_auto. Qed.

(** With a speaker that is not its own base name, no run of the task
    looks a voice file up, whatever the model and the outside world. *)
Lemma invalid_speaker_no_lookup (env : task_env) (text model_name : string)
    (speaker : option string) (cfg_scale : Q) (inference_steps user_id : Z) :
  invalid_speaker speaker = true →
  emits (λ ev, negb (is_voice_lookup ev))
        (generate_audio_task env text model_name speaker cfg_scale
                             inference_steps user_id).
Proof.
  intros Hinv. unfold generate_audio_task, task_body.
  apply emits_try_except; [|intros e; unfold job_boundary; emits_auto].
  apply emits_bind.
  { eapply emits_weaken; [|apply prepare_emits]. intros ev H. now destruct ev. }
  intros [[m p t|pipe]|]; [| |emits_auto].
  - unfold run_vibevoice. rewrite Hinv. intros ms. reflexivity.
  - apply emits_bind; [emits_auto|intros output]. apply save_audio_no_lookup.
Qed.

(** C3, as the code has it. A speaker that is non-empty and not its own
    base name is never used to look a voice file up. When the model was
    loaded as a vibevoice object and the job reached the dispatch on the
    model type, such a speaker makes the worker raise
    [ValueError("Invalid speaker name: ...")] as the next step: the task
    returns status "error" with that message behind "Generation failed: ",
    and the only calls of the run are those of the preparation (state
    updates, the loader, the read of the task meta) and the printing of
    the traceback: no voice-file lookup, no synthesis, no audio file and
    no [AudioHistory] row. *)
Theorem invalid_speaker_rejected (env : task_env) (text model_name : string)
    (speaker : option string) (cfg_scale : Q) (inference_steps user_id : Z)
    (ms : gmap string loaded_obj) :
  invalid_speaker speaker = true →
  let r := generate_audio_task env text model_name speaker cfg_scale
                               inference_steps user_id ms in
  forallb (λ ev, negb (is_voice_lookup ev)) (events r) = true
  ∧ ∀ model processor subtype,
      result (prepare env model_name speaker ms)
      = Ok (Some (VibeVoiceObj model processor subtype)) →
      result r = Ok (Failed ("Generation failed: Invalid speaker name: "
                             +:+ speaker_str speaker))
      ∧ reported_status r = Some "error"
      ∧ events r = events (prepare env model_name speaker ms) ++ [EvPrintExc]
      ∧ forallb (λ ev, negb (touches_voice_or_artifact ev)) (events r) = true.
Proof.
  intros Hinv r. split; [now apply invalid_speaker_no_lookup|].
  intros model processor subtype Hprep.
  pose proof (prepare_emits env model_name speaker ms) as Hquiet.
  assert (Hr : r = Run (models_after (prepare env model_name speaker ms))
                       (events (prepare env model_name speaker ms)
                        ++ [EvPrintExc])
                       (Ok (Failed ("Generation failed: Invalid speaker name: "
                                    +:+ speaker_str speaker)))).
  { subst r. unfold generate_audio_task, try_except, task_body, bind.
    destruct (prepare env model_name speaker ms) as [ms1 evs1 r1].
    cbn in Hprep. subst r1.
    unfold run_vibevoice, bind. rewrite Hinv. unfold raise, job_boundary.
    cbn. now rewrite app_nil_r. }
  rewrite Hr. unfold reported_status. cbn.
  repeat split.
  rewrite forallb_app. cbn. rewrite andb_true_r.
  eapply forallb_weaken; [|exact Hquiet].
  intros ev Hev. now destruct ev.
Qed.

Lemma invalid_speaker_rejected_witness :
  let r := generate_audio_task
             (demo_env demo_runtime (Some "job-1") (StoreUp ∅) (StoreUp ∅)
                       "STARTED")
             "hello" standard_model (Some "../../etc/passwd") (3 # 2) 5 1 ∅ in
  result r = Ok (Failed
    "Generation failed: Invalid speaker name: ../../etc/passwd")
  ∧ forallb (λ ev, negb (touches_voice_or_artifact ev)) (events r) = true.
Proof.
  pose proof (invalid_speaker_rejected
                (demo_env demo_runtime (Some "job-1") (StoreUp ∅) (StoreUp ∅)
                          "STARTED")
                "hello" standard_model (Some "../../etc/passwd") (3 # 2) 5 1 ∅
                eq_refl) as (_ & H).
  destruct (H 2%nat 1%nat "vibevoice_standard") as (Hres & _ & _ & Hquiet);
    [vm_compute; reflexivity|].
  split; [exact Hres | exact Hquiet].
Defined.

(** A job for the Realtime model with a well-formed speaker: the voice
    file is looked up and loaded, the generation runs with the
    cancellation probe, and the artifact is written. *)
Example streaming_job_completes :
  let r := generate_audio_task
             (demo_env demo_runtime (Some "job-1") (StoreUp ∅) (StoreUp ∅)
                       "STARTED")
             " hello " realtime_model (Some "en-Alice") (3 # 2) 0 1 ∅ in
  reported_status r = Some "completed"
  ∧ filter (λ ev, is_voice_lookup ev = true ∨ is_synthesis ev = true)
           (events r)
    = [EvPathExists
         "/srv/app/VibeVoice1.5/demo/voices/streaming_model/en-Alice.pt";
       EvTorchLoad
         "/srv/app/VibeVoice1.5/demo/voices/streaming_model/en-Alice.pt";
       EvProcessInput "hello"; EvSetSteps 5; EvGenerate true].
Proof. vm_compute. split; reflexivity. Qed.

(** C3, as the claim has it, fails: a model that loads as a pipeline
    never has its speaker looked at. The job below carries the speaker
    ["../../etc/passwd"], which is not its own base name, and completes:
    the audio file is written and the row is added, with that speaker. *)
Lemma invalid_speaker_counterexample :
  posixpath.basename "../../etc/passwd" ≠ "../../etc/passwd"
  ∧ reported_status
      (generate_audio_task
         (demo_env demo_runtime (Some "job-1") (StoreUp ∅) (StoreUp ∅)
                   "STARTED")
         "hello" "demo/model" (Some "../../etc/passwd") (3 # 2) 5 1 ∅)
    = Some "completed"
  ∧ existsb is_artifact_write
      (events
         (generate_audio_task
            (demo_env demo_runtime (Some "job-1") (StoreUp ∅) (StoreUp ∅)
                      "STARTED")
            "hello" "demo/model" (Some "../../etc/passwd") (3 # 2) 5 1 ∅))
    = true.
Proof. vm_compute. repeat split. discriminate. Qed.

(** *** Cancelled runs write nothing *)

Lemma never_cancelled_clean (m : M payload) : never_cancelled m → cancel_clean m.
Proof. intros H ms Hc. now rewrite H in Hc. Qed.

Lemma never_cancelled_raise (e : exc) : never_cancelled (raise e).
Proof. intros ms. reflexivity. Qed.

Lemma never_cancelled_bind {A} (m : M A) (k : A → M payload) :
  (∀ a, never_cancelled (k a)) → never_cancelled (bind m k).
Proof.
  intros Hk ms. unfold bind. destruct (m ms) as [ms1 evs1 [a|e]]; [|reflexivity].
  specialize (Hk a ms1). now destruct (k a ms1).
Qed.

Lemma never_cancelled_try_finally (m : M payload) (f : M unit) :
  never_cancelled m → never_cancelled (try_finally m f).
Proof.
  intros Hm ms. unfold try_finally. specialize (Hm ms).
  destruct (m ms) as [ms1 evs1 r]. now destruct (f ms1) as [ms2 evs2 [[]|e]].
Qed.

Lemma cancel_clean_ret (p : payload) : cancel_clean (ret p).
Proof. intros ms _. reflexivity. Qed.

Lemma cancel_clean_bind {A} (m : M A) (k : A → M payload) :
  emits (λ ev, negb (is_artifact_write ev)) m →
  (∀ a, cancel_clean (k a)) → cancel_clean (bind m k).
Proof.
  intros Hm Hk ms. unfold bind. specialize (Hm ms).
  destruct (m ms) as [ms1 evs1 [a|e]]; cbn in *; [|discriminate].
  specialize (Hk a ms1). destruct (k a ms1) as [ms2 evs2 r]; cbn in *.
  intros Hc. rewrite forallb_app, Hm. now apply Hk.
Qed.

Lemma cancel_clean_try_except (m : M payload) (handler : exc → M payload) :
  cancel_clean m → (∀ e, never_cancelled (handler e)) →
  cancel_clean (try_except m handler).
Proof.
  intros Hm Hh ms. unfold try_except. specialize (Hm ms).
  destruct (m ms) as [ms1 evs1 [p|e]]; cbn in *; [assumption|].
  specialize (Hh e ms1). destruct (handler e ms1) as [ms2 evs2 r]; cbn in *.
  intros Hc. now rewrite Hh in Hc.
Qed.

Lemma save_audio_clean (env : task_env) (text model_name : string)
    (speaker : option string) (cfg_scale : Q) (inference_steps user_id : Z)
    (audio_data : list Q) (sampling_rate : Z) :
  cancel_clean (save_audio env text model_name speaker cfg_scale
                           inference_steps user_id audio_data sampling_rate).
Proof.
  unfold save_audio. apply cancel_clean_bind.
  { unfold state_revoked. emits_auto. }
  intros [|]; [apply cancel_clean_ret|].
  apply never_cancelled_clean.
  repeat (apply never_cancelled_bind; intros ?).
  apply never_cancelled_try_finally.
  repeat (apply never_cancelled_bind; intros ?).
  intros ms. reflexivity.
Qed.

Lemma synthesize_emits (env : task_env) (text model_name : string)
    (speaker : option string) (cfg_scale : Q) (inference_steps : Z) :
  emits (λ ev, negb (is_artifact_write ev))
        (synthesize env text model_name speaker cfg_scale inference_steps).
Proof.
  unfold synthesize, synthesize_streaming, synthesize_standard. emits_auto.
Qed.

Lemma run_vibevoice_clean (env : task_env) (text model_name : string)
    (speaker : option string) (cfg_scale : Q) (inference_steps user_id : Z) :
  cancel_clean (run_vibevoice env text model_name speaker cfg_scale
                              inference_steps user_id).
Proof.
  unfold run_vibevoice.
  apply cancel_clean_bind; [emits_auto|intros _].
  apply cancel_clean_bind; [apply synthesize_emits|intros outputs].
  apply cancel_clean_bind; [emits_auto|intros [|]].
  - apply cancel_clean_ret.
  - destruct outputs as [|[audio|] ?].
    + apply never_cancelled_clean, never_cancelled_raise.
    + apply save_audio_clean.
    + apply never_cancelled_clean, never_cancelled_raise.
Qed.

Lemma task_body_clean (env : task_env) (text model_name : string)
    (speaker : option string) (cfg_scale : Q) (inference_steps user_id : Z) :
  cancel_clean (task_body env text model_name speaker cfg_scale
                          inference_steps user_id).
Proof.
  unfold task_body. apply cancel_clean_bind.
  { eapply emits_weaken; [|apply prepare_emits]. intros ev H. now destruct ev. }
  intros [[m p t|pipe]|].
  - apply run_vibevoice_clean.
  - apply cancel_clean_bind; [emits_auto|intros output]. apply save_audio_clean.
  - apply cancel_clean_ret.
Qed.

Lemma job_boundary_never_cancelled (e : exc) : never_cancelled (job_boundary e).
Proof. intros ms. unfold job_boundary. now destruct (is_soft_time_limit e). Qed.

Lemma cancelled_writes_nothing (env : task_env) (text model_name : string)
    (speaker : option string) (cfg_scale : Q) (inference_steps user_id : Z) :
  cancel_clean (generate_audio_task env text model_name speaker cfg_scale
                                    inference_steps user_id).
Proof.
  unfold generate_audio_task.
  apply cancel_clean_try_except;
    [apply task_body_clean | apply job_boundary_never_cancelled].
Qed.

(** *** The three cancellation checks *)

Lemma contains_nonempty (needle hay : string) :
  truthy needle = true → contains needle hay = true → truthy hay = true.
Proof. destruct needle; [discriminate|]. now destruct hay. Qed.

Lemma meta_revoked_fires (env : task_env) (id meta : string)
    (kv : gmap string string) (ms : gmap string loaded_obj) :
  request_id env = Some id → truthy id = true →
  store_before env = StoreUp kv →
  kv !! meta_key id = Some meta →
  contains "REVOKED" meta = true →
  meta_revoked env ms
  = Run ms [EvBackendGet (meta_key id); EvBackendGet (meta_key id)] (Ok true).
Proof.
  intros Hid Ht Hst Hkv Hrev. unfold meta_revoked, id_truthy, id_str.
  rewrite Hid, Ht. unfold bind, call, backend_get. rewrite Hst, Hkv.
  pose proof (contains_nonempty "REVOKED" meta eq_refl Hrev) as Hne.
  destruct meta as [|c meta]; [discriminate|].
  unfold ret. now rewrite Hrev.
Qed.

Lemma prepare_revoked (env : task_env) (model_name id meta : string)
    (speaker : option string) (kv : gmap string string)
    (ms : gmap string loaded_obj) (obj : loaded_obj) :
  request_id env = Some id → truthy id = true →
  update_state env "Loading model..." = Ok tt →
  result (load_model_pipeline (loader env) model_name ms) = Ok obj →
  update_state env ("Configuring voice: " +:+ speaker_str speaker +:+ "...")
  = Ok tt →
  store_before env = StoreUp kv →
  kv !! meta_key id = Some meta →
  contains "REVOKED" meta = true →
  result (prepare env model_name speaker ms) = Ok None.
Proof.
  intros Hid Ht Hu1 Hload Hu2 Hst Hkv Hrev.
  unfold prepare, progress, bind, call. rewrite Hu1.
  destruct (load_model_pipeline (loader env) model_name ms) as [ms1 evs1 r1].
  cbn in Hload. subst r1. rewrite Hu2.
  now rewrite (meta_revoked_fires env id meta kv ms1 Hid Ht Hst Hkv Hrev).
Qed.

Lemma task_after_revocation (env : task_env) (text model_name : string)
    (speaker : option string) (cfg_scale : Q) (inference_steps user_id : Z)
    (ms : gmap string loaded_obj) :
  result (prepare env model_name speaker ms) = Ok None →
  generate_audio_task env text model_name speaker cfg_scale inference_steps
                      user_id ms
  = Run (models_after (prepare env model_name speaker ms))
        (events (prepare env model_name speaker ms))
        (Ok (Cancelled "Task was cancelled")).
Proof.
  intros Hprep. unfold generate_audio_task, try_except, task_body, bind.
  destruct (prepare env model_name speaker ms) as [ms1 evs1 r1].
  cbn in Hprep. subst r1. cbn. now rewrite app_nil_r.
Qed.

Lemma task_after_marker (env : task_env) (text model_name id : string)
    (speaker : option string) (cfg_scale : Q) (inference_steps user_id : Z)
    (ms : gmap string loaded_obj) (kv : gmap string string)
    (model processor : handle) (subtype : string) (outputs : speech_outputs) :
  request_id env = Some id → truthy id = true →
  result (prepare env model_name speaker ms)
  = Ok (Some (VibeVoiceObj model processor subtype)) →
  invalid_speaker speaker = false →
  result (synthesize env text model_name speaker cfg_scale inference_steps
                     (models_after (prepare env model_name speaker ms)))
  = Ok outputs →
  store_after env = StoreUp kv →
  is_Some (kv !! cancel_key id) →
  result (generate_audio_task env text model_name speaker cfg_scale
                              inference_steps user_id ms)
  = Ok (Cancelled "Task was cancelled during generation").
Proof.
  intros Hid Ht Hprep Hvalid Hsyn Hst Hkv.
  unfold generate_audio_task, try_except, task_body, bind.
  destruct (prepare env model_name speaker ms) as [ms1 evs1 r1].
  cbn in Hprep, Hsyn. subst r1.
  unfold run_vibevoice, bind. rewrite Hvalid. unfold ret at 1.
  destruct (synthesize env text model_name speaker cfg_scale inference_steps
                       ms1) as [ms2 evs2 r2].
  cbn in Hsyn. subst r2.
  unfold id_truthy, id_str. rewrite Hid, Ht.
  unfold call, client_exists. rewrite Hst.
  now rewrite bool_decide_eq_true_2 by assumption.
Qed.

Lemma save_audio_revoked (env : task_env) (text model_name id : string)
    (speaker : option string) (cfg_scale : Q) (inference_steps user_id : Z)
    (audio_data : list Q) (sampling_rate : Z) (ms : gmap string loaded_obj) :
  request_id env = Some id → truthy id = true →
  async_result_state env = Ok "REVOKED" →
  save_audio env text model_name speaker cfg_scale inference_steps user_id
             audio_data sampling_rate ms
  = Run ms [EvAsyncState id] (Ok (Cancelled "Task was cancelled")).
Proof.
  intros Hid Ht Hstate.
  unfold save_audio, state_revoked, id_truthy, id_str. rewrite Hid, Ht.
  unfold bind, try_except, call. rewrite Hstate. reflexivity.
Qed.

(** C5, as the code has it. For a job with a task id the worker has three
    cancellation checks, none of them at both ends of the synthesis for
    the same signal. (1) Before synthesis it reads the job's record
    [celery-task-meta-<id>] of the result backend, not the marker
    [task_cancelled:<id>], and returns "cancelled" without any voice
    lookup or synthesis when that record contains REVOKED. (2) For a
    vibevoice model, right after the generation has returned it asks the
    store for the marker [task_cancelled:<id>] and, when it is there,
    drops the output and returns "cancelled". (3) Before saving, for
    every model, it returns "cancelled" when the state of the job's
    [AsyncResult] is REVOKED. (4) Whenever the task returns "cancelled",
    it has written no audio file and has not used the database. *)
Theorem cancellation_checkpoints (env : task_env) (text model_name : string)
    (speaker : option string) (cfg_scale : Q) (inference_steps user_id : Z)
    (ms : gmap string loaded_obj) (id : string) :
  request_id env = Some id →
  truthy id = true →
  let r := generate_audio_task env text model_name speaker cfg_scale
                               inference_steps user_id ms in
  (∀ kv meta obj,
     update_state env "Loading model..." = Ok tt →
     result (load_model_pipeline (loader env) model_name ms) = Ok obj →
     update_state env ("Configuring voice: " +:+ speaker_str speaker +:+ "...")
     = Ok tt →
     store_before env = StoreUp kv →
     kv !! meta_key id = Some meta →
     contains "REVOKED" meta = true →
     result r = Ok (Cancelled "Task was cancelled")
     ∧ forallb (λ ev, negb (touches_voice_or_artifact ev)) (events r) = true)
  ∧ (∀ kv model processor subtype outputs,
       result (prepare env model_name speaker ms)
       = Ok (Some (VibeVoiceObj model processor subtype)) →
       invalid_speaker speaker = false →
       result (synthesize env text model_name speaker cfg_scale
                 inference_steps
                 (models_after (prepare env model_name speaker ms)))
       = Ok outputs →
       store_after env = StoreUp kv →
       is_Some (kv !! cancel_key id) →
       result r = Ok (Cancelled "Task was cancelled during generation"))
  ∧ (∀ audio_data sampling_rate ms',
       async_result_state env = Ok "REVOKED" →
       save_audio env text model_name speaker cfg_scale inference_steps
                  user_id audio_data sampling_rate ms'
       = Run ms' [EvAsyncState id] (Ok (Cancelled "Task was cancelled")))
  ∧ (∀ message,
       result r = Ok (Cancelled message) →
       forallb (λ ev, negb (is_artifact_write ev)) (events r) = true).
Proof.
  intros Hid Ht r. repeat split.
  - subst r. rewrite task_after_revocation
      by (eapply prepare_revoked; eassumption).
    reflexivity.
  - subst r. rewrite task_after_revocation
      by (eapply prepare_revoked; eassumption).
    cbn. eapply forallb_weaken; [|apply prepare_emits].
    intros ev Hev. now destruct ev.
  - intros. subst r. eapply task_after_marker; eassumption.
  - intros. now apply save_audio_revoked.
  - intros message Hres. apply cancelled_writes_nothing.
    fold r. now rewrite Hres.
Qed.

Lemma cancellation_checkpoints_witness :
  result (generate_audio_task
            (demo_env demo_runtime (Some "job-1") revoked_store (StoreUp ∅)
                      "STARTED")
            "hello" standard_model (Some "en-Alice") (3 # 2) 5 1 ∅)
  = Ok (Cancelled "Task was cancelled")
  ∧ result (generate_audio_task
              (demo_env demo_runtime (Some "job-1") (StoreUp ∅) marked_store
                        "STARTED")
              "hello" standard_model (Some "en-Alice") (3 # 2) 5 1 ∅)
    = Ok (Cancelled "Task was cancelled during generation").
Proof.
  split.
  - pose proof (cancellation_checkpoints
        (demo_env demo_runtime (Some "job-1") revoked_store (StoreUp ∅)
                  "STARTED")
        "hello" standard_model (Some "en-Alice") (3 # 2) 5 1 ∅ "job-1"
        eq_refl eq_refl) as (H & _).
    eapply H; [reflexivity | vm_compute; reflexivity | reflexivity
              | reflexivity | vm_compute; reflexivity | vm_compute; reflexivity].
  - pose proof (cancellation_checkpoints
        (demo_env demo_runtime (Some "job-1") (StoreUp ∅) marked_store
                  "STARTED")
        "hello" standard_model (Some "en-Alice") (3 # 2) 5 1 ∅ "job-1"
        eq_refl eq_refl) as (_ & H & _).
    eapply H; [vm_compute; reflexivity | vm_compute; reflexivity
              | vm_compute; reflexivity | reflexivity
              | vm_compute; eexists; reflexivity].
Defined.

(** C5, as the claim has it, fails: the marker [task_cancelled:job-1] is
    in the store before the synthesis and after it, and the job, whose
    model loads as a pipeline, completes, writes its audio file and adds
    its row. *)
Lemma cancellation_counterexample :
  client_exists marked_store (cancel_key "job-1") = Ok true
  ∧ reported_status
      (generate_audio_task
         (demo_env demo_runtime (Some "job-1") marked_store marked_store
                   "STARTED")
         "hello" "demo/model" None (3 # 2) 5 1 ∅)
    = Some "completed"
  ∧ existsb is_artifact_write
      (events
         (generate_audio_task
            (demo_env demo_runtime (Some "job-1") marked_store marked_store
                      "STARTED")
            "hello" "demo/model" None (3 # 2) 5 1 ∅))
    = true.
Proof. vm_compute. repeat split. Qed.

(** A pipeline job whose state is REVOKED when the audio is about to be
    saved: it is cancelled there, after the synthesis. *)
Example revoked_state_cancels_pipeline_job :
  let r := generate_audio_task
             (demo_env demo_runtime (Some "job-1") (StoreUp ∅) (StoreUp ∅)
                       "REVOKED")
             "hello" "demo/model" None (3 # 2) 5 1 ∅ in
  result r = Ok (Cancelled "Task was cancelled")
  ∧ filter (λ ev, is_synthesis ev = true ∨ is_artifact_write ev = true)
           (events r)
    = [EvPipeCall "hello"].
Proof. vm_compute. split; reflexivity. Qed.

(** With a vibevoice model the marker is overlooked before the synthesis
    too: the generation runs, and only the check after it cancels. *)
Example marker_not_read_before_synthesis :
  let r := generate_audio_task
             (demo_env demo_runtime (Some "job-1") marked_store marked_store
                       "STARTED")
             "hello" standard_model (Some "en-Alice") (3 # 2) 5 1 ∅ in
  existsb (λ ev, match ev with EvGenerate _ => true | _ => false end)
          (events r) = true
  ∧ result r = Ok (Cancelled "Task was cancelled during generation").
Proof. vm_compute. split; reflexivity. Qed.

(** ** PCM conversion *)

Lemma fold_max_ge (l : list Q) (acc : Q) : (acc <= fold_left Qmax l acc)%Q.
Proof.
  revert acc. induction l as [|y l IH]; intros acc; cbn.
  - apply Qle_refl.
  - eapply Qle_trans; [apply Q.le_max_l | apply IH].
Qed.

Lemma fold_max_bound (l : list Q) (acc y : Q) :
  In y l → (y <= fold_left Qmax l acc)%Q.
Proof.
  revert acc. induction l as [|z l IH]; intros acc; cbn; [tauto|].
  intros [->|Hy]; [|now apply IH].
  eapply Qle_trans; [apply Q.le_max_r | apply fold_max_ge].
Qed.


Lemma Qabs_zero_iff (x : Q) : (Qabs x == 0)%Q ↔ (x == 0)%Q.
Proof.
  split; intros H.
  - apply Qle_antisym.
    + rewrite <- H. apply Qle_Qabs.
    + assert (Hneg : (- x <= Qabs x)%Q)
        by (rewrite <- Qabs_opp; apply Qle_Qabs).
      rewrite H in Hneg. apply Qopp_le_compat in Hneg.
      now rewrite Qopp_involutive in Hneg.
  - rewrite H. reflexivity.
Qed.

Lemma peak_bounds (x : Q) (rest : list Q) (y : Q) :
  In y (x :: rest) →
  (Qabs y <= fold_left Qmax (map Qabs rest) (Qabs x))%Q.
Proof.
  intros [->|Hy]; [apply fold_max_ge|].
  apply fold_max_bound. now apply in_map.
Qed.



Lemma wrap_int16_small (v : Z) : -32768 <= v <= 32767 → wrap_int16 v = v.
Proof. intros Hv. unfold wrap_int16. rewrite Z.mod_small; lia. Qed.

Lemma astype_int16_zero (x : Q) : (x == 0)%Q → astype_int16 (x * 32767) = 0.
Proof.
  intros Hx. unfold Qeq in Hx. cbn in Hx.
  assert (Hn : Qnum x = 0) by lia.
  unfold astype_int16. cbn. rewrite Hn. reflexivity.
Qed.

Lemma astype_int16_range (q : Q) :
  (- (32767) <= q)%Q → (q <= 32767)%Q →
  -32767 <= astype_int16 q <= 32767.
Proof.
  intros Hlo Hhi. unfold Qle in Hlo, Hhi. cbn in Hlo, Hhi.
  unfold astype_int16.
  assert (Hq : -32767 <= Z.quot (Qnum q) (Zpos (Qden q)) <= 32767).
  { split.
    - rewrite <- (Z.quot_mul (-32767) (Zpos (Qden q))) by lia.
      apply Z.quot_le_mono; lia.
    - rewrite <- (Z.quot_mul 32767 (Zpos (Qden q))) by lia.
      apply Z.quot_le_mono; lia. }
  rewrite wrap_int16_small; lia.
Qed.

Lemma scaled_range (x peak : Q) :
  (0 < peak)%Q → (Qabs x <= peak)%Q →
  -32767 <= astype_int16 (x / peak * 32767) <= 32767.
Proof.
  intros Hp Hx. apply Qabs_Qle_condition in Hx as [Hlo Hhi].
  assert (Hlo' : (- (1) <= x / peak)%Q).
  { apply Qle_shift_div_l; [assumption|].
    eapply Qle_trans; [|exact Hlo]. unfold Qle. cbn. lia. }
  assert (Hhi' : (x / peak <= 1)%Q).
  { apply Qle_shift_div_r; [assumption|].
    eapply Qle_trans; [exact Hhi|]. unfold Qle. cbn. lia. }
  apply astype_int16_range.
  - apply Qle_trans with (- (1) * 32767)%Q; [discriminate|].
    apply Qmult_le_compat_r; [assumption | discriminate].
  - apply Qle_trans with (1 * 32767)%Q; [|discriminate].
    apply Qmult_le_compat_r; [assumption | discriminate].
Qed.

Lemma to_pcm16_cons (x : Q) (rest : list Q) :
  let a := x :: rest in
  let peak := fold_left Qmax (map Qabs rest) (Qabs x) in
  to_pcm16 a
  = if Qlt_le_dec 0 peak then
      Ok (map (λ y, astype_int16 (y / peak * 32767)%Q) a)
    else Ok (map (λ y, astype_int16 (y * 32767)%Q) a).
Proof.
  intros a peak. unfold to_pcm16. cbn [np_max_abs a]. fold peak.
  destruct (Qlt_le_dec 0 peak) as [Hpos|Hle]; [|reflexivity].
  unfold np_divide.
  destruct (Qeq_bool peak 0) eqn:Hz.
  - apply Qeq_bool_eq in Hz. rewrite Hz in Hpos. now apply Qlt_irrefl in Hpos.
  - now rewrite map_map.
Qed.





(** ** The job boundary *)

(** The task always returns a payload: nothing is raised past it. *)
Lemma generate_audio_task_returns (env : task_env) (text model_name : string)
    (speaker : option string) (cfg_scale : Q) (inference_steps user_id : Z)
    (ms : gmap string loaded_obj) :
  ∃ p, result (generate_audio_task env text model_name speaker cfg_scale
                                   inference_steps user_id ms) = Ok p.
Proof.
  unfold generate_audio_task, try_except.
  destruct (task_body env text model_name speaker cfg_scale inference_steps
                      user_id ms) as [ms1 evs1 [p|e]]; [now exists p|].
  unfold job_boundary. destruct (is_soft_time_limit e); cbn; eauto.
Qed.

(** An exception that leaves the body is answered by its translation:
    "timeout" for the soft time limit, "error" with [str(e)] otherwise. *)
Lemma job_boundary_translates (env : task_env) (text model_name : string)
    (speaker : option string) (cfg_scale : Q) (inference_steps user_id : Z)
    (ms : gmap string loaded_obj) (e : exc) :
  result (task_body env text model_name speaker cfg_scale inference_steps
                    user_id ms) = Raise e →
  result (generate_audio_task env text model_name speaker cfg_scale
                              inference_steps user_id ms)
  = Ok (translated e).
Proof.
  intros Hbody. unfold generate_audio_task, try_except.
  destruct (task_body env text model_name speaker cfg_scale inference_steps
                      user_id ms) as [ms1 evs1 r1].
  cbn in Hbody. subst r1. unfold job_boundary, translated.
  now destruct (is_soft_time_limit e).
Qed.

(** What [load_model_pipeline] raises reaches the boundary. *)
Lemma load_failure_reaches_boundary (env : task_env) (text model_name : string)
    (speaker : option string) (cfg_scale : Q) (inference_steps user_id : Z)
    (ms : gmap string loaded_obj) (e : exc) :
  update_state env "Loading model..." = Ok tt →
  result (load_model_pipeline (loader env) model_name ms) = Raise e →
  result (generate_audio_task env text model_name speaker cfg_scale
                              inference_steps user_id ms)
  = Ok (translated e).
Proof.
  intros Hu Hload. apply job_boundary_translates.
  unfold task_body, prepare, progress, bind, call. rewrite Hu.
  destruct (load_model_pipeline (loader env) model_name ms) as [ms1 evs1 r1].
  cbn in Hload. now subst r1.
Qed.

(** What the voice lookup or the generation raises reaches the boundary. *)
Lemma synthesis_failure_reaches_boundary (env : task_env)
    (text model_name : string) (speaker : option string) (cfg_scale : Q)
    (inference_steps user_id : Z) (ms : gmap string loaded_obj)
    (model processor : handle) (subtype : string) (e : exc) :
  result (prepare env model_name speaker ms)
  = Ok (Some (VibeVoiceObj model processor subtype)) →
  invalid_speaker speaker = false →
  result (synthesize env text model_name speaker cfg_scale inference_steps
                     (models_after (prepare env model_name speaker ms)))
  = Raise e →
  result (generate_audio_task env text model_name speaker cfg_scale
                              inference_steps user_id ms)
  = Ok (translated e).
Proof.
  intros Hprep Hvalid Hsyn. apply job_boundary_translates.
  unfold task_body, bind.
  destruct (prepare env model_name speaker ms) as [ms1 evs1 r1].
  cbn in Hprep, Hsyn. subst r1.
  unfold run_vibevoice, bind. rewrite Hvalid. unfold ret at 1.
  destruct (synthesize env text model_name speaker cfg_scale inference_steps
                       ms1) as [ms2 evs2 r2].
  cbn in Hsyn. now subst r2.
Qed.

(** The handlers inside the loader come first. Whatever the custom
    VibeVoice loader raises, the soft time limit included, leaves
    [load_model_pipeline] as a plain [Exception]. *)
Lemma vibevoice_load_error_class (rt : runtime) (model_name : string)
    (ms : gmap string loaded_obj) (e : exc) :
  contains "VibeVoice" model_name && VIBEVOICE_AVAILABLE rt = true →
  result (load_and_cache rt model_name ms) = Raise e →
  exc_cls e = PlainException.
Proof.
  intros Hvv. unfold load_and_cache. rewrite Hvv. unfold try_except.
  destruct (load_vibevoice _ _ _ _ ms) as [ms1 evs1 [obj|e1]]; cbn;
    [discriminate|].
  now intros [= <-].
Qed.

(** C7, where the code departs from it. The soft time limit is raised
    while [from_pretrained] loads a VibeVoice model. The handlers of
    [load_model_pipeline] catch it as an [Exception] and raise a plain
    one, so the task reports "error", not "timeout". *)
Theorem soft_time_limit_during_load :
  model_from_pretrained slow_runtime false
    (resolve_model_path slow_runtime standard_model) "float32" (Some "cpu")
    "sdpa"
  = Raise (Exc SoftTimeLimitExceeded "SoftTimeLimitExceeded()")
  ∧ result (generate_audio_task
              (demo_env slow_runtime (Some "job-1") (StoreUp ∅) (StoreUp ∅)
                        "STARTED")
              "hello" standard_model (Some "en-Alice") (3 # 2) 5 1 ∅)
    = Ok (Failed
        "Generation failed: Failed to load VibeVoice model: SoftTimeLimitExceeded()").
Proof. vm_compute. split; reflexivity. Qed.

(** The cancellation probe drops whatever its look at the store raises,
    and answers that the job goes on. *)
Example probe_drops_exceptions :
  stop_check_fn (Some "job-1")
    (StoreDown (Exc SoftTimeLimitExceeded "SoftTimeLimitExceeded()"))
  = false.
Proof. reflexivity. Qed.

(** The same exception raised by the generation reaches the handler of
    the task and is reported as "timeout". *)
Example soft_time_limit_during_generation :
  let env := demo_env demo_runtime (Some "job-1") (StoreUp ∅) (StoreUp ∅)
                      "STARTED" in
  result (generate_audio_task
            {| request_id := request_id env; loader := loader env;
               module_dir := module_dir env; update_state := update_state env;
               store_before := store_before env;
               store_after := store_after env;
               voice_exists := voice_exists env; listdir := listdir env;
               torch_load := torch_load env;
               process_input_with_cached_prompt :=
                 process_input_with_cached_prompt env;
               processor_call := processor_call env;
               set_ddpm_inference_steps := set_ddpm_inference_steps env;
               generate_streaming := generate_streaming env;
               generate_standard := λ _ _ _,
                 Raise (Exc SoftTimeLimitExceeded "SoftTimeLimitExceeded()");
               pipe_call := pipe_call env;
               async_result_state := async_result_state env;
               uuid4 := uuid4 env; wavfile_write := wavfile_write env;
               session_local := session_local env; db_commit := db_commit env;
               db_refresh := db_refresh env; db_close := db_close env;
               utcnow_isoformat := utcnow_isoformat env |}
            "hello" standard_model (Some "en-Alice") (3 # 2) 5 1 ∅)
  = Ok (TimedOut "Task exceeded time limit").
Proof. vm_compute. reflexivity. Qed.

(** ** Cancellation and status endpoints *)

(** C8. For a job whose state is none of SUCCESS, FAILURE and REVOKED,
    [cancel_task] asks for the termination of that job (revoke with
    [terminate=True] and SIGTERM), answers "cancelled", and writes the
    marker [task_cancelled:<id>] with a time to live of 3600 seconds,
    which the check of the worker then finds; when the store refuses the
    write, the error is dropped and the termination is requested all the
    same. For a job in one of the three states it changes nothing, neither
    marker nor revocation, and answers with that state. *)
Theorem cancel_task_semantics (metas : gmap string task_meta)
    (setex_error : option exc) (task_id : string) (s : shared) :
  let state := async_state metas task_id in
  let out := cancel_task metas setex_error task_id s in
  if bool_decide (state ∈ terminal_states) then
    out.1 = s
    ∧ out.2 = {| c_task_id := task_id; c_status := state;
                 c_message := "Task is in " +:+ state
                              +:+ " state and cannot be cancelled" |}
  else
    sh_revoked out.1
    = sh_revoked s ++ [{| rv_task_id := task_id; rv_terminate := true;
                          rv_signal := "SIGTERM" |}]
    ∧ out.2 = {| c_task_id := task_id; c_status := "cancelled";
                 c_message := "Task cancellation requested" |}
    ∧ match setex_error with
      | None =>
          kv (sh_redis out.1) !! cancel_key task_id = Some "1"
          ∧ ttl (sh_redis out.1) !! cancel_key task_id = Some 3600
          ∧ client_exists (StoreUp (kv (sh_redis out.1))) (cancel_key task_id)
            = Ok true
      | Some _ => sh_redis out.1 = sh_redis s
      end.
Proof.
  intros state out. subst out. unfold cancel_task. fold state.
  unfold terminal_states.
  destruct (bool_decide (state ∈ ["SUCCESS"; "FAILURE"; "REVOKED"])); cbn.
  - split; reflexivity.
  - split; [reflexivity|]. split; [reflexivity|].
    destruct setex_error as [e|]; cbn; [reflexivity|].
    rewrite !lookup_insert_eq.
    rewrite bool_decide_eq_true_2 by eauto. repeat split.
Qed.

Example cancel_running_job :
  cancel_task
    {[ "job-1" := {| meta_state := "PROGRESS"; meta_info := InfoOther;
                     meta_info_str := "" |} ]}
    None "job-1" empty_shared
  = ({| sh_redis := {| kv := {[ "task_cancelled:job-1" := "1" ]};
                       ttl := {[ "task_cancelled:job-1" := 3600 ]} |};
        sh_revoked := [{| rv_task_id := "job-1"; rv_terminate := true;
                          rv_signal := "SIGTERM" |}] |},
     {| c_task_id := "job-1"; c_status := "cancelled";
        c_message := "Task cancellation requested" |}).
Proof. reflexivity. Qed.

Example cancel_finished_job :
  cancel_task
    {[ "job-1" := {| meta_state := "SUCCESS"; meta_info := InfoOther;
                     meta_info_str := "" |} ]}
    None "job-1" empty_shared
  = (empty_shared,
     {| c_task_id := "job-1"; c_status := "SUCCESS";
        c_message := "Task is in SUCCESS state and cannot be cancelled" |}).
Proof. reflexivity. Qed.

(** C9, as the code has it. For a job id without a record in the result
    backend, the status endpoint answers like for a job that waits in the
    queue: state PENDING, status "Task is waiting to start...". *)
Theorem unknown_id_is_pending (now : Z) (metas : gmap string task_meta)
    (task_id : string) :
  metas !! task_id = None →
  get_task_status now metas task_id
  = Ok {| st_task_id := task_id; st_state := "PENDING";
          st_body := StatusText "Task is waiting to start..." |}.
Proof.
  intros Hnone. unfold get_task_status, async_state. now rewrite Hnone.
Qed.

Lemma unknown_id_is_pending_witness :
  get_task_status 1700000000000000 ∅ "never-issued"
  = Ok {| st_task_id := "never-issued"; st_state := "PENDING";
          st_body := StatusText "Task is waiting to start..." |}.
Proof. apply unknown_id_is_pending. reflexivity. Defined.

(** C9, as the claim has it, fails: the answer for an id that was never
    issued is not a not-found status. *)
Lemma unknown_id_counterexample :
  (∅ : gmap string task_meta) !! "never-issued" = None
  ∧ is_not_found (get_task_status 1700000000000000 ∅ "never-issued") = false
  ∧ get_task_status 1700000000000000 ∅ "never-issued"
    = Ok {| st_task_id := "never-issued"; st_state := "PENDING";
            st_body := StatusText "Task is waiting to start..." |}.
Proof. repeat split. Qed.

(** The answer does not tell an unknown id from a queued job. *)
Lemma unknown_id_like_queued (now : Z) (metas : gmap string task_meta)
    (task_id : string) (info : info_value) (info_str : string) :
  metas !! task_id = None →
  get_task_status now metas task_id
  = get_task_status now
      (<[task_id := {| meta_state := "PENDING"; meta_info := info;
                       meta_info_str := info_str |}]> metas)
      task_id.
Proof.
  intros Hnone. unfold get_task_status, async_state.
  now rewrite Hnone, lookup_insert_eq.
Qed.

(** * Further properties of the source *)

(** ** The loader of [load_model_pipeline] *)

Lemma run_eta {A} (r : run A) :
  Run (models_after r) (events r) (result r) = r.
Proof. now destruct r. Qed.

Lemma load_model_pipeline_empty (rt : runtime) (model_name : string) :
  load_model_pipeline rt model_name ∅ = load_and_cache rt model_name ∅.
Proof.
  rewrite load_model_pipeline_miss by apply lookup_empty.
  rewrite bool_decide_eq_true_2 by reflexivity. apply run_eta.
Qed.

(** X1. A call of [load_model_pipeline] that raises leaves the cache
    empty: the model that was resident before is gone as well, and the
    next call, for whatever model, runs the loader from scratch. *)
Theorem failed_load_leaves_cache_empty (rt : runtime) (model_name : string)
    (ms : gmap string loaded_obj) (e : exc) :
  result (load_model_pipeline rt model_name ms) = Raise e →
  models_after (load_model_pipeline rt model_name ms) = ∅
  ∧ ∀ rt' model_name',
      load_model_pipeline rt' model_name'
        (models_after (load_model_pipeline rt model_name ms))
      = load_and_cache rt' model_name' ∅.
Proof.
  intros Hraise.
  assert (Hempty : models_after (load_model_pipeline rt model_name ms) = ∅).
  { destruct (ms !! model_name) as [obj|] eqn:Hlook.
    - rewrite (load_model_pipeline_hit _ _ _ _ Hlook) in Hraise. discriminate.
    - rewrite (load_model_pipeline_miss _ _ _ Hlook) in Hraise |- *.
      cbn in *.
      destruct (load_and_cache_models rt model_name ∅)
        as [(obj & Hr & _) | (e' & _ & Hm)]; [congruence | exact Hm]. }
  split; [exact Hempty|].
  intros rt' model_name'. rewrite Hempty. apply load_model_pipeline_empty.
Qed.

Lemma failed_load_leaves_cache_empty_witness :
  models_after
    (load_model_pipeline slow_runtime standard_model
       {[ "demo/model" := PipelineObj 3%nat ]})
  = ∅.
Proof.
  apply (failed_load_leaves_cache_empty slow_runtime standard_model
           {[ "demo/model" := PipelineObj 3%nat ]}
           (Exc PlainException
              "Failed to load VibeVoice model: SoftTimeLimitExceeded()")).
  vm_compute. reflexivity.
Defined.

Lemma load_vibevoice_emits (rt : runtime) (model_name path device : string) :
  emits (λ ev, negb (is_pipeline_load ev))
        (load_vibevoice rt model_name path device).
Proof. unfold load_vibevoice, cache_and_return. emits_auto. Qed.

Lemma load_vibevoice_result (rt : runtime) (model_name path device : string)
    (ms : gmap string loaded_obj) (obj : loaded_obj) :
  result (load_vibevoice rt model_name path device ms) = Ok obj →
  ∃ model processor,
    obj = VibeVoiceObj model processor (vibevoice_subtype model_name).
Proof.
  unfold load_vibevoice, vibevoice_subtype.
  destruct (String.eqb device "mps"); [|destruct (String.eqb device "cuda")];
    cbn; unfold try_except, bind, call, cache_and_return, bind, get_models,
           put_models, ret, raise, when; cbn;
    case_outcomes; intros [= <-]; eauto.
Qed.

Lemma custom_loader_emits (rt : runtime) (model_name : string) :
  contains "VibeVoice" model_name && VIBEVOICE_AVAILABLE rt = true →
  emits (λ ev, negb (is_pipeline_load ev)) (load_and_cache rt model_name).
Proof.
  intros Hvv. unfold load_and_cache. rewrite Hvv.
  apply emits_try_except; [apply load_vibevoice_emits|].
  intros e. apply emits_raise.
Qed.

Lemma generic_loader_emits (rt : runtime) (model_name : string) :
  contains "VibeVoice" model_name && VIBEVOICE_AVAILABLE rt = false →
  emits (λ ev, negb (is_from_pretrained ev)) (load_and_cache rt model_name).
Proof.
  intros Hvv. unfold load_and_cache, cache_and_return. rewrite Hvv.
  emits_auto.
Qed.

Lemma eviction_is_no_load (ms : gmap string loaded_obj) (rt : runtime)
    (P : event → bool) :
  P EvClear = true → (∀ d, P (EvEmptyCache d) = true) →
  forallb P (if bool_decide (ms = ∅) then []
             else EvClear :: release_events rt) = true.
Proof.
  intros Hc He. destruct (bool_decide (ms = ∅)); [reflexivity|].
  unfold release_events. cbn. rewrite Hc.
  destruct (cuda_is_available rt), (mps_is_available rt); cbn;
    now rewrite ?He.
Qed.

(** X2. Which loader serves a model depends on its name alone. A name that
    contains "VibeVoice" (with the VibeVoice classes importable) is loaded
    by the custom loader only: the generic pipeline is never tried, not
    even after a failure, and a loaded object is of type "vibevoice" with
    the subtype of its family. Any other name is loaded by the pipeline
    only, without any [from_pretrained]. *)
Theorem loader_chosen_by_name (rt : runtime) (model_name : string)
    (ms : gmap string loaded_obj) :
  ms !! model_name = None →
  let r := load_model_pipeline rt model_name ms in
  if contains "VibeVoice" model_name && VIBEVOICE_AVAILABLE rt then
    forallb (λ ev, negb (is_pipeline_load ev)) (events r) = true
    ∧ ∀ obj, result r = Ok obj →
        ∃ model processor,
          obj = VibeVoiceObj model processor (vibevoice_subtype model_name)
  else
    forallb (λ ev, negb (is_from_pretrained ev)) (events r) = true
    ∧ ∀ obj, result r = Ok obj → ∃ pipe, obj = PipelineObj pipe.
Proof.
  intros Hmiss r. subst r. rewrite (load_model_pipeline_miss _ _ _ Hmiss).
  cbn [events result].
  destruct (contains "VibeVoice" model_name && VIBEVOICE_AVAILABLE rt)
    eqn:Hvv.
  - split.
    + rewrite forallb_app. apply andb_true_iff. split.
      * now apply eviction_is_no_load.
      * now apply custom_loader_emits.
    + intros obj. unfold load_and_cache, try_except. rewrite Hvv.
      destruct (load_vibevoice rt model_name _ _ ∅) as [ms1 evs1 [o|e]] eqn:Hl;
        cbn; [|discriminate].
      intros [= <-].
      apply (load_vibevoice_result rt model_name
               (resolve_model_path rt model_name) (get_compute_device rt) ∅).
      now rewrite Hl.
  - split.
    + rewrite forallb_app. apply andb_true_iff. split.
      * now apply eviction_is_no_load.
      * now apply generic_loader_emits.
    + intros obj. unfold load_and_cache. rewrite Hvv.
      unfold try_except, bind, call, cache_and_return, bind,
        get_models, put_models, ret. cbn.
      case_outcomes; intros [= <-]; eauto.
Qed.

Lemma loader_chosen_by_name_witness :
  forallb (λ ev, negb (is_pipeline_load ev))
    (events (load_model_pipeline slow_runtime standard_model ∅)) = true
  ∧ forallb (λ ev, negb (is_from_pretrained ev))
      (events (load_model_pipeline demo_runtime "demo/model" ∅)) = true.
Proof.
  split.
  - apply (loader_chosen_by_name slow_runtime standard_model ∅).
    apply lookup_empty.
  - apply (loader_chosen_by_name demo_runtime "demo/model" ∅).
    apply lookup_empty.
Defined.

(** X3. When the first [from_pretrained] of a VibeVoice model raises,
    only a CUDA host tries again: it repeats the call with the "sdpa"
    attention, and a model that loads then is evaluated, cached and
    returned as if nothing had happened. On MPS and CPU there is no second
    attempt and no pipeline either: the call raises
    [Exception("Failed to load VibeVoice model: ...")] around the message
    of the first failure and caches nothing. *)
Theorem flash_attention_retry (rt : runtime) (model_name : string)
    (ms : gmap string loaded_obj) (processor : handle) (e : exc) :
  let device := get_compute_device rt in
  let path := resolve_model_path rt model_name in
  let streaming := is_realtime_model model_name in
  let first := EvModelFromPretrained streaming path (load_settings device).1.1
                 (load_settings device).1.2 (load_settings device).2 in
  contains "VibeVoice" model_name && VIBEVOICE_AVAILABLE rt = true →
  processor_from_pretrained rt streaming path = Ok processor →
  model_from_pretrained rt streaming path (load_settings device).1.1
    (load_settings device).1.2 (load_settings device).2 = Raise e →
  if String.eqb device "cuda" then
    ∀ model,
      model_from_pretrained rt streaming path "bfloat16" (Some "cuda") "sdpa"
      = Ok model →
      model_eval rt model = Ok tt →
      load_and_cache rt model_name ms
      = Run (<[model_name :=
                 VibeVoiceObj model processor (vibevoice_subtype model_name)]>
               ms)
            [EvProcessorFromPretrained streaming path; first;
             EvModelFromPretrained streaming path "bfloat16" (Some "cuda")
               "sdpa";
             EvModelEval model]
            (Ok (VibeVoiceObj model processor (vibevoice_subtype model_name)))
  else
    load_and_cache rt model_name ms
    = Run ms [EvProcessorFromPretrained streaming path; first]
          (Raise (Exc PlainException
                    ("Failed to load VibeVoice model: " +:+ exc_str e))).
Proof.
  intros device path streaming first Hvv Hproc Hfirst.
  subst first. unfold load_and_cache. rewrite Hvv.
  fold device path. unfold load_vibevoice. fold streaming.
  unfold load_settings in *. subst device. unfold get_compute_device in *.
  destruct (mps_is_available rt); [|destruct (cuda_is_available rt)];
    cbn in Hfirst |- *.
  - unfold try_except, bind, call. rewrite Hproc, Hfirst. reflexivity.
  - intros model Hretry Heval.
    unfold try_except, bind, call. rewrite Hproc, Hfirst. cbn.
    rewrite Hretry. cbn. rewrite Heval. reflexivity.
  - unfold try_except, bind, call. rewrite Hproc, Hfirst. reflexivity.
Qed.

(** A CUDA host without the flash attention kernels. *)
Lemma flash_attention_retry_witness :
  let rt := {| mps_is_available := false; cuda_is_available := true;
               VIBEVOICE_AVAILABLE := true; current_dir := "/srv/app";
               os_path_exists := λ _, true;
               processor_from_pretrained := λ _ _, Ok 1%nat;
               model_from_pretrained := λ _ _ _ _ attn,
                 if String.eqb attn "sdpa" then Ok 2%nat
                 else Raise (Exc LibraryError "FlashAttention2 not installed");
               model_to := λ _ _, Ok tt; model_eval := λ _, Ok tt;
               pipeline := λ _ _ _, Ok 3%nat |} in
  result (load_and_cache rt standard_model ∅)
  = Ok (VibeVoiceObj 2%nat 1%nat "vibevoice_standard").
Proof.
  intros rt.
  pose proof (flash_attention_retry rt standard_model ∅ 1%nat
                (Exc LibraryError "FlashAttention2 not installed")
                eq_refl eq_refl eq_refl) as H.
  cbn -[load_and_cache] in H.
  now rewrite (H 2%nat eq_refl eq_refl).
Defined.

(** X4. When the first attempt of the generic pipeline raises, its error
    is dropped and the pipeline is built once more on the CPU. The outcome
    of the call is the outcome of that second attempt: the pipeline,
    cached and returned, or the exception of the CPU attempt, raised as it
    is, with the cache left as it was. *)
Theorem pipeline_cpu_retry (rt : runtime) (model_name : string)
    (ms : gmap string loaded_obj) (e : exc) :
  let device := get_compute_device rt in
  let path := resolve_model_path rt model_name in
  contains "VibeVoice" model_name && VIBEVOICE_AVAILABLE rt = false →
  pipeline rt 0 path device = Raise e →
  load_and_cache rt model_name ms
  = match pipeline rt 1 path "cpu" with
    | Ok pipe =>
        Run (<[model_name := PipelineObj pipe]> ms)
            [EvPipeline path device; EvPipeline path "cpu"]
            (Ok (PipelineObj pipe))
    | Raise e' =>
        Run ms [EvPipeline path device; EvPipeline path "cpu"] (Raise e')
    end.
Proof.
  intros device path Hvv Hfirst. unfold load_and_cache. rewrite Hvv.
  fold device path. unfold try_except, bind at 1, call. rewrite Hfirst.
  unfold bind, cache_and_return, bind, get_models, put_models, ret.
  now destruct (pipeline rt 1 path "cpu").
Qed.

Lemma pipeline_cpu_retry_witness :
  let rt := {| mps_is_available := false; cuda_is_available := true;
               VIBEVOICE_AVAILABLE := true; current_dir := "/srv/app";
               os_path_exists := λ _, true;
               processor_from_pretrained := λ _ _, Ok 1%nat;
               model_from_pretrained := λ _ _ _ _ _, Ok 2%nat;
               model_to := λ _ _, Ok tt; model_eval := λ _, Ok tt;
               pipeline := λ _ _ device,
                 if String.eqb device "cpu" then Ok 3%nat
                 else Raise (Exc LibraryError "CUDA out of memory") |} in
  load_and_cache rt "demo/model" ∅
  = Run {[ "demo/model" := PipelineObj 3%nat ]}
        [EvPipeline "local_models/demo/model" "cuda";
         EvPipeline "local_models/demo/model" "cpu"]
        (Ok (PipelineObj 3%nat)).
Proof.
  intros rt.
  rewrite (pipeline_cpu_retry rt "demo/model" ∅
             (Exc LibraryError "CUDA out of memory") eq_refl eq_refl).
  reflexivity.
Defined.

(** ** More on the PCM conversion and the duration *)


















(** ** The progress notes of the task *)

Lemma state_updates_app (evs1 evs2 : list event) :
  state_updates (evs1 ++ evs2) = state_updates evs1 ++ state_updates evs2.
Proof. unfold state_updates. now rewrite flat_map_app. Qed.

Lemma state_updates_quiet (evs : list event) :
  forallb (λ ev, negb (is_update ev)) evs = true → state_updates evs = [].
Proof.
  induction evs as [|ev evs IH]; [reflexivity|].
  cbn [forallb]. intros H. apply andb_prop in H as [Hev Hevs].
  change (ev :: evs) with ([ev] ++ evs).
  rewrite state_updates_app, (IH Hevs). now destruct ev.
Qed.

Lemma saves_last_ret (p : payload) :
  is_completed (Ok p) = false → saves_last (ret p).
Proof. intros Hp ms. left. now split. Qed.

Lemma saves_last_raise (e : exc) : saves_last (raise e).
Proof. intros ms. left. now split. Qed.

Lemma saves_last_bind {A} (m : M A) (k : A → M payload) :
  emits (λ ev, negb (is_update ev)) m →
  (∀ a, saves_last (k a)) → saves_last (bind m k).
Proof.
  intros Hm Hk ms. unfold bind.
  pose proof (state_updates_quiet _ (Hm ms)) as Hq.
  destruct (m ms) as [ms1 evs1 [a|e]]; cbn [events result models_after] in *; [|left; now split].
  specialize (Hk a ms1). destruct (k a ms1) as [ms2 evs2 r]; cbn [events result models_after] in *.
  rewrite state_updates_app, Hq. exact Hk.
Qed.

Lemma progress_then_quiet {A} (env : task_env) (status : string) (m : M A) :
  emits (λ ev, negb (is_update ev)) m →
  ∀ ms, state_updates (events ((progress env status ;;; m) ms))
        = [("PROGRESS", status)].
Proof.
  intros Hm ms. unfold bind, progress, call.
  destruct (update_state env status); [|reflexivity].
  pose proof (state_updates_quiet _ (Hm ms)) as Hq.
  destruct (m ms) as [ms2 evs2 r2]. cbn [events] in *.
  change (EvUpdateState "PROGRESS" status :: evs2)
    with ([EvUpdateState "PROGRESS" status] ++ evs2).
  now rewrite state_updates_app, Hq.
Qed.

Lemma save_audio_saves_last (env : task_env) (text model_name : string)
    (speaker : option string) (cfg_scale : Q) (inference_steps user_id : Z)
    (audio_data : list Q) (sampling_rate : Z) :
  saves_last (save_audio env text model_name speaker cfg_scale
                         inference_steps user_id audio_data sampling_rate).
Proof.
  unfold save_audio. apply saves_last_bind.
  { unfold state_revoked. emits_auto. }
  intros [|]; [now apply saves_last_ret|].
  intros ms. right. cbv zeta. apply progress_then_quiet. emits_auto.
Qed.

Lemma synthesize_no_update (env : task_env) (text model_name : string)
    (speaker : option string) (cfg_scale : Q) (inference_steps : Z) :
  emits (λ ev, negb (is_update ev))
        (synthesize env text model_name speaker cfg_scale inference_steps).
Proof.
  unfold synthesize, synthesize_streaming, synthesize_standard. emits_auto.
Qed.

Lemma run_vibevoice_saves_last (env : task_env) (text model_name : string)
    (speaker : option string) (cfg_scale : Q) (inference_steps user_id : Z) :
  saves_last (run_vibevoice env text model_name speaker cfg_scale
                            inference_steps user_id).
Proof.
  unfold run_vibevoice.
  apply saves_last_bind; [emits_auto|intros _].
  apply saves_last_bind; [apply synthesize_no_update|intros outputs].
  apply saves_last_bind; [emits_auto|intros [|]].
  - now apply saves_last_ret.
  - destruct outputs as [|[audio|] ?];
      [apply saves_last_raise | apply save_audio_saves_last
      | apply saves_last_raise].
Qed.

Lemma load_model_pipeline_no_update (rt : runtime) (model_name : string) :
  emits (λ ev, negb (is_update ev)) (load_model_pipeline rt model_name).
Proof.
  eapply emits_weaken; [|apply load_model_pipeline_emits].
  intros ev H. now destruct ev.
Qed.

Lemma meta_revoked_no_update (env : task_env) :
  emits (λ ev, negb (is_update ev)) (meta_revoked env).
Proof. unfold meta_revoked. emits_auto. Qed.

Lemma events_bind {A B} (m : M A) (k : A → M B)
    (ms : gmap string loaded_obj) :
  events (bind m k ms)
  = events (m ms)
    ++ match result (m ms) with
       | Ok a => events (k a (models_after (m ms)))
       | Raise _ => []
       end.
Proof.
  unfold bind. destruct (m ms) as [ms1 evs1 [a|e]]; cbn.
  - now destruct (k a ms1).
  - now rewrite app_nil_r.
Qed.

Lemma result_bind {A B} (m : M A) (k : A → M B)
    (ms : gmap string loaded_obj) :
  result (bind m k ms)
  = match result (m ms) with
    | Ok a => result (k a (models_after (m ms)))
    | Raise e => Raise e
    end.
Proof.
  unfold bind. destruct (m ms) as [ms1 evs1 [a|e]]; cbn; [|reflexivity].
  now destruct (k a ms1).
Qed.

Ltac notes_step :=
  rewrite ?events_bind, ?result_bind, ?state_updates_app;
  cbn [progress call events result models_after ret].

Ltac notes_upto n :=
  exists n; split;
  [reflexivity | split; [lia | intros ? ?; try discriminate; reflexivity]].

(** The notes of the preparation: a beginning of the first three, all
    three when the job goes on, the first two when it is revoked. *)
Lemma prepare_updates (env : task_env) (model_name : string)
    (speaker : option string) (ms : gmap string loaded_obj) :
  let r := prepare env model_name speaker ms in
  ∃ n, state_updates (events r) = take n (progress_notes speaker)
       ∧ (n ≤ 3)%nat
       ∧ (∀ obj, result r = Ok (Some obj) → n = 3%nat).
Proof.
  cbv zeta. unfold prepare.
  pose proof (state_updates_quiet _
                (load_model_pipeline_no_update (loader env) model_name ms))
    as Hload.
  set (ms1 := models_after (load_model_pipeline (loader env) model_name ms))
    in *.
  pose proof (state_updates_quiet _ (meta_revoked_no_update env ms1)) as Hmeta.
  notes_step. destruct (update_state env "Loading model...");
    [|notes_upto 1%nat].
  notes_step. fold ms1. rewrite Hload.
  destruct (result (load_model_pipeline (loader env) model_name ms))
    as [obj|e]; [|notes_upto 1%nat].
  notes_step. destruct (update_state env _); [|notes_upto 2%nat].
  notes_step. rewrite Hmeta.
  destruct (result (meta_revoked env ms1)) as [[|]|e];
    try notes_upto 2%nat.
  notes_step.
  destruct (update_state env "Synthesizing audio..."); notes_upto 3%nat.
Qed.

Lemma take_prefix_of {A} (n : nat) (l : list A) : take n l `prefix_of` l.
Proof. exists (drop n l). now rewrite take_drop. Qed.

(** X8. The progress notes of a run come in the order of the state
    machine, each at most once: the state updates of every run are a
    beginning of "Loading model...", "Configuring voice: ...",
    "Synthesizing audio...", "Saving audio file...", each with state
    PROGRESS; and a run that returns "completed" has made all four. *)
Theorem progress_notes_in_order (env : task_env) (text model_name : string)
    (speaker : option string) (cfg_scale : Q) (inference_steps user_id : Z)
    (ms : gmap string loaded_obj) :
  let r := generate_audio_task env text model_name speaker cfg_scale
                               inference_steps user_id ms in
  state_updates (events r) `prefix_of` progress_notes speaker
  ∧ (is_completed (result r) = true →
     state_updates (events r) = progress_notes speaker).
Proof.
  intros r.
  assert (Hbody : ∀ ms',
    let b := task_body env text model_name speaker cfg_scale inference_steps
                       user_id ms' in
    ∃ n, state_updates (events b) = take n (progress_notes speaker)
         ∧ (is_completed (result b) = true → n = 4%nat)).
  { intros ms'. cbv zeta. unfold task_body. rewrite events_bind, result_bind.
    destruct (prepare_updates env model_name speaker ms') as (n & Hn & Hle & H3).
    destruct (prepare env model_name speaker ms') as [ms1 evs1 [[obj|]|e]];
      cbn [events result models_after] in *.
    - specialize (H3 obj eq_refl). subst n.
      assert (Hk : ∀ m, saves_last m →
        ∃ n, state_updates (evs1 ++ events (m ms1))
             = take n (progress_notes speaker)
             ∧ (is_completed (result (m ms1)) = true → n = 4%nat)).
      { intros m Hm. rewrite state_updates_app, Hn.
        destruct (Hm ms1) as [[-> Hnc] | ->].
        - exists 3%nat. rewrite app_nil_r. split; [reflexivity|].
          now rewrite Hnc.
        - exists 4%nat. split; reflexivity. }
      destruct obj as [model processor subtype|pipe]; apply Hk.
      + apply run_vibevoice_saves_last.
      + apply saves_last_bind; [emits_auto|intros output].
        apply save_audio_saves_last.
    - exists n. rewrite app_nil_r. split; [assumption | discriminate].
    - exists n. rewrite app_nil_r. split; [assumption | discriminate]. }
  specialize (Hbody ms). cbn zeta in Hbody.
  subst r. unfold generate_audio_task, try_except.
  destruct (task_body env text model_name speaker cfg_scale inference_steps
                      user_id ms) as [ms1 evs1 [p|e]]; cbn [events result models_after] in *.
  - destruct Hbody as (n & Hn & Hc). rewrite Hn. split.
    + apply take_prefix_of.
    + intros H. now rewrite (Hc H).
  - destruct Hbody as (n & Hn & _).
    unfold job_boundary.
    destruct (is_soft_time_limit e);
      cbn [bind call ret events result models_after app];
      rewrite state_updates_app, Hn; cbn [state_updates flat_map app];
      rewrite app_nil_r; (split; [apply take_prefix_of | discriminate]).
Qed.

Lemma progress_notes_in_order_witness :
  let env := demo_env demo_runtime None (StoreUp ∅) (StoreUp ∅) "STARTED" in
  state_updates
    (events (generate_audio_task env "hello" standard_model (Some "en-Alice")
                                 (3 # 2) 5 1 ∅))
  = progress_notes (Some "en-Alice").
Proof.
  cbv zeta.
  apply (progress_notes_in_order
           (demo_env demo_runtime None (StoreUp ∅) (StoreUp ∅) "STARTED")
           "hello" standard_model (Some "en-Alice") (3 # 2) 5 1 ∅).
  vm_compute. reflexivity.
Defined.

(** ** What a completed job has written *)

Lemma to_pcm16_ok (a : list Q) (pcm : list Z) :
  to_pcm16 a = Ok pcm →
  a ≠ [] ∧ length pcm = length a ∧ Forall (λ v, -32767 <= v <= 32767) pcm.
Proof.
  destruct a as [|x rest]; [discriminate|].
  pose proof (to_pcm16_cons x rest) as Heq. cbn zeta in Heq.
  set (peak := fold_left Qmax (map Qabs rest) (Qabs x)) in *.
  rewrite Heq. intros H. split; [discriminate|].
  destruct (Qlt_le_dec 0 peak) as [Hpos|Hle]; injection H as <-;
    match goal with
    | |- context [?v :: map ?f rest] =>
        change (v :: map f rest) with (map f (x :: rest))
    end;
    (split; [now rewrite length_map|]);
    apply Forall_map, Forall_forall; intros y Hy;
    apply list_elem_of_In in Hy.
  - apply scaled_range; [assumption | now apply peak_bounds].
  - assert (Hy0 : (y == 0)%Q).
    { apply Qabs_zero_iff. apply Qle_antisym; [|apply Qabs_nonneg].
      eapply Qle_trans; [apply (peak_bounds x rest y Hy) | exact Hle]. }
    rewrite (astype_int16_zero _ Hy0). lia.
Qed.

Section Saved.
Context (env : task_env) (text model_name : string) (speaker : option string)
  (cfg_scale : Q) (inference_steps user_id : Z).

Local Abbreviation backed :=
  (completes_saved env text model_name speaker cfg_scale inference_steps
                   user_id).

Lemma backed_not_completed (m : M payload) :
  (∀ ms, is_completed (result (m ms)) = false) → backed m.
Proof. intros H ms id row Hr. specialize (H ms). now rewrite Hr in H. Qed.

Lemma backed_ret (p : payload) :
  (∀ id row, p ≠ Completed id row) → backed (ret p).
Proof. intros Hp ms id row [= ->]. now destruct (Hp id row). Qed.

Lemma backed_raise (e : exc) : backed (raise e).
Proof. intros ms id row [=]. Qed.

Lemma backed_bind {A} (m : M A) (k : A → M payload) :
  emits (λ ev, negb (is_artifact_write ev)) m →
  (∀ a, backed (k a)) → backed (bind m k).
Proof.
  intros Hm Hk ms id row. unfold bind. specialize (Hm ms).
  destruct (m ms) as [ms1 evs1 [a|e]]; cbn in *; [|discriminate].
  specialize (Hk a ms1 id row). destruct (k a ms1) as [ms2 evs2 r]; cbn in *.
  intros Hr. destruct (Hk Hr) as (pre & rate & pcm & d & -> & Hpre & Hrest).
  exists (evs1 ++ pre), rate, pcm, d. rewrite app_assoc.
  split; [reflexivity|]. split; [|exact Hrest].
  rewrite forallb_app. now rewrite Hm, Hpre.
Qed.

Lemma save_audio_backed (audio_data : list Q) (sampling_rate : Z) :
  backed (save_audio env text model_name speaker cfg_scale inference_steps
                     user_id audio_data sampling_rate).
Proof.
  unfold save_audio. apply backed_bind.
  { unfold state_revoked. emits_auto. }
  intros [|]; [apply backed_ret; discriminate|].
  apply backed_bind; [unfold progress; emits_auto | intros _].
  intros ms id row. unfold bind, lift, call, try_finally, ret.
  unfold duration_of.
  destruct (Z.eqb_spec sampling_rate 0) as [|Hrate]; [discriminate|].
  destruct (to_pcm16 audio_data) as [pcm|e] eqn:Hpcm; [|discriminate].
  destruct (to_pcm16_ok _ _ Hpcm) as (Hne & Hlen & Hrange).
  fold (artifact_name env). fold (artifact_path env).
  destruct (wavfile_write env (artifact_path env) sampling_rate pcm)
    as [[]|e] eqn:Hw; [|discriminate].
  destruct (session_local env) as [[]|e] eqn:Hs; [|discriminate].
  match goal with
  | |- context [db_commit env ?r] => set (db_item := r)
  end.
  destruct (db_commit env db_item) as [[]|e] eqn:Hc;
    [|destruct (db_close env) as [[]|e']; discriminate].
  destruct (db_refresh env db_item) as [i|e] eqn:Hf;
    [|destruct (db_close env) as [[]|e']; discriminate].
  destruct (db_close env) as [[]|e] eqn:Hz; [|discriminate].
  cbn [events result models_after app]. intros [= <- <-].
  exists [], sampling_rate, pcm. eexists.
  split; [reflexivity|]. split; [reflexivity|]. split; [reflexivity|].
  repeat split; try assumption.
  intros ->. destruct audio_data; [now apply Hne | discriminate].
Qed.

Lemma run_vibevoice_backed :
  backed (run_vibevoice env text model_name speaker cfg_scale inference_steps
                        user_id).
Proof.
  unfold run_vibevoice.
  apply backed_bind; [emits_auto|intros _].
  apply backed_bind; [apply synthesize_emits|intros outputs].
  apply backed_bind; [emits_auto|intros [|]].
  - apply backed_ret; discriminate.
  - destruct outputs as [|[audio|] ?];
      [apply backed_raise | apply save_audio_backed | apply backed_raise].
Qed.

Lemma task_body_backed :
  backed (task_body env text model_name speaker cfg_scale inference_steps
                    user_id).
Proof.
  unfold task_body. apply backed_bind.
  { eapply emits_weaken; [|apply prepare_emits]. intros ev H. now destruct ev. }
  intros [[m p t|pipe]|].
  - apply run_vibevoice_backed.
  - apply backed_bind; [emits_auto|intros output]. apply save_audio_backed.
  - apply backed_ret; discriminate.
Qed.

End Saved.



(** ** The database session of a run *)

Lemma artifact_calls_app (evs1 evs2 : list event) :
  artifact_calls (evs1 ++ evs2) = artifact_calls evs1 ++ artifact_calls evs2.
Proof. apply List.filter_app. Qed.

Lemma artifact_calls_quiet (evs : list event) :
  forallb (λ ev, negb (is_artifact_write ev)) evs = true →
  artifact_calls evs = [].
Proof.
  induction evs as [|ev evs IH]; cbn; [reflexivity|].
  intros H. apply andb_prop in H as [Hev Hevs].
  apply negb_true_iff in Hev. rewrite Hev. now apply IH.
Qed.

Lemma shaped_quiet (env : task_env) {A} (m : M A) :
  emits (λ ev, negb (is_artifact_write ev)) m → shaped env m.
Proof. intros H ms. left. apply artifact_calls_quiet, H. Qed.

Lemma shaped_bind (env : task_env) {A B} (m : M A) (k : A → M B) :
  emits (λ ev, negb (is_artifact_write ev)) m →
  (∀ a, shaped env (k a)) → shaped env (bind m k).
Proof.
  intros Hm Hk ms. unfold bind. specialize (Hm ms).
  destruct (m ms) as [ms1 evs1 [a|e]]; cbn in *.
  - specialize (Hk a ms1). destruct (k a ms1) as [ms2 evs2 r]; cbn in *.
    now rewrite artifact_calls_app, (artifact_calls_quiet _ Hm).
  - left. now apply artifact_calls_quiet.
Qed.

Lemma shaped_try_except (env : task_env) {A} (m : M A) (handler : exc → M A) :
  shaped env m →
  (∀ e, emits (λ ev, negb (is_artifact_write ev)) (handler e)) →
  shaped env (try_except m handler).
Proof.
  intros Hm Hh ms. unfold try_except. specialize (Hm ms).
  destruct (m ms) as [ms1 evs1 [a|e]]; cbn in *; [assumption|].
  specialize (Hh e ms1). destruct (handler e ms1) as [ms2 evs2 r]; cbn in *.
  now rewrite artifact_calls_app, (artifact_calls_quiet _ Hh), app_nil_r.
Qed.

Lemma save_audio_shaped (env : task_env) (text model_name : string)
    (speaker : option string) (cfg_scale : Q) (inference_steps user_id : Z)
    (audio_data : list Q) (sampling_rate : Z) :
  shaped env (save_audio env text model_name speaker cfg_scale
                         inference_steps user_id audio_data sampling_rate).
Proof.
  unfold save_audio. apply shaped_bind.
  { unfold state_revoked. emits_auto. }
  intros [|]; [apply shaped_quiet; emits_auto|].
  apply shaped_bind; [unfold progress; emits_auto | intros _].
  apply shaped_bind; [emits_auto | intros d].
  apply shaped_bind; [emits_auto | intros pcm].
  fold (artifact_name env). fold (artifact_path env).
  intros ms. unfold bind, call, try_finally, ret.
  destruct (wavfile_write env (artifact_path env) sampling_rate pcm)
    as [[]|e]; [|right; exists sampling_rate, pcm; now left].
  destruct (session_local env) as [[]|e];
    [|right; exists sampling_rate, pcm; right; now left].
  match goal with
  | |- context [db_commit env ?r] => set (db_item := r)
  end.
  right. exists sampling_rate, pcm. right. right. exists db_item.
  destruct (db_commit env db_item) as [[]|e];
    [|destruct (db_close env) as [[]|e']; now left].
  destruct (db_refresh env db_item) as [i|e];
    destruct (db_close env) as [[]|e']; now right.
Qed.

(** X10. Whatever happens, a run writes at most one file and one row, in
    that order, and a database session that was opened is closed. *)
Theorem session_always_closed (env : task_env) (text model_name : string)
    (speaker : option string) (cfg_scale : Q) (inference_steps user_id : Z)
    (ms : gmap string loaded_obj) :
  trail_shape env
    (artifact_calls
       (events (generate_audio_task env text model_name speaker cfg_scale
                                    inference_steps user_id ms))).
Proof.
  revert ms. change (shaped env (generate_audio_task env text model_name
                       speaker cfg_scale inference_steps user_id)).
  unfold generate_audio_task. apply shaped_try_except.
  2: { intros e. unfold job_boundary. emits_auto. }
  unfold task_body. apply shaped_bind.
  { eapply emits_weaken; [|apply prepare_emits]. intros ev H. now destruct ev. }
  intros [[m p t|pipe]|].
  - unfold run_vibevoice.
    apply shaped_bind; [emits_auto|intros _].
    apply shaped_bind; [apply synthesize_emits|intros outputs].
    apply shaped_bind; [emits_auto|intros [|]].
    + apply shaped_quiet; emits_auto.
    + destruct outputs as [|[audio|] ?];
        [apply shaped_quiet; emits_auto | apply save_audio_shaped
        | apply shaped_quiet; emits_auto].
  - apply shaped_bind; [emits_auto|intros output]. apply save_audio_shaped.
  - apply shaped_quiet; emits_auto.
Qed.

(** ** Voice files *)

Lemma split_go_nonempty (sep : ascii) (s cur : string) :
  split_go sep s cur ≠ [].
Proof.
  revert cur. induction s as [|c s IH]; intros cur; cbn; [discriminate|].
  destruct (Ascii.eqb c sep); [discriminate | apply IH].
Qed.

Lemma split_go_last_length (s cur : string) :
  (String.length (List.last (split_go slash s cur) "")
   ≤ String.length cur + String.length s)%nat.
Proof.
  revert cur. induction s as [|c s IH]; intros cur; cbn [split_go].
  - cbn [List.last]. unfold String.rev.
    assert (H : ∀ a b, String.length (String.rev_app a b)
                       = (String.length a + String.length b)%nat).
    { induction a as [|x a IHa]; intros b; cbn; [reflexivity|].
      rewrite IHa. cbn. lia. }
    rewrite H. cbn. lia.
  - destruct (Ascii.eqb c slash).
    + specialize (IH ""). cbn [String.length] in *.
      destruct (split_go slash s "") as [|y l] eqn:E.
      * now apply split_go_nonempty in E.
      * change (List.last (String.rev cur :: y :: l) "")
          with (List.last (y :: l) ""). lia.
    + specialize (IH (String c cur)). cbn [String.length] in *. lia.
Qed.

Lemma split_go_last_short (s cur : string) :
  slash_free s = false →
  (String.length (List.last (split_go slash s cur) "") < String.length s)%nat.
Proof.
  revert cur. induction s as [|c s IH]; intros cur; [discriminate|].
  cbn [slash_free all_chars split_go]. fold (slash_free s).
  destruct (Ascii.eqb c slash); cbn [negb andb].
  - intros _. pose proof (split_go_last_length s "") as Hl.
    destruct (split_go slash s "") as [|y l] eqn:E.
    + now apply split_go_nonempty in E.
    + change (List.last (String.rev cur :: y :: l) "")
        with (List.last (y :: l) "").
      cbn [String.length] in *. lia.
  - intros Hs. specialize (IH (String c cur) Hs). cbn [String.length]. lia.
Qed.

Lemma own_basename_slash_free (s : string) :
  posixpath.basename s = s → slash_free s = true.
Proof.
  intros Hb. destruct (slash_free s) eqn:Hs; [reflexivity|].
  pose proof (split_go_last_short s "" Hs) as Hl.
  unfold posixpath.basename, split in Hb. rewrite Hb in Hl. lia.
Qed.

Lemma valid_speaker_slash_free (sp : string) :
  invalid_speaker (Some sp) = false → slash_free sp = true.
Proof.
  unfold invalid_speaker. destruct sp as [|c sp]; [reflexivity|].
  cbn [truthy andb]. intros H. apply negb_false_iff, String.eqb_eq in H.
  now apply own_basename_slash_free.
Qed.

Lemma slash_free_app (a b : string) :
  slash_free a = true → slash_free b = true → slash_free (a +:+ b) = true.
Proof.
  intros Ha Hb. induction a as [|c a IH]; [exact Hb|].
  rewrite append_cons. cbn [slash_free all_chars] in *.
  apply andb_prop in Ha as [Hc Ha]. rewrite Hc. now apply IH.
Qed.

Lemma Forall_events_bind {A B} (P : event → Prop) (m : M A) (k : A → M B)
    (ms : gmap string loaded_obj) :
  Forall P (events (m ms)) →
  (∀ a ms1, result (m ms) = Ok a → Forall P (events (k a ms1))) →
  Forall P (events (bind m k ms)).
Proof.
  intros Hm Hk. unfold bind.
  destruct (m ms) as [ms1 evs1 [a|e]]; cbn in *; [|assumption].
  specialize (Hk a ms1 eq_refl). destruct (k a ms1) as [ms2 evs2 r]; cbn in *.
  now apply Forall_app.
Qed.

Lemma Forall_of_emits {A} (P : event → Prop) (Q : event → bool) (m : M A)
    (ms : gmap string loaded_obj) :
  (∀ ev, Q ev = true → P ev) → emits Q m → Forall P (events (m ms)).
Proof.
  intros HQP Hm. specialize (Hm ms). apply Forall_forall. intros ev Hev.
  apply HQP. rewrite forallb_forall in Hm. apply Hm.
  now apply list_elem_of_In.
Qed.

Lemma synthesize_within (env : task_env) (text model_name : string)
    (speaker : option string) (cfg_scale : Q) (inference_steps : Z)
    (ms : gmap string loaded_obj) :
  invalid_speaker speaker = false →
  Forall (lookup_within (voices_dir env model_name))
    (events (synthesize env text model_name speaker cfg_scale inference_steps
                        ms)).
Proof.
  intros Hv. unfold synthesize, voices_dir.
  destruct (is_realtime_model model_name).
  - unfold synthesize_streaming.
    apply Forall_events_bind.
    + destruct speaker as [[|c sp]|]; try (constructor; fail).
      apply Forall_events_bind.
      * constructor; [|constructor]. exists (String c sp +:+ ".pt").
        split; [discriminate|]. split; [|reflexivity].
        apply slash_free_app; [now apply valid_speaker_slash_free|reflexivity].
      * intros [|] ms1 _; [|constructor].
        constructor; [|constructor]. exists (String c sp +:+ ".pt").
        split; [discriminate|]. split; [|reflexivity].
        apply slash_free_app; [now apply valid_speaker_slash_free|reflexivity].
    + intros prefilled ms1 _.
      apply (Forall_of_emits _ (λ ev, negb (is_voice_lookup ev)));
        [intros ev H; now destruct ev | emits_auto].
  - unfold synthesize_standard.
    apply Forall_events_bind.
    + destruct speaker as [[|c sp]|]; try (constructor; fail).
      apply Forall_events_bind.
      * constructor; [|constructor]. exists (String c sp +:+ ".wav").
        split; [discriminate|]. split; [|reflexivity].
        apply slash_free_app; [now apply valid_speaker_slash_free|reflexivity].
      * intros [|] ms1 _; [constructor|].
        apply Forall_events_bind.
        -- constructor; [reflexivity | constructor].
        -- intros files ms2 _.
           destruct (List.find _ files); constructor.
    + intros voice_samples ms1 _.
      apply (Forall_of_emits _ (λ ev, negb (is_voice_lookup ev)));
        [intros ev H; now destruct ev | emits_auto].
Qed.

(** X11. Voice files are looked for directly inside the voices directory
    of the model family, and nowhere else. *)
Theorem voice_lookup_confined (env : task_env) (text model_name : string)
    (speaker : option string) (cfg_scale : Q) (inference_steps user_id : Z)
    (ms : gmap string loaded_obj) :
  Forall (lookup_within (voices_dir env model_name))
    (events (generate_audio_task env text model_name speaker cfg_scale
                                 inference_steps user_id ms)).
Proof.
  assert (Hq : ∀ {A} (m : M A) ms',
             emits (λ ev, negb (is_voice_lookup ev)) m →
             Forall (lookup_within (voices_dir env model_name))
                    (events (m ms'))).
  { intros A m ms' Hm. eapply Forall_of_emits; [|exact Hm].
    intros ev H. now destruct ev. }
  unfold generate_audio_task, try_except.
  assert (Hbody : Forall (lookup_within (voices_dir env model_name))
            (events (task_body env text model_name speaker cfg_scale
                               inference_steps user_id ms))).
  { unfold task_body. apply Forall_events_bind.
    - apply Hq. eapply emits_weaken; [|apply prepare_emits].
      intros ev H. now destruct ev.
    - intros [[m p t|pipe]|] ms1 _.
      + unfold run_vibevoice.
        destruct (invalid_speaker speaker) eqn:Hv.
        * apply Hq. intros ms'. reflexivity.
        * apply Forall_events_bind; [constructor|intros _ ms2 _].
          apply Forall_events_bind; [now apply synthesize_within|].
          intros outputs ms3 _. apply Hq.
          apply emits_bind; [emits_auto|intros [|]]; [emits_auto|].
          destruct outputs as [|[audio|] ?];
            [emits_auto | apply save_audio_no_lookup | emits_auto].
      + apply Hq. apply emits_bind; [emits_auto|intros output].
        apply save_audio_no_lookup.
      + constructor. }
  destruct (task_body env text model_name speaker cfg_scale inference_steps
                      user_id ms) as [ms1 evs1 [p|e]];
    cbn [events result models_after] in *; [exact Hbody|].
  pose proof (Hq _ (job_boundary e) ms1) as Hh.
  destruct (job_boundary e ms1) as [ms2 evs2 r]; cbn in *.
  apply Forall_app. split; [exact Hbody|]. apply Hh.
  unfold job_boundary. emits_auto.
Qed.

Lemma speakerless_streaming (env : task_env) (text : string)
    (speaker : option string) (cfg_scale : Q) (inference_steps : Z)
    (ms : gmap string loaded_obj) :
  speaker_truthy speaker = false →
  synthesize_streaming env text speaker cfg_scale inference_steps ms
  = Run ms [] (Raise (Exc ValueError
      "Speaker/voice must be specified for VibeVoice Realtime model")).
Proof. destruct speaker as [[|c sp]|]; [reflexivity | discriminate | reflexivity]. Qed.

Lemma falsy_speaker_valid (speaker : option string) :
  speaker_truthy speaker = false → invalid_speaker speaker = false.
Proof. destruct speaker as [[|c sp]|]; [reflexivity | discriminate | reflexivity]. Qed.

(** X12. The Realtime model needs a voice: without a speaker, or with a
    speaker whose voice file is missing, a job whose model was loaded as
    a vibevoice object fails with the matching message as soon as the
    voice is resolved, before any input is processed. *)
Theorem realtime_voice_required (env : task_env) (text model_name : string)
    (speaker : option string) (cfg_scale : Q) (inference_steps user_id : Z)
    (ms : gmap string loaded_obj) (model processor : handle)
    (subtype : string) :
  is_realtime_model model_name = true →
  result (prepare env model_name speaker ms)
  = Ok (Some (VibeVoiceObj model processor subtype)) →
  let r := generate_audio_task env text model_name speaker cfg_scale
                               inference_steps user_id ms in
  let voice_file :=
    posixpath.join (voices_dir env model_name) (speaker_str speaker +:+ ".pt")
  in
  (speaker_truthy speaker = false →
   result r = Ok (Failed ("Generation failed: Speaker/voice must be "
                          +:+ "specified for VibeVoice Realtime model"))
   ∧ events r = events (prepare env model_name speaker ms) ++ [EvPrintExc])
  ∧ (speaker_truthy speaker = true → invalid_speaker speaker = false →
     voice_exists env voice_file = false →
     result r = Ok (Failed ("Generation failed: Voice file not found: "
                            +:+ voice_file))
     ∧ events r = events (prepare env model_name speaker ms)
                  ++ [EvPathExists voice_file; EvPrintExc]).
Proof.
  intros Hrt Hprep r voice_file. subst r voice_file.
  unfold voices_dir, generate_audio_task, try_except, task_body, bind.
  rewrite Hrt.
  destruct (prepare env model_name speaker ms) as [ms1 evs1 r1].
  cbn in Hprep. subst r1. unfold run_vibevoice, synthesize, bind.
  rewrite Hrt. split.
  - intros Hs. rewrite (falsy_speaker_valid _ Hs).
    cbn [ret]. rewrite speakerless_streaming by assumption.
    cbn. now rewrite app_nil_r.
  - intros Hs Hv Hmissing. rewrite Hv. cbn [ret].
    destruct speaker as [[|c sp]|]; try discriminate.
    unfold synthesize_streaming, bind, call. cbn [speaker_str] in *.
    rewrite Hmissing. cbn -[posixpath.join].
    split; [reflexivity | now rewrite <- app_assoc].
Qed.

Lemma realtime_voice_required_witness :
  let env := demo_env demo_runtime (Some "job-1") (StoreUp ∅) (StoreUp ∅)
                      "STARTED" in
  result (generate_audio_task env "hello" realtime_model None (3 # 2) 5 1 ∅)
  = Ok (Failed ("Generation failed: Speaker/voice must be "
                +:+ "specified for VibeVoice Realtime model")).
Proof.
  cbv zeta.
  apply (realtime_voice_required
           (demo_env demo_runtime (Some "job-1") (StoreUp ∅) (StoreUp ∅)
                     "STARTED")
           "hello" realtime_model None (3 # 2) 5 1 ∅ 2%nat 1%nat
           "vibevoice_streaming");
    [vm_compute; reflexivity | vm_compute; reflexivity | reflexivity].
Defined.

(** ** Paths and their components *)

Lemma slash_free_rev_app (a b : string) :
  slash_free a = true → slash_free b = true →
  slash_free (String.rev_app a b) = true.
Proof.
  revert b. induction a as [|c a IH]; intros b Ha Hb; [exact Hb|].
  cbn [slash_free all_chars] in Ha. apply andb_prop in Ha as [Hc Ha].
  cbn [String.rev_app]. apply IH; [assumption|].
  cbn [slash_free all_chars]. now rewrite Hc.
Qed.

Lemma split_go_fields_slash_free (s cur : string) :
  slash_free cur = true →
  Forall (λ c, slash_free c = true) (split_go slash s cur).
Proof.
  revert cur. induction s as [|c s IH]; intros cur Hcur; cbn [split_go].
  - constructor; [|constructor]. now apply slash_free_rev_app.
  - destruct (Ascii.eqb c slash) eqn:Hc.
    + constructor; [now apply slash_free_rev_app | now apply IH].
    + apply IH. cbn [slash_free all_chars]. now rewrite Hc.
Qed.

Lemma split_go_field_then_slash (p rest cur : string) :
  slash_free p = true →
  split_go slash (p +:+ String slash rest) cur
  = (String.rev cur +:+ p) :: split_go slash rest "".
Proof.
  revert cur. induction p as [|c p IH]; intros cur Hp.
  - cbn. now rewrite append_empty_r.
  - cbn [slash_free all_chars] in Hp. apply andb_prop in Hp as [Hc Hp].
    apply negb_true_iff in Hc. rewrite append_cons. cbn [split_go].
    rewrite Hc, (IH _ Hp).
    unfold String.rev. cbn [String.rev_app]. now rewrite !rev_app_append.
Qed.

Lemma path_comps_proper (p : string) :
  Forall proper_comp (posixpath.path_comps p).
Proof.
  unfold posixpath.path_comps, split.
  pose proof (split_go_fields_slash_free p "" eq_refl) as H.
  induction H as [|c l Hc Hl IH].
  - constructor.
  - destruct (decide (c ≠ "" ∧ c ≠ ".")) as [Hd|Hd].
    + rewrite filter_cons_True by assumption.
      constructor; [|exact IH]. split; [exact Hc | exact Hd].
    + now rewrite filter_cons_False.
Qed.

Lemma split_join_proper (cp : list string) :
  Forall proper_comp cp → cp ≠ [] → split slash (join_with "/" cp) = cp.
Proof.
  intros H. induction H as [|c l (Hc & _ & _) Hl IH]; [contradiction|].
  intros _. destruct l as [|d l].
  - cbn [join_with]. now apply split_slash_free.
  - change (join_with "/" (c :: d :: l))
      with (c +:+ "/" +:+ join_with "/" (d :: l)).
    unfold split in *.
    change ("/" +:+ join_with "/" (d :: l))
      with (String slash (join_with "/" (d :: l))).
    rewrite (split_go_field_then_slash _ _ _ Hc).
    f_equal. now apply IH.
Qed.

Lemma filter_proper (cp : list string) :
  Forall proper_comp cp → filter (λ c, c ≠ "" ∧ c ≠ ".") cp = cp.
Proof.
  intros H. induction H as [|c l (_ & Hc) Hl IH]; [reflexivity|].
  rewrite filter_cons_True by exact Hc. now rewrite IH.
Qed.

Lemma path_comps_join (cp : list string) (rooted : bool) :
  Forall proper_comp cp →
  posixpath.path_comps ((if rooted then "/" else "") +:+ join_with "/" cp)
  = cp.
Proof.
  intros H. unfold posixpath.path_comps.
  destruct cp as [|c l].
  - now destruct rooted.
  - destruct rooted.
    + change ("/" +:+ join_with "/" (c :: l))
        with (String slash (join_with "/" (c :: l))).
      unfold split. cbn [split_go]. rewrite Ascii.eqb_refl.
      fold (split slash (join_with "/" (c :: l))).
      rewrite split_join_proper by (assumption || discriminate).
      rewrite filter_cons_False by (intros [? _]; contradiction).
      now apply filter_proper.
    + change ("" +:+ join_with "/" (c :: l)) with (join_with "/" (c :: l)).
      rewrite split_join_proper by (assumption || discriminate).
      now apply filter_proper.
Qed.

Lemma common_prefix_prefix (s1 s2 : list string) :
  posixpath.common_prefix s1 s2 `prefix_of` s1.
Proof.
  revert s2. induction s1 as [|c1 r1 IH]; intros [|c2 r2]; cbn;
    try apply prefix_nil.
  destruct (String.eqb_spec c1 c2); [|apply prefix_nil].
  now apply prefix_cons.
Qed.

Lemma common_prefix_proper (s1 s2 : list string) :
  Forall proper_comp s1 → Forall proper_comp (posixpath.common_prefix s1 s2).
Proof.
  intros H. destruct (common_prefix_prefix s1 s2) as [k Hk].
  rewrite Hk in H. now apply Forall_app in H as [H _].
Qed.

(** What the test [commonpath([path, root]) == root] establishes. *)
Lemma commonpath_contains (path root : string) :
  posixpath.commonpath path root = Ok root →
  posixpath.path_comps root `prefix_of` posixpath.path_comps path.
Proof.
  unfold posixpath.commonpath.
  destruct (negb (Bool.eqb (posixpath.isabs path) (posixpath.isabs root)));
    [discriminate|].
  intros [= H].
  rewrite <- H at 1.
  rewrite path_comps_join
    by apply common_prefix_proper, path_comps_proper.
  apply common_prefix_prefix.
Qed.

(** *** Absolute paths have no parent steps left *)

Lemma norm_comps_rooted (comps acc : list string) :
  Forall (λ c, slash_free c = true) comps →
  Forall (λ c, proper_comp c ∧ c ≠ "..") acc →
  Forall (λ c, proper_comp c ∧ c ≠ "..") (posixpath.norm_comps true comps acc).
Proof.
  intros Hc. revert acc. induction Hc as [|c l Hc Hl IH]; intros acc Hacc;
    cbn [posixpath.norm_comps]; [assumption|].
  destruct (String.eqb_spec c "") as [|Hne]; [now apply IH|].
  destruct (String.eqb_spec c ".") as [|Hnd]; [now apply IH|].
  cbn [orb negb andb].
  destruct (String.eqb_spec c "..") as [->|Hnp]; cbn [negb orb].
  - assert (Hlast : bool_decide (acc ≠ [])
                    && String.eqb (List.last acc "") ".." = false).
    { destruct acc as [|a acc'] using rev_ind; [reflexivity|].
      rewrite List.last_last. apply Forall_app in Hacc as [_ Ha].
      apply Forall_inv in Ha as [_ Ha].
      apply String.eqb_neq in Ha. rewrite Ha. apply andb_false_r. }
    rewrite Hlast. apply IH.
    destruct acc as [|a acc'] using rev_ind; [constructor|].
    rewrite List.removelast_last. now apply Forall_app in Hacc as [Hacc _].
  - apply IH. apply Forall_app. split; [assumption|].
    constructor; [|constructor]. repeat split; assumption.
Qed.

Lemma join_rooted (a b : string) :
  posixpath.isabs a = true → posixpath.isabs (posixpath.join a b) = true.
Proof.
  unfold posixpath.isabs, posixpath.join. intros Ha.
  destruct (startswith b "/") eqn:Hb; [exact Hb|].
  destruct a as [|c a]; [discriminate|].
  destruct (negb (truthy (String c a)) || endswith (String c a) "/");
    rewrite append_cons; exact Ha.
Qed.

Lemma abspath_comps (cwd path : string) :
  posixpath.isabs cwd = true →
  Forall (λ c, proper_comp c ∧ c ≠ "..")
         (posixpath.path_comps (posixpath.abspath cwd path)).
Proof.
  intros Hcwd. unfold posixpath.abspath.
  set (q := if posixpath.isabs path then path else posixpath.join cwd path).
  assert (Hq : posixpath.isabs q = true).
  { subst q. destruct (posixpath.isabs path) eqn:Hp; [exact Hp|].
    now apply join_rooted. }
  unfold posixpath.normpath. unfold posixpath.isabs in Hq.
  destruct q as [|c q]; [discriminate|]. cbn [truthy negb].
  rewrite Hq. cbn [andb].
  pose proof (norm_comps_rooted (split slash (String c q)) []
                (split_go_fields_slash_free _ "" eq_refl) (List.Forall_nil _))
    as Hn.
  set (comps := posixpath.norm_comps true (split slash (String c q)) []) in *.
  assert (Hp : Forall proper_comp comps).
  { eapply Forall_impl; [exact Hn|]. now intros x [Hx _]. }
  assert (H1 : posixpath.path_comps ("/" +:+ join_with "/" comps) = comps).
  { apply (path_comps_join comps true Hp). }
  assert (H2 : posixpath.path_comps ("//" +:+ join_with "/" comps) = comps).
  { unfold posixpath.path_comps in *. unfold split in *.
    change ("//" +:+ join_with "/" comps)
      with (String slash ("/" +:+ join_with "/" comps)).
    cbn [split_go]. rewrite Ascii.eqb_refl.
    rewrite filter_cons_False by (intros [? _]; contradiction).
    exact H1. }
  destruct (startswith (String c q) "//" && negb (startswith (String c q) "///")).
  - change (truthy ("//" +:+ join_with "/" comps)) with true. cbv iota.
    now rewrite H2.
  - change (truthy ("/" +:+ join_with "/" comps)) with true. cbv iota.
    now rewrite H1.
Qed.

(** X13. A file is served only from inside the audio directory: the
    components of the directory's absolute path begin those of the
    file's, which has no parent step left. *)
Theorem served_within_audio_dir (h : host) (now : Z) (filename : string)
    (expires : Z) (signature p : string) :
  get_audio_file h now filename expires signature = FileResponse p →
  p = posixpath.join AUDIO_DIR filename
  ∧ path_exists h p = true
  ∧ posixpath.path_comps (posixpath.abspath (getcwd h) AUDIO_DIR)
    `prefix_of` posixpath.path_comps (posixpath.abspath (getcwd h) p)
  ∧ (posixpath.isabs (getcwd h) = true →
     Forall (λ c, c ≠ "..")
            (posixpath.path_comps (posixpath.abspath (getcwd h) p))).
Proof.
  unfold get_audio_file.
  destruct ((expires =? 0) || negb (truthy signature)); [discriminate|].
  destruct (expires * 1000000 <? now); [discriminate|].
  destruct (compare_digest _ _) as [[|]|e]; try discriminate.
  unfold resolve_file.
  destruct (posixpath.commonpath _ _) as [common|e] eqn:Hc; [|discriminate].
  destruct (String.eqb_spec common
              (posixpath.abspath (getcwd h) AUDIO_DIR)) as [->|];
    [|discriminate].
  cbn [negb].
  destruct (path_exists h (posixpath.join AUDIO_DIR filename)) eqn:He;
    [|discriminate].
  cbn [negb]. intros [= <-]. split; [reflexivity|]. split; [exact He|].
  split; [now apply commonpath_contains|].
  intros Habs. eapply Forall_impl; [now apply abspath_comps|].
  now intros c [_ Hne].
Qed.

Lemma served_within_audio_dir_witness :
  posixpath.path_comps (posixpath.abspath "/srv/app" AUDIO_DIR)
  `prefix_of`
  posixpath.path_comps
    (posixpath.abspath "/srv/app" "generated_audio/audio_1.wav").
Proof.
  eapply (served_within_audio_dir demo_host 1700000000000000 "audio_1.wav"
           1700003600
           "4e723ccf40da50a566bb3dfa4f65c6e05ae9e7741930f5ccdb5bf84fef9b0b29"
           "generated_audio/audio_1.wav").
  vm_compute. reflexivity.
Defined.

(** X14. [delete_model] removes at most one path, which exists, lies
    inside the models directory and does not belong to the name of a
    loaded model; a directory goes through [rmtree], anything else through
    [remove]. *)
Theorem delete_model_confined (loaded : gmap string loaded_obj) (fs : files)
    (model_name : string) :
  let calls := fst (delete_model loaded fs model_name) in
  (length calls ≤ 1)%nat
  ∧ Forall (removal_ok loaded fs model_name) calls.
Proof.
  cbv zeta. unfold delete_model.
  destruct (bool_decide_reflect (is_Some (loaded !! model_name))) as [|Hl];
    [cbn; split; [lia | constructor]|].
  destruct (posixpath.commonpath _ _) as [common|e] eqn:Hc;
    [|cbn; split; [lia | constructor]].
  destruct (String.eqb_spec common
              (posixpath.abspath (fs_cwd fs) MODELS_DIR)) as [->|];
    [|cbn; split; [lia | constructor]].
  cbn [negb].
  destruct (fs_exists fs _) eqn:He; [|cbn; split; [lia | constructor]].
  cbn [negb].
  assert (Hok : ∀ c, removed_path c
                     = posixpath.abspath (fs_cwd fs)
                         (posixpath.join MODELS_DIR model_name) →
                c = (if fs_isdir fs (removed_path c)
                     then Rmtree (removed_path c)
                     else Remove (removed_path c)) →
                removal_ok loaded fs model_name c).
  { intros c Hp Hkind. unfold removal_ok. cbv zeta. rewrite Hp in *.
    split; [now apply eq_None_not_Some|]. split; [reflexivity|].
    split; [exact He|]. split; [exact Hkind|].
    split; [now apply commonpath_contains|].
    intros Habs. eapply Forall_impl; [now apply abspath_comps|].
    now intros x [_ Hx]. }
  destruct (fs_isdir fs _) eqn:Hd; cbn [fst length]; (split; [lia|]);
    (constructor; [|constructor]); apply Hok; cbn [removed_path];
    try reflexivity; now rewrite Hd.
Qed.

(** ** Cancelling one job and the others *)

Lemma append_inj_l (p a b : string) : p +:+ a = p +:+ b → a = b.
Proof.
  induction p as [|c p IH]; [trivial|].
  rewrite !append_cons. intros [= H]. now apply IH.
Qed.

Lemma cancel_key_inj (a b : string) : cancel_key a = cancel_key b → a = b.
Proof. apply append_inj_l. Qed.

(** X15. Cancelling a job leaves every other job alone: the marker of
    another job reads as before, nothing in the store but the job's own
    marker changes, no marker is ever cleared, and the only revocation
    added is that of the job itself. *)
Theorem cancel_task_isolated (metas : gmap string task_meta)
    (setex_error : option exc) (task_id other : string) (s : shared) :
  other ≠ task_id →
  let s' := fst (cancel_task metas setex_error task_id s) in
  stop_check_fn (Some other) (StoreUp (kv (sh_redis s')))
  = stop_check_fn (Some other) (StoreUp (kv (sh_redis s)))
  ∧ (∀ key, key ≠ cancel_key task_id →
       kv (sh_redis s') !! key = kv (sh_redis s) !! key
       ∧ ttl (sh_redis s') !! key = ttl (sh_redis s) !! key)
  ∧ (∀ id, stop_check_fn (Some id) (StoreUp (kv (sh_redis s))) = true →
       stop_check_fn (Some id) (StoreUp (kv (sh_redis s'))) = true)
  ∧ (∀ r, r ∈ sh_revoked s' → r ∈ sh_revoked s ∨ rv_task_id r = task_id).
Proof.
  intros Hother s'.
  assert (Hkv : ∀ key, key ≠ cancel_key task_id →
            kv (sh_redis s') !! key = kv (sh_redis s) !! key
            ∧ ttl (sh_redis s') !! key = ttl (sh_redis s) !! key).
  { intros key Hkey. subst s'. unfold cancel_task, setex.
    destruct (negb _); [|split; reflexivity].
    destruct setex_error; cbn; [split; reflexivity|].
    split; now apply lookup_insert_ne. }
  assert (Hmono : ∀ key, is_Some (kv (sh_redis s) !! key) →
            is_Some (kv (sh_redis s') !! key)).
  { intros key Hs. subst s'. unfold cancel_task, setex.
    destruct (negb _); [|exact Hs].
    destruct setex_error; cbn; [exact Hs|].
    destruct (decide (cancel_key task_id = key)) as [<-|Hne].
    - rewrite lookup_insert_eq. eauto.
    - now rewrite lookup_insert_ne. }
  split; [|split; [exact Hkv|split]].
  - unfold stop_check_fn, client_exists.
    destruct (Hkv (cancel_key (id_str (Some other)))) as [-> _];
      [|reflexivity].
    cbn [id_str]. intros H. now apply cancel_key_inj in H.
  - intros id. unfold stop_check_fn, client_exists.
    destruct (id_truthy (Some id)); [|discriminate].
    destruct (bool_decide_reflect
                (is_Some (kv (sh_redis s) !! cancel_key (id_str (Some id)))))
      as [Hs|]; [|discriminate].
    intros _. now rewrite (bool_decide_eq_true_2 _ (Hmono _ Hs)).
  - intros r. subst s'. unfold cancel_task.
    destruct (negb _); cbn; [|now left].
    rewrite elem_of_app, list_elem_of_singleton.
    intros [H| ->]; [now left | now right].
Qed.

Lemma cancel_task_isolated_witness :
  stop_check_fn (Some "job-2")
    (StoreUp (kv (sh_redis (fst (cancel_task ∅ None "job-1" empty_shared)))))
  = false.
Proof.
  destruct (cancel_task_isolated ∅ None "job-1" "job-2" empty_shared)
    as (H & _); [discriminate|].
  cbv zeta in H. rewrite H. reflexivity.
Defined.

(** ** From the finished job to the served file *)



Lemma task_backed (env : task_env) (text model_name : string)
    (speaker : option string) (cfg_scale : Q) (inference_steps user_id : Z) :
  completes_saved env text model_name speaker cfg_scale inference_steps
    user_id
    (generate_audio_task env text model_name speaker cfg_scale
                         inference_steps user_id).
Proof.
  intros ms id row. unfold generate_audio_task, try_except.
  pose proof (task_body_backed env text model_name speaker cfg_scale
                inference_steps user_id ms id row) as Hb.
  destruct (task_body env text model_name speaker cfg_scale inference_steps
                      user_id ms) as [ms1 evs1 [p|e]];
    cbn [events result models_after] in *; [exact Hb|].
  unfold job_boundary.
  destruct (is_soft_time_limit e); cbn; discriminate.
Qed.



(** ** Model downloads *)

Example repo_id_of_link :
  repo_id_of "  https://huggingface.co/microsoft/VibeVoice-1.5B/ "
  = "microsoft/VibeVoice-1.5B"
  ∧ repo_id_of "microsoft/VibeVoice-Realtime-0.5B"
    = "microsoft/VibeVoice-Realtime-0.5B"
  ∧ repo_id_of "huggingface.co/a/huggingface.co/b" = "b".
Proof. vm_compute. repeat split. Qed.

(** X17. A download is scheduled exactly for the identifiers of the
    whitelist that have no download under way; whatever the request looks
    like, nothing else is ever scheduled, the token is handed on as given,
    and every refusal is a 400. *)
Theorem download_model_whitelist (url : string) (hf_token : option string)
    (dp : gmap string download_entry) :
  let repo_id := repo_id_of url in
  let out := download_model url hf_token dp in
  if bool_decide (repo_id ∈ ALLOWED_MODELS) && negb (download_active dp repo_id)
  then
    out = ([(repo_id, hf_token)],
           Reply ("Download started for " +:+ repo_id
                  +:+ ". Check logs or refresh models list later."))
  else
    fst out = [] ∧ ∃ detail, snd out = HTTPError 400 detail.
Proof.
  cbv zeta. unfold download_model.
  destruct (bool_decide_reflect (repo_id_of url ∈ ALLOWED_MODELS)) as [Hin|Hout].
  - assert (Hfmt : negb (truthy (repo_id_of url))
                   || negb (count_char "/" (repo_id_of url) =? 1)%nat
                   = false).
    { unfold ALLOWED_MODELS in Hin.
      apply elem_of_cons in Hin as [->|Hin]; [reflexivity|].
      apply list_elem_of_singleton in Hin as ->. reflexivity. }
    rewrite Hfmt. cbn [negb andb].
    destruct (download_active dp (repo_id_of url)); cbn [negb];
      [split; eauto | reflexivity].
  - cbn [negb andb].
    destruct (negb (truthy _) || negb _); cbn; split; eauto.
Qed.

Lemma on_update_others (repo_id other : string) (ticks : list tqdm_tick)
    (dp : gmap string download_entry) :
  other ≠ repo_id →
  fold_left (on_update repo_id) ticks dp !! other = dp !! other.
Proof.
  intros Hne. revert dp. induction ticks as [|t ticks IH]; intros dp;
    [reflexivity|].
  cbn [fold_left]. rewrite IH. unfold on_update.
  destruct (tq_total t) as [total|]; [|reflexivity].
  destruct (Qlt_le_dec 0 total); [|reflexivity].
  now apply lookup_insert_ne.
Qed.

(** X18. A download task always ends with its entry at "completed" or
    "error" (with the message of the exception), never at a status that
    counts as under way; it touches no other entry; and the identifier can
    then be requested again. *)
Theorem download_task_settles (snapshot_download : snapshot)
    (repo_id : string) (token : option string)
    (dp : gmap string download_entry) :
  let dp' := download_model_task snapshot_download repo_id token dp in
  let res := snd (snapshot_download repo_id (local_dir_of repo_id) token) in
  dl_status (get_model_download_status repo_id dp')
  = match res with Ok _ => "completed" | Raise _ => "error" end
  ∧ dl_detail (get_model_download_status repo_id dp')
    = match res with Ok _ => None | Raise e => Some (exc_str e) end
  ∧ download_active dp' repo_id = false
  ∧ (∀ other, other ≠ repo_id → dp' !! other = dp !! other)
  ∧ (repo_id ∈ ALLOWED_MODELS →
     ∀ hf_token, is_scheduled (download_model repo_id hf_token dp') = true).
Proof.
  cbv zeta. unfold download_model_task.
  destruct (snapshot_download repo_id (local_dir_of repo_id) token)
    as [ticks res].
  cbn [snd].
  set (dp2 := fold_left (on_update repo_id) ticks _).
  assert (Hothers : ∀ other, other ≠ repo_id → dp2 !! other = dp !! other).
  { intros other Hne. subst dp2. rewrite on_update_others by assumption.
    now rewrite lookup_insert_ne by congruence. }
  assert (Hrepo : repo_id ∈ ALLOWED_MODELS →
            repo_id_of repo_id = repo_id
            ∧ negb (truthy repo_id)
              || negb (count_char "/" repo_id =? 1)%nat = false).
  { unfold ALLOWED_MODELS. intros Hin.
    apply elem_of_cons in Hin as [->|Hin]; [split; reflexivity|].
    apply list_elem_of_singleton in Hin as ->. split; reflexivity. }
  destruct res as [[]|e];
    (split; [|split; [|split; [|split]]]);
    try (unfold get_model_download_status, download_active;
         now rewrite lookup_insert_eq).
  - intros other Hne. rewrite lookup_insert_ne by congruence. now apply Hothers.
  - intros Hin hf_token. destruct (Hrepo Hin) as [Hid Hfmt].
    unfold download_model. rewrite Hid, Hfmt.
    rewrite (bool_decide_eq_true_2 _ Hin). cbn [negb].
    unfold download_active. now rewrite lookup_insert_eq.
  - intros other Hne. rewrite lookup_insert_ne by congruence. now apply Hothers.
  - intros Hin hf_token. destruct (Hrepo Hin) as [Hid Hfmt].
    unfold download_model. rewrite Hid, Hfmt.
    rewrite (bool_decide_eq_true_2 _ Hin). cbn [negb].
    unfold download_active. now rewrite lookup_insert_eq.
Qed.

Lemma download_task_settles_witness :
  let offline : snapshot :=
    λ _ _ _, ([], Raise (Exc LibraryError "offline")) in
  is_scheduled
    (download_model "microsoft/VibeVoice-1.5B" None
       (download_model_task offline "microsoft/VibeVoice-1.5B" None ∅))
  = true.
Proof.
  cbv zeta.
  apply (download_task_settles
           (λ _ _ _, ([], Raise (Exc LibraryError "offline")))
           "microsoft/VibeVoice-1.5B" None ∅).
  now constructor.
Defined.

Lemma replace_char_gone (c d : ascii) (s : string) :
  c ≠ d → count_char c (replace_char c d s) = 0%nat.
Proof.
  intros Hcd. induction s as [|x s IH]; [reflexivity|].
  cbn [replace_char count_char]. rewrite IH.
  destruct (Ascii.eqb_spec x c) as [->|Hx].
  - destruct (Ascii.eqb_spec d c); [congruence | reflexivity].
  - destruct (Ascii.eqb_spec x c); [contradiction | reflexivity].
Qed.

Lemma count_char_slash_free (s : string) :
  count_char slash s = 0%nat → slash_free s = true.
Proof.
  induction s as [|x s IH]; [reflexivity|].
  cbn [count_char slash_free all_chars].
  destruct (Ascii.eqb x slash); [discriminate|]. exact IH.
Qed.

(** X19. What a download leaves behind is what the loader picks up: the
    folder of a whitelisted model lies directly in the models directory
    under a name without a slash; given that name, the loader resolves
    the same folder, takes the VibeVoice loader and tells the Realtime
    model from the standard one as the identifier does. *)
Theorem downloaded_model_loads (rt : runtime) (repo_id : string) :
  repo_id ∈ ALLOWED_MODELS →
  let entry := replace_char "/" "_" repo_id in
  local_dir_of repo_id = posixpath.join MODELS_DIR entry
  ∧ slash_free entry = true
  ∧ (os_path_exists rt (local_dir_of repo_id) = true →
     resolve_model_path rt entry = local_dir_of repo_id)
  ∧ contains "VibeVoice" entry = true
  ∧ is_realtime_model entry = is_realtime_model repo_id.
Proof.
  intros Hin entry. split; [reflexivity|]. split.
  { apply count_char_slash_free, replace_char_gone. discriminate. }
  split.
  { intros He. unfold resolve_model_path.
    change (posixpath.join MODELS_DIR entry) with (local_dir_of repo_id).
    now rewrite He. }
  subst entry. unfold ALLOWED_MODELS in Hin.
  apply elem_of_cons in Hin as [->|Hin]; [split; reflexivity|].
  apply list_elem_of_singleton in Hin as ->. split; reflexivity.
Qed.

Lemma downloaded_model_loads_witness :
  resolve_model_path demo_runtime "microsoft_VibeVoice-1.5B"
  = "local_models/microsoft_VibeVoice-1.5B".
Proof.
  destruct (downloaded_model_loads demo_runtime "microsoft/VibeVoice-1.5B")
    as (_ & _ & H & _); [now constructor|].
  apply H. reflexivity.
Defined.

(** ** Listings *)

(** *** Ends of strings *)

Lemma rev_app_rev_app (s a b : string) :
  String.rev_app (String.rev_app s a) b = String.rev_app a (s +:+ b).
Proof.
  revert a. induction s as [|c s IH]; intros a; [reflexivity|].
  cbn [String.rev_app]. rewrite IH. reflexivity.
Qed.

Lemma rev_rev (s : string) : String.rev (String.rev s) = s.
Proof.
  unfold String.rev. rewrite rev_app_rev_app. cbn. apply append_empty_r.
Qed.

Lemma rev_append (a b : string) :
  String.rev (a +:+ b) = String.rev b +:+ String.rev a.
Proof.
  unfold String.rev. rewrite rev_app_append.
  change ("" +:+ String.rev_app a "") with (String.rev_app a "").
  generalize "". induction a as [|c a IH]; intros acc; [reflexivity|].
  rewrite append_cons. cbn [String.rev_app]. apply IH.
Qed.

Lemma startswith_app (p s : string) : startswith (p +:+ s) p = true.
Proof.
  induction p as [|c p IH]; [reflexivity|].
  rewrite append_cons. cbn [startswith]. now rewrite Ascii.eqb_refl.
Qed.

Lemma startswith_split (s p : string) :
  startswith s p = true → ∃ r, s = p +:+ r.
Proof.
  revert s. induction p as [|c p IH]; intros s; [exists s; reflexivity|].
  destruct s as [|d s]; [discriminate|]. cbn [startswith].
  intros H. apply andb_prop in H as [Hc Hs]. apply Ascii.eqb_eq in Hc as ->.
  destruct (IH _ Hs) as [r ->]. exists r. reflexivity.
Qed.

Lemma endswith_app (v ext : string) : endswith (v +:+ ext) ext = true.
Proof. unfold endswith. rewrite rev_append. apply startswith_app. Qed.

Lemma endswith_split (f ext : string) :
  endswith f ext = true → ∃ v, f = v +:+ ext.
Proof.
  unfold endswith. intros H. apply startswith_split in H as [r Hr].
  exists (String.rev r).
  rewrite <- (rev_rev f), Hr, rev_append. now rewrite rev_rev.
Qed.

Lemma length_append (a b : string) :
  String.length (a +:+ b) = (String.length a + String.length b)%nat.
Proof.
  induction a as [|c a IH]; [reflexivity|].
  rewrite append_cons. cbn [String.length]. now rewrite IH.
Qed.

Lemma substring_front (a b : string) :
  String.substring 0 (String.length a) (a +:+ b) = a.
Proof.
  induction a as [|c a IH]; [now destruct b|].
  rewrite append_cons. cbn [String.length String.substring]. now rewrite IH.
Qed.

Lemma drop_end_app (v ext : string) :
  drop_end (String.length ext) (v +:+ ext) = v.
Proof.
  unfold drop_end. rewrite length_append.
  replace (String.length v + String.length ext - String.length ext)%nat
    with (String.length v) by lia.
  apply substring_front.
Qed.

(** The stems of the files with a given ending. *)
Lemma stems_spec (ext : string) (keep : string → bool) (listing : list string)
    (v : string) :
  In v (map (drop_end (String.length ext))
            (List.filter (λ f, endswith f ext && keep f) listing))
  ↔ In (v +:+ ext) listing ∧ keep (v +:+ ext) = true.
Proof.
  rewrite in_map_iff. split.
  - intros (f & <- & Hf). apply List.filter_In in Hf as [Hin Hf].
    apply andb_prop in Hf as [He Hk].
    destruct (endswith_split _ _ He) as [v ->].
    rewrite drop_end_app. now split.
  - intros [Hin Hk]. exists (v +:+ ext). split; [apply drop_end_app|].
    apply List.filter_In. split; [exact Hin|].
    now rewrite endswith_app, Hk.
Qed.

(** *** Sorting *)

Section Sorting.
Context {A : Type} (leb : A → A → bool).
Hypothesis leb_total : ∀ x y, leb x y = true ∨ leb y x = true.
Hypothesis leb_trans : ∀ x y z, leb x y = true → leb y z = true →
                                leb x z = true.

Lemma insert_by_perm (x : A) (l : list A) : insert_by leb x l ≡ₚ x :: l.
Proof.
  induction l as [|y l IH]; cbn; [reflexivity|].
  destruct (leb x y); [reflexivity|]. rewrite IH. apply Permutation_swap.
Qed.

Lemma sort_by_perm (l : list A) : sort_by leb l ≡ₚ l.
Proof.
  induction l as [|x l IH]; cbn; [reflexivity|].
  rewrite insert_by_perm. now rewrite IH.
Qed.

Lemma insert_by_sorted (x : A) (l : list A) :
  StronglySorted (λ a b, leb a b = true) l →
  StronglySorted (λ a b, leb a b = true) (insert_by leb x l).
Proof.
  induction 1 as [|y l Hl IH Hy]; cbn; [repeat constructor|].
  destruct (leb x y) eqn:Hxy.
  - constructor; [now constructor|].
    constructor; [exact Hxy|].
    eapply Forall_impl; [exact Hy|]. intros z Hz. now apply (leb_trans x y z).
  - constructor; [exact IH|].
    assert (Hyx : leb y x = true).
    { destruct (leb_total x y) as [H|H]; [congruence | exact H]. }
    eapply Permutation_Forall; [symmetry; apply insert_by_perm|].
    now constructor.
Qed.

Lemma sort_by_sorted (l : list A) :
  StronglySorted (λ a b, leb a b = true) (sort_by leb l).
Proof.
  induction l as [|x l IH]; cbn; [constructor | now apply insert_by_sorted].
Qed.

End Sorting.

Lemma ascii_compare_N (a b : ascii) :
  Ascii.compare a b = N.compare (N_of_ascii a) (N_of_ascii b).
Proof. reflexivity. Qed.

Lemma string_leb_trans (x y z : string) :
  String.leb x y = true → String.leb y z = true → String.leb x z = true.
Proof.
  unfold String.leb.
  assert (H : ∀ x y z,
            String.compare x y ≠ Gt → String.compare y z ≠ Gt →
            String.compare x z ≠ Gt).
  { clear. induction x as [|a x IH]; intros [|b y] [|c z]; cbn;
      try congruence.
    rewrite !ascii_compare_N.
    destruct (N.compare_spec (N_of_ascii a) (N_of_ascii b)) as [Hab|Hab|Hab];
      destruct (N.compare_spec (N_of_ascii b) (N_of_ascii c)) as [Hbc|Hbc|Hbc];
      destruct (N.compare_spec (N_of_ascii a) (N_of_ascii c)) as [Hac|Hac|Hac];
      try congruence; try lia; try apply IH. }
  intros Hxy Hyz. specialize (H x y z).
  destruct (String.compare x y); destruct (String.compare y z);
    destruct (String.compare x z); try discriminate; try reflexivity;
    exfalso; apply H; congruence.
Qed.

Lemma voice_key_leb_total (x y : string) :
  voice_key_leb x y = true ∨ voice_key_leb y x = true.
Proof.
  unfold voice_key_leb.
  destruct (is_english x), (is_english y); cbn; auto using String.leb_total.
Qed.

Lemma voice_key_leb_trans (x y z : string) :
  voice_key_leb x y = true → voice_key_leb y z = true →
  voice_key_leb x z = true.
Proof.
  unfold voice_key_leb.
  destruct (is_english x), (is_english y), (is_english z); cbn;
    try discriminate; try reflexivity; apply string_leb_trans.
Qed.

Lemma stems_of (ext : string) (P keep : string → bool)
    (listing : list string) (v : string) :
  (∀ f, P f = endswith f ext && keep f) →
  In v (map (drop_end (String.length ext)) (List.filter P listing))
  ↔ In (v +:+ ext) listing ∧ keep (v +:+ ext) = true.
Proof.
  intros HP. rewrite (List.filter_ext P _ HP). apply stems_spec.
Qed.

(** In a list in the order of the voice keys the English voices come
    first, and both groups are in ascending order. *)
Lemma english_first (l : list string) :
  StronglySorted (λ a b, voice_key_leb a b = true) l →
  ∃ english others,
    l = english ++ others
    ∧ Forall (λ v, is_english v = true) english
    ∧ Forall (λ v, is_english v = false) others
    ∧ StronglySorted (λ a b, String.leb a b = true) english
    ∧ StronglySorted (λ a b, String.leb a b = true) others.
Proof.
  induction 1 as [|x l Hl (en & oth & -> & Hen & Hoth & Sen & Soth) Hx].
  - exists [], []. repeat split; constructor.
  - apply Forall_app in Hx as [Hxen Hxoth].
    destruct (is_english x) eqn:Ex.
    + exists (x :: en), oth. split; [reflexivity|].
      split; [now constructor|]. split; [exact Hoth|].
      split; [|exact Soth]. constructor; [exact Sen|].
      rewrite Forall_forall in Hxen, Hen |- *. intros y Hy.
      specialize (Hxen y Hy). specialize (Hen y Hy).
      unfold voice_key_leb in Hxen. now rewrite Ex, Hen in Hxen.
    + assert (en = []) as ->.
      { destruct en as [|y en]; [reflexivity|]. exfalso.
        apply Forall_inv in Hxen, Hen. unfold voice_key_leb in Hxen.
        now rewrite Ex, Hen in Hxen. }
      exists [], (x :: oth). split; [reflexivity|].
      split; [constructor|]. split; [now constructor|].
      split; [constructor|]. constructor; [exact Soth|].
      rewrite Forall_forall in Hxoth, Hoth |- *. intros y Hy.
      specialize (Hxoth y Hy). specialize (Hoth y Hy).
      unfold voice_key_leb in Hxoth. now rewrite Ex, Hoth in Hxoth.
Qed.

Lemma In_sort_by {A} (leb : A → A → bool) (l : list A) (x : A) :
  In x (sort_by leb l) ↔ In x l.
Proof.
  split; apply Permutation_in;
    [apply sort_by_perm | symmetry; apply sort_by_perm].
Qed.

Lemma voices_members (fs : files) (module_dir model_type : string)
    (voices : list string) :
  get_available_voices fs module_dir model_type = Ok voices →
  let streaming := String.eqb model_type "streaming" in
  let dir := if streaming then streaming_voices module_dir
             else standard_voices module_dir in
  let ext := if streaming then ".pt" else ".wav" in
  ∀ v, In v voices
       ↔ fs_exists fs dir = true
         ∧ ∃ listing, fs_listdir fs dir = Ok listing
                      ∧ In (v +:+ ext) listing
                      ∧ (streaming = false →
                         fs_isfile fs (posixpath.join dir (v +:+ ext))
                         = true).
Proof.
  intros H streaming dir ext. unfold get_available_voices in H.
  intros v. subst streaming dir ext.
  destruct (String.eqb model_type "streaming").
  - destruct (fs_exists fs (streaming_voices module_dir)).
    + destruct (fs_listdir fs (streaming_voices module_dir)) as [listing|e];
        [|discriminate].
      injection H as <-. rewrite In_sort_by.
      change 3%nat with (String.length ".pt").
      rewrite (stems_of ".pt" _ (λ _, true))
        by (intros f; now rewrite andb_true_r).
      split.
      * intros [Hin _]. split; [reflexivity|]. exists listing.
        repeat split; [exact Hin | discriminate].
      * intros (_ & l' & [= <-] & Hin & _). now split.
    + injection H as <-. cbn. split; [intros [] | now intros [? _]].
  - destruct (fs_exists fs (standard_voices module_dir)).
    + destruct (fs_listdir fs (standard_voices module_dir)) as [listing|e];
        [|discriminate].
      injection H as <-. rewrite In_sort_by.
      change 4%nat with (String.length ".wav").
      rewrite (stems_of ".wav" _
                 (λ f, fs_isfile fs
                         (posixpath.join (standard_voices module_dir) f)))
        by reflexivity.
      split.
      * intros [Hin Hfile]. split; [reflexivity|]. exists listing.
        repeat split; [exact Hin | intros _; exact Hfile].
      * intros (_ & l' & [= <-] & Hin & Hfile). split; [exact Hin|].
        now apply Hfile.
    + injection H as <-. cbn. split; [intros [] | now intros [? _]].
Qed.

(** X20. The voices offered for a model family are exactly the stems of
    the files with the family's ending in the family's directory (regular
    files only, for the standard family), the English ones first, each
    group in ascending order. *)
Theorem available_voices_listing (fs : files) (module_dir model_type : string)
    (voices : list string) :
  get_available_voices fs module_dir model_type = Ok voices →
  let streaming := String.eqb model_type "streaming" in
  let dir := if streaming then streaming_voices module_dir
             else standard_voices module_dir in
  let ext := if streaming then ".pt" else ".wav" in
  (∀ v, In v voices
        ↔ fs_exists fs dir = true
          ∧ ∃ listing, fs_listdir fs dir = Ok listing
                       ∧ In (v +:+ ext) listing
                       ∧ (streaming = false →
                          fs_isfile fs (posixpath.join dir (v +:+ ext))
                          = true))
  ∧ ∃ english others,
      voices = english ++ others
      ∧ Forall (λ v, is_english v = true) english
      ∧ Forall (λ v, is_english v = false) others
      ∧ StronglySorted (λ a b, String.leb a b = true) english
      ∧ StronglySorted (λ a b, String.leb a b = true) others.
Proof.
  intros H streaming dir ext. split; [now apply voices_members|].
  unfold get_available_voices in H.
  destruct (if String.eqb model_type "streaming" then _ else _)
    as [raw|e]; [|discriminate].
  injection H as <-. apply english_first.
  apply sort_by_sorted; [apply voice_key_leb_total | apply voice_key_leb_trans].
Qed.

Lemma available_voices_listing_witness :
  ∃ english others,
    ["en-Alice"; "en-Carter_man"; "zh-Bowen_man"] = english ++ others
    ∧ Forall (λ v, is_english v = true) english
    ∧ Forall (λ v, is_english v = false) others
    ∧ StronglySorted (λ a b, String.leb a b = true) english
    ∧ StronglySorted (λ a b, String.leb a b = true) others.
Proof.
  apply (available_voices_listing demo_files "/srv/app" "streaming"
           ["en-Alice"; "en-Carter_man"; "zh-Bowen_man"]).
  vm_compute. reflexivity.
Defined.

(** X21. The speakers of a model are the voices of its family: the table
    of named speakers holds no speaker for any model, so that the answer
    is always the whole pool, chosen by the same test on the model name
    as the loader and the worker use. Both directories are listed on
    every request, and a failure of either fails the request. *)
Theorem model_speakers_are_pool (fs : files) (module_dir model_name : string) :
  get_model_speakers fs module_dir model_name
  = match get_available_voices fs module_dir "streaming" with
    | Raise e => Raise e
    | Ok streaming =>
        match get_available_voices fs module_dir "standard" with
        | Raise e => Raise e
        | Ok standard =>
            Ok (if is_realtime_model model_name then streaming else standard)
        end
    end.
Proof.
  unfold get_model_speakers, is_realtime_model.
  destruct (get_available_voices fs module_dir "streaming") as [s|e];
    [|reflexivity].
  destruct (get_available_voices fs module_dir "standard") as [t|e];
    [|reflexivity].
  assert (Hnone : match MODEL_VOICES !! model_name with
                  | Some speakers => speakers
                  | None => default [] (MODEL_VOICES !! "default")
                  end = []).
  { unfold MODEL_VOICES.
    destruct (decide (model_name = "default")) as [->|Hne].
    - now rewrite lookup_singleton_eq.
    - rewrite lookup_singleton_ne by congruence.
      now rewrite lookup_singleton_eq. }
  rewrite Hnone. reflexivity.
Qed.

Lemma pool_of_family (fs : files) (module_dir model_name : string)
    (speakers : list string) :
  get_model_speakers fs module_dir model_name = Ok speakers →
  get_available_voices fs module_dir
    (if is_realtime_model model_name then "streaming" else "standard")
  = Ok speakers.
Proof.
  unfold get_model_speakers, is_realtime_model.
  destruct (get_available_voices fs module_dir "streaming") as [s|e] eqn:Hs;
    [|discriminate].
  destruct (get_available_voices fs module_dir "standard") as [t|e] eqn:Ht;
    [|discriminate].
  assert (Hnone : match MODEL_VOICES !! model_name with
                  | Some speakers => speakers
                  | None => default [] (MODEL_VOICES !! "default")
                  end = []).
  { unfold MODEL_VOICES.
    destruct (decide (model_name = "default")) as [->|Hne].
    - now rewrite lookup_singleton_eq.
    - rewrite lookup_singleton_ne by congruence.
      now rewrite lookup_singleton_eq. }
  rewrite Hnone. cbn beta iota zeta.
  destruct (contains "Realtime" model_name || contains "0.5B" model_name);
    intros [= <-]; assumption.
Qed.

(** X22. A speaker offered for a model is one the worker finds: the
    first thing that the generation for this model and speaker does is to
    ask for a file that the voices directory lists. *)
Theorem offered_voice_is_found (fs : files) (env : task_env)
    (text model_name v : string) (speakers : list string) (cfg_scale : Q)
    (inference_steps : Z) (ms : gmap string loaded_obj) :
  get_model_speakers fs (module_dir env) model_name = Ok speakers →
  In v speakers →
  v ≠ "" →
  let ext := if is_realtime_model model_name then ".pt" else ".wav" in
  let voice_file := posixpath.join (voices_dir env model_name) (v +:+ ext) in
  (∃ listing, fs_listdir fs (voices_dir env model_name) = Ok listing
              ∧ In (v +:+ ext) listing)
  ∧ ∃ rest,
      events (synthesize env text model_name (Some v) cfg_scale
                         inference_steps ms)
      = EvPathExists voice_file :: rest.
Proof.
  intros Hs Hv Hne ext voice_file. split.
  - apply pool_of_family in Hs.
    pose proof (voices_members _ _ _ _ Hs) as Hm. cbv zeta in Hm.
    apply Hm in Hv as (_ & listing & Hl & Hin & _).
    exists listing. subst ext. unfold voices_dir.
    destruct (is_realtime_model model_name); cbn in Hl, Hin |- *; auto.
  - subst voice_file ext. unfold synthesize, voices_dir.
    destruct v as [|c v]; [contradiction|].
    destruct (is_realtime_model model_name).
    + unfold synthesize_streaming. rewrite !events_bind.
      cbn [call events app]. eauto.
    + unfold synthesize_standard. rewrite !events_bind.
      cbn [call events app]. eauto.
Qed.

Lemma offered_voice_is_found_witness :
  ∃ listing,
    fs_listdir demo_files "/srv/app/VibeVoice1.5/demo/voices/streaming_model"
    = Ok listing
    ∧ In "en-Alice.pt" listing.
Proof.
  apply (offered_voice_is_found demo_files
           (demo_env demo_runtime None (StoreUp ∅) (StoreUp ∅) "STARTED")
           "hello" realtime_model "en-Alice"
           ["en-Alice"; "en-Carter_man"; "zh-Bowen_man"] (3 # 2) 5 ∅);
    [vm_compute; reflexivity | now left | discriminate].
Defined.

(** X23. The models offered are exactly the entries of the models
    directory that are folders, or regular files with the ending of a
    model file in any letter case; they come in ascending order. Without
    the directory the list is empty. *)
Theorem available_models_listing (fs : files) (models : list string) :
  get_available_models fs = Ok models →
  StronglySorted (λ a b, String.leb a b = true) models
  ∧ ∀ m, In m models
         ↔ fs_exists fs MODELS_DIR = true
           ∧ ∃ listing,
               fs_listdir fs MODELS_DIR = Ok listing
               ∧ In m listing
               ∧ (fs_isdir fs (posixpath.join MODELS_DIR m) = true
                  ∨ fs_isfile fs (posixpath.join MODELS_DIR m) = true
                    ∧ ∃ suffix, In suffix model_suffixes
                                ∧ endswith (lower m) suffix = true).
Proof.
  unfold get_available_models. intros H. split.
  { destruct (fs_exists fs MODELS_DIR);
      [destruct (fs_listdir fs MODELS_DIR); [|discriminate]|];
      injection H as <-;
      first [ apply sort_by_sorted;
              [apply String.leb_total | apply string_leb_trans]
            | constructor ]. }
  intros m. destruct (fs_exists fs MODELS_DIR).
  - destruct (fs_listdir fs MODELS_DIR) as [listing|e]; [|discriminate].
    injection H as <-. rewrite In_sort_by, List.filter_In.
    unfold is_model_entry. rewrite orb_true_iff, andb_true_iff, existsb_exists.
    split.
    + intros [Hin Hm]. split; [reflexivity|]. exists listing. auto.
    + intros (_ & l' & [= <-] & Hin & Hm). auto.
  - injection H as <-. cbn. split; [intros [] | now intros [? _]].
Qed.

Lemma available_models_listing_witness :
  StronglySorted (λ a b, String.leb a b = true)
                 ["microsoft_VibeVoice-1.5B"; "tiny.PT"].
Proof.
  apply (available_models_listing demo_files
           ["microsoft_VibeVoice-1.5B"; "tiny.PT"]).
  vm_compute. reflexivity.
Defined.

(** ** The job and the model cache *)

Section KeepsModels.

Lemma keeps_ret {A} (a : A) : keeps_models (ret a).
Proof. intros ms. reflexivity. Qed.

Lemma keeps_raise {A} (e : exc) : keeps_models (@raise A e).
Proof. intros ms. reflexivity. Qed.

Lemma keeps_lift {A} (o : outcome A) : keeps_models (lift o).
Proof. intros ms. reflexivity. Qed.

Lemma keeps_call {A} (ev : event) (o : outcome A) : keeps_models (call ev o).
Proof. intros ms. reflexivity. Qed.

Lemma keeps_bind {A B} (m : M A) (k : A → M B) :
  keeps_models m → (∀ a, keeps_models (k a)) → keeps_models (bind m k).
Proof.
  intros Hm Hk ms. unfold bind. specialize (Hm ms).
  destruct (m ms) as [ms1 evs1 [a|e]]; cbn in *; [|assumption].
  specialize (Hk a ms1). destruct (k a ms1) as [ms2 evs2 r]; cbn in *.
  congruence.
Qed.

Lemma keeps_try_except {A} (m : M A) (handler : exc → M A) :
  keeps_models m → (∀ e, keeps_models (handler e)) →
  keeps_models (try_except m handler).
Proof.
  intros Hm Hh ms. unfold try_except. specialize (Hm ms).
  destruct (m ms) as [ms1 evs1 [a|e]]; cbn in *; [assumption|].
  specialize (Hh e ms1). destruct (handler e ms1) as [ms2 evs2 r]; cbn in *.
  congruence.
Qed.

Lemma keeps_try_finally {A} (m : M A) (f : M unit) :
  keeps_models m → keeps_models f → keeps_models (try_finally m f).
Proof.
  intros Hm Hf ms. unfold try_finally. specialize (Hm ms).
  destruct (m ms) as [ms1 evs1 r]; cbn in *.
  specialize (Hf ms1). destruct (f ms1) as [ms2 evs2 [[]|e]]; cbn in *;
    congruence.
Qed.

End KeepsModels.

Ltac keeps_step :=
  lazymatch goal with
  | |- keeps_models (ret _) => apply keeps_ret
  | |- keeps_models (raise _) => apply keeps_raise
  | |- keeps_models (lift _) => apply keeps_lift
  | |- keeps_models (call _ _) => apply keeps_call
  | |- keeps_models (progress _ _) => apply keeps_call
  | |- keeps_models (bind _ _) => apply keeps_bind; [|intros ?]
  | |- keeps_models (try_except _ _) => apply keeps_try_except; [|intros ?]
  | |- keeps_models (try_finally _ _) => apply keeps_try_finally
  | |- keeps_models (if ?b then _ else _) => destruct b
  | |- keeps_models (match ?x with _ => _ end) => destruct x
  end.

Ltac keeps_auto := repeat keeps_step.

Lemma after_load_keeps (env : task_env) (text model_name : string)
    (speaker : option string) (cfg_scale : Q) (inference_steps user_id : Z)
    (prepared : option loaded_obj) :
  keeps_models
    match prepared with
    | None => ret (Cancelled "Task was cancelled")
    | Some (VibeVoiceObj _ _ _) =>
        run_vibevoice env text model_name speaker cfg_scale inference_steps
                      user_id
    | Some (PipelineObj _) =>
        output <- call (EvPipeCall text) (pipe_call env text) ;;
        save_audio env text model_name speaker cfg_scale inference_steps
                   user_id (fst output) (snd output)
    end.
Proof.
  assert (Hsave : ∀ audio rate,
            keeps_models (save_audio env text model_name speaker cfg_scale
                                     inference_steps user_id audio rate)).
  { intros audio rate. unfold save_audio, state_revoked. keeps_auto. }
  destruct prepared as [[m p t|pipe]|].
  - unfold run_vibevoice, synthesize, synthesize_streaming,
      synthesize_standard.
    apply keeps_bind; [keeps_auto|intros _].
    apply keeps_bind; [keeps_auto|intros outputs].
    apply keeps_bind; [keeps_auto|intros [|]]; [keeps_auto|].
    destruct outputs as [|[audio|] ?];
      [apply keeps_raise | apply Hsave | apply keeps_raise].
  - apply keeps_bind; [keeps_auto | intros output; apply Hsave].
  - apply keeps_ret.
Qed.

Lemma models_after_bind {A B} (m : M A) (k : A → M B)
    (ms : gmap string loaded_obj) :
  (∀ a, keeps_models (k a)) →
  models_after (bind m k ms) = models_after (m ms).
Proof.
  intros Hk. unfold bind. destruct (m ms) as [ms1 evs1 [a|e]]; [|reflexivity].
  specialize (Hk a ms1). now destruct (k a ms1).
Qed.

Lemma models_after_try_except {A} (m : M A) (handler : exc → M A)
    (ms : gmap string loaded_obj) :
  (∀ e, keeps_models (handler e)) →
  models_after (try_except m handler ms) = models_after (m ms).
Proof.
  intros Hh. unfold try_except.
  destruct (m ms) as [ms1 evs1 [a|e]]; [reflexivity|].
  specialize (Hh e ms1). now destruct (handler e ms1).
Qed.

Lemma job_boundary_keeps (e : exc) : keeps_models (job_boundary e).
Proof. unfold job_boundary. keeps_auto. Qed.

Lemma prepare_after_load (env : task_env) (model_name : string)
    (speaker : option string) (ms : gmap string loaded_obj) :
  models_after (prepare env model_name speaker ms)
  = match update_state env "Loading model..." with
    | Ok _ => models_after (load_model_pipeline (loader env) model_name ms)
    | Raise _ => ms
    end.
Proof.
  unfold prepare, bind at 1, progress, call.
  destruct (update_state env "Loading model...") as [[]|e]; [|reflexivity].
  match goal with
  | |- models_after match ?r with Run _ _ _ => _ end = _ =>
      transitivity (models_after r); [now destruct r|]
  end.
  apply models_after_bind. intros obj. unfold meta_revoked.
  keeps_auto; intros ms'; reflexivity.
Qed.

Lemma task_after_load_eq (env : task_env) (text model_name : string)
    (speaker : option string) (cfg_scale : Q) (inference_steps user_id : Z)
    (ms : gmap string loaded_obj) :
  models_after (generate_audio_task env text model_name speaker cfg_scale
                                    inference_steps user_id ms)
  = models_after (prepare env model_name speaker ms).
Proof.
  unfold generate_audio_task.
  rewrite models_after_try_except by apply job_boundary_keeps.
  unfold task_body.
  now rewrite models_after_bind by (intros p; apply after_load_keeps).
Qed.

(** X24. A job changes the model cache through the loader only: the
    cache after the job is the cache after its call of
    [load_model_pipeline], and the cache before the job if the job did
    not get that far. *)
Theorem job_cache_effect (env : task_env) (text model_name : string)
    (speaker : option string) (cfg_scale : Q) (inference_steps user_id : Z)
    (ms : gmap string loaded_obj) :
  models_after (generate_audio_task env text model_name speaker cfg_scale
                                    inference_steps user_id ms)
  = match update_state env "Loading model..." with
    | Ok _ => models_after (load_model_pipeline (loader env) model_name ms)
    | Raise _ => ms
    end.
Proof. rewrite task_after_load_eq. apply prepare_after_load. Qed.

Lemma loaded_is_cached (rt : runtime) (model_name : string)
    (ms : gmap string loaded_obj) (obj : loaded_obj) :
  result (load_model_pipeline rt model_name ms) = Ok obj →
  models_after (load_model_pipeline rt model_name ms) !! model_name
  = Some obj.
Proof.
  destruct (ms !! model_name) as [obj'|] eqn:Hlook.
  - rewrite (load_model_pipeline_hit _ _ _ _ Hlook). cbn. congruence.
  - rewrite (load_model_pipeline_miss _ _ _ Hlook). cbn.
    destruct (load_and_cache_models rt model_name ∅)
      as [(o & -> & ->) | (e & -> & _)]; [|discriminate].
    intros [= ->]. apply lookup_insert_eq.
Qed.

Lemma Forall_events_bind_at {A B} (P : event → Prop) (m : M A) (k : A → M B)
    (ms : gmap string loaded_obj) :
  Forall P (events (m ms)) →
  (∀ a, result (m ms) = Ok a →
        Forall P (events (k a (models_after (m ms))))) →
  Forall P (events (bind m k ms)).
Proof.
  intros Hm Hk. unfold bind.
  destruct (m ms) as [ms1 evs1 [a|e]]; cbn in *; [|assumption].
  specialize (Hk a eq_refl). destruct (k a ms1) as [ms2 evs2 r]; cbn in *.
  now apply Forall_app.
Qed.

Lemma warm_job_quiet (env : task_env) (text model_name : string)
    (speaker : option string) (cfg_scale : Q) (inference_steps user_id : Z)
    (ms : gmap string loaded_obj) (obj : loaded_obj) :
  ms !! model_name = Some obj →
  Forall (λ ev, is_loader_event ev = false)
    (events (generate_audio_task env text model_name speaker cfg_scale
                                 inference_steps user_id ms)).
Proof.
  intros Hhit.
  assert (Hq : ∀ {A} (m : M A) ms',
             emits (λ ev, negb (is_loader_event ev)) m →
             Forall (λ ev, is_loader_event ev = false) (events (m ms'))).
  { intros A m ms' Hm. eapply Forall_of_emits; [|exact Hm].
    intros ev H. now apply negb_true_iff. }
  assert (Hsave : ∀ audio rate,
            emits (λ ev, negb (is_loader_event ev))
              (save_audio env text model_name speaker cfg_scale
                          inference_steps user_id audio rate)).
  { intros audio rate. unfold save_audio, state_revoked, progress.
    emits_auto. }
  assert (Hbody : Forall (λ ev, is_loader_event ev = false)
            (events (task_body env text model_name speaker cfg_scale
                               inference_steps user_id ms))).
  { unfold task_body. apply Forall_events_bind.
    - unfold prepare. apply Forall_events_bind_at.
      + apply Hq. unfold progress. emits_auto.
      + intros [] _.
        change (models_after (progress env "Loading model..." ms)) with ms.
        apply Forall_events_bind_at.
        * rewrite (load_model_pipeline_hit _ _ _ _ Hhit). constructor.
        * intros o _. apply Hq. unfold progress, meta_revoked. emits_auto.
    - intros [[m p t|pipe]|] ms1 _; apply Hq.
      + unfold run_vibevoice, synthesize, synthesize_streaming,
          synthesize_standard.
        apply emits_bind; [emits_auto|intros _].
        apply emits_bind; [emits_auto|intros outputs].
        apply emits_bind; [emits_auto|intros [|]]; [emits_auto|].
        destruct outputs as [|[audio|] ?];
          [emits_auto | apply Hsave | emits_auto].
      + apply emits_bind; [emits_auto | intros output; apply Hsave].
      + emits_auto. }
  unfold generate_audio_task, try_except.
  destruct (task_body env text model_name speaker cfg_scale inference_steps
                      user_id ms) as [ms1 evs1 [p|e]];
    cbn [events result models_after] in *; [exact Hbody|].
  pose proof (Hq _ (job_boundary e) ms1) as Hh.
  destruct (job_boundary e ms1) as [ms2 evs2 r]; cbn in *.
  apply Forall_app. split; [exact Hbody|]. apply Hh.
  unfold job_boundary. emits_auto.
Qed.

(** X25. A model that one job has loaded serves the next: after a job
    whose load succeeded, another job for the same model finds the model
    in the cache, calls no loader and evicts nothing, and leaves the
    cache as it is. *)
Theorem warm_model_reused (env env' : task_env) (text text' : string)
    (model_name : string) (speaker speaker' : option string)
    (cfg_scale cfg_scale' : Q)
    (inference_steps inference_steps' user_id user_id' : Z)
    (ms : gmap string loaded_obj) (obj : loaded_obj) :
  update_state env "Loading model..." = Ok tt →
  result (load_model_pipeline (loader env) model_name ms) = Ok obj →
  let ms' := models_after (generate_audio_task env text model_name speaker
                             cfg_scale inference_steps user_id ms) in
  let next := generate_audio_task env' text' model_name speaker' cfg_scale'
                                  inference_steps' user_id' ms' in
  ms' !! model_name = Some obj
  ∧ Forall (λ ev, is_loader_event ev = false) (events next)
  ∧ models_after next = ms'.
Proof.
  intros Hup Hload ms' next.
  assert (Hhit : ms' !! model_name = Some obj).
  { subst ms'. rewrite task_after_load_eq, prepare_after_load, Hup.
    now apply loaded_is_cached. }
  split; [exact Hhit|]. split; [now apply (warm_job_quiet _ _ _ _ _ _ _ _ obj)|].
  subst next. rewrite task_after_load_eq, prepare_after_load.
  destruct (update_state env' "Loading model..."); [|reflexivity].
  now rewrite (load_model_pipeline_hit _ _ _ _ Hhit).
Qed.

Lemma warm_model_reused_witness :
  let env := demo_env demo_runtime None (StoreUp ∅) (StoreUp ∅) "STARTED" in
  let ms' := models_after (generate_audio_task env "one" standard_model None
                             (3 # 2) 5 1 ∅) in
  Forall (λ ev, is_loader_event ev = false)
         (events (generate_audio_task env "two" standard_model
                    (Some "en-Alice") (3 # 2) 5 1 ms')).
Proof.
  cbv zeta.
  apply (warm_model_reused
           (demo_env demo_runtime None (StoreUp ∅) (StoreUp ∅) "STARTED")
           (demo_env demo_runtime None (StoreUp ∅) (StoreUp ∅) "STARTED")
           "one" "two" standard_model None (Some "en-Alice") (3 # 2) (3 # 2)
           5 5 1 1 ∅ (VibeVoiceObj 2%nat 1%nat "vibevoice_standard"));
    [reflexivity | vm_compute; reflexivity].
Defined.

(** ** Jobs of validated requests *)

Lemma synthesize_fed (env : task_env) (text model_name : string)
    (speaker : option string) (cfg_scale : Q) (inference_steps : Z)
    (ms : gmap string loaded_obj) :
  Forall (fed_with text (if inference_steps =? 0 then 5 else inference_steps))
    (events (synthesize env text model_name speaker cfg_scale inference_steps
                        ms)).
Proof.
  assert (Hq : ∀ {A} (m : M A) ms',
             emits (λ ev, negb (is_synthesis ev)) m →
             Forall (fed_with text
                       (if inference_steps =? 0 then 5 else inference_steps))
                    (events (m ms'))).
  { intros A m ms' Hm. eapply Forall_of_emits; [|exact Hm].
    intros ev H. now destruct ev. }
  unfold synthesize. destruct (is_realtime_model model_name).
  - unfold synthesize_streaming. apply Forall_events_bind.
    + apply Hq. emits_auto.
    + intros prefilled ms1 _. apply Forall_events_bind.
      * repeat constructor.
      * intros inputs ms2 _. apply Forall_events_bind; repeat constructor.
  - unfold synthesize_standard. apply Forall_events_bind.
    + apply Hq. emits_auto.
    + intros voice_samples ms1 _. apply Forall_events_bind.
      * repeat constructor.
      * intros inputs ms2 _. apply Forall_events_bind; repeat constructor.
Qed.

Lemma task_fed (env : task_env) (text model_name : string)
    (speaker : option string) (cfg_scale : Q) (inference_steps user_id : Z)
    (ms : gmap string loaded_obj) :
  Forall (fed_with text (if inference_steps =? 0 then 5 else inference_steps))
    (events (generate_audio_task env text model_name speaker cfg_scale
                                 inference_steps user_id ms)).
Proof.
  set (P := fed_with text (if inference_steps =? 0 then 5 else inference_steps)).
  assert (Hq : ∀ {A} (m : M A) ms',
             emits (λ ev, negb (is_synthesis ev)) m →
             Forall P (events (m ms'))).
  { intros A m ms' Hm. eapply Forall_of_emits; [|exact Hm].
    intros ev H. now destruct ev. }
  assert (Hsave : ∀ audio rate,
            emits (λ ev, negb (is_synthesis ev))
              (save_audio env text model_name speaker cfg_scale
                          inference_steps user_id audio rate)).
  { intros audio rate. unfold save_audio, state_revoked, progress.
    emits_auto. }
  assert (Hbody : Forall P
            (events (task_body env text model_name speaker cfg_scale
                               inference_steps user_id ms))).
  { unfold task_body. apply Forall_events_bind.
    - apply Hq. eapply emits_weaken; [|apply prepare_emits].
      intros ev H. now destruct ev.
    - intros [[m p t|pipe]|] ms1 _.
      + unfold run_vibevoice.
        apply Forall_events_bind; [apply Hq; emits_auto | intros _ ms2 _].
        apply Forall_events_bind; [apply synthesize_fed|].
        intros outputs ms3 _. apply Hq.
        apply emits_bind; [emits_auto|intros [|]]; [emits_auto|].
        destruct outputs as [|[audio|] ?];
          [emits_auto | apply Hsave | emits_auto].
      + apply Forall_events_bind; [repeat constructor|].
        intros output ms2 _. apply Hq, Hsave.
      + constructor. }
  unfold generate_audio_task, try_except.
  destruct (task_body env text model_name speaker cfg_scale inference_steps
                      user_id ms) as [ms1 evs1 [p|e]];
    cbn [events result models_after] in *; [exact Hbody|].
  pose proof (Hq _ (job_boundary e) ms1) as Hh.
  destruct (job_boundary e ms1) as [ms2 evs2 r]; cbn in *.
  apply Forall_app. split; [exact Hbody|]. apply Hh.
  unfold job_boundary. emits_auto.
Qed.

(** X26. The job of a request that passed the validation of
    [GenerateRequest]: the speaker passes the check of the worker; the
    models are given the text of the request (stripped, for the VibeVoice
    models; as it is, for a pipeline) and the number of steps of the
    request, never the default; and the row of a completed job holds the
    fields of the request, within the bounds of the schema. *)
Theorem validated_job (env : task_env) (r : GenerateRequest) (uid : Z)
    (ms : gmap string loaded_obj) :
  generate_request_ok r = true →
  let run := queued_job env r uid ms in
  invalid_speaker (gr_speaker r) = false
  ∧ Forall (fed_with (gr_text r) (gr_inference_steps r)) (events run)
  ∧ ∀ id row, result run = Ok (Completed id row) →
      text_input row = gr_text r
      ∧ text_input row ≠ ""
      ∧ model_name row = gr_model_name r
      ∧ speaker row = gr_speaker r
      ∧ user_id row = uid
      ∧ 1 <= inference_steps row <= 50
      ∧ (1 # 10 <= cfg_scale row)%Q ∧ (cfg_scale row <= 20)%Q.
Proof.
  intros Hok run. unfold generate_request_ok in Hok.
  repeat (apply andb_prop in Hok as [Hok ?]).
  split; [now apply speaker_field_ok_valid|]. split.
  - subst run. unfold queued_job.
    pose proof (task_fed env (gr_text r) (gr_model_name r) (gr_speaker r)
                  (gr_cfg_scale r) (gr_inference_steps r) uid ms) as Hf.
    replace (gr_inference_steps r =? 0) with false in Hf
      by (symmetry; apply Z.eqb_neq; lia).
    exact Hf.
  - intros id row Hdone. subst run. unfold queued_job in Hdone.
    destruct (task_backed _ _ _ _ _ _ _ _ _ _ Hdone)
      as (pre & rate & pcm & d & _ & _ & -> & _).
    cbn. repeat split; try lia; try (now apply Qle_bool_iff).
    intros Htext. rewrite Htext in Hok. discriminate.
Qed.

Lemma validated_job_witness :
  Forall (fed_with "hello" 7)
    (events (queued_job
               (demo_env demo_runtime None (StoreUp ∅) (StoreUp ∅) "STARTED")
               {| gr_text := "hello"; gr_model_name := standard_model;
                  gr_speaker := Some "en-Alice"; gr_cfg_scale := 3 # 2;
                  gr_inference_steps := 7 |} 1 ∅)).
Proof.
  apply (validated_job
           (demo_env demo_runtime None (StoreUp ∅) (StoreUp ∅) "STARTED")
           {| gr_text := "hello"; gr_model_name := standard_model;
              gr_speaker := Some "en-Alice"; gr_cfg_scale := 3 # 2;
              gr_inference_steps := 7 |} 1 ∅).
  reflexivity.
Defined.

(** ** Accounts *)

Lemma user_by_email_found (users : list User) (e : string) (u : User) :
  user_by_email users e = Some u → In u users ∧ email u = e.
Proof.
  unfold user_by_email. intros H. apply List.find_some in H as [Hin He].
  split; [exact Hin | now apply String.eqb_eq].
Qed.

(** X27. [get_current_user] returns a user only for a non-empty token
    that was presented in the cookie or, without a cookie, as the second
    field of an [Authorization] header starting with "Bearer ", that
    [jwt.decode] accepts, and whose subject is the e-mail of that user in
    the database. A cookie takes precedence over the header. Every other
    request is refused with the same 401, unless decoding raises something
    other than a [JWTError]. *)
Theorem current_user_sound (j : jose) (now : Z) (users : list User)
    (cookie authorization : option string) :
  let answer := get_current_user j now users cookie authorization in
  (∀ user, answer = Reply user →
     ∃ token payload,
       token ≠ ""
       ∧ (cookie = Some token
          ∨ ((cookie = None ∨ cookie = Some "")
             ∧ ∃ auth_header,
                 authorization = Some auth_header
                 ∧ startswith auth_header "Bearer " = true
                 ∧ nth_error (split " "%char auth_header) 1 = Some token))
       ∧ jwt_decode j now token = Decoded payload
       ∧ sub payload = Some (email user)
       ∧ In user users)
  ∧ (∀ token other, cookie = Some token → token ≠ "" →
       answer = get_current_user j now users cookie other)
  ∧ ((∃ user, answer = Reply user)
     ∨ answer = credentials_exception
     ∨ ∃ token e, jwt_decode j now token = DecodeCrash e
                  ∧ answer = ServerError e).
Proof.
  cbv zeta. unfold get_current_user. split; [|split].
  - intros user.
    destruct (request_token cookie authorization) as [[|c t]|] eqn:Htok;
      try discriminate.
    destruct (jwt_decode j now (String c t)) as [payload| |e] eqn:Hdec;
      try discriminate.
    destruct (sub payload) as [e|] eqn:Hsub; [|discriminate].
    destruct (user_by_email users e) as [u|] eqn:Hu; [|discriminate].
    intros [= ->]. apply user_by_email_found in Hu as [Hin <-].
    exists (String c t), payload. split; [discriminate|].
    split; [|now repeat split].
    unfold request_token in Htok.
    destruct cookie as [[|c' t']|].
    + right. split; [now right|].
      destruct authorization as [[|a h]|]; try discriminate.
      destruct (startswith (String a h) "Bearer ") eqn:Hb; [|discriminate].
      exists (String a h). auto.
    + left. exact Htok.
    + right. split; [now left|].
      destruct authorization as [[|a h]|]; try discriminate.
      destruct (startswith (String a h) "Bearer ") eqn:Hb; [|discriminate].
      exists (String a h). auto.
  - intros token other -> Hne. destruct token; [contradiction | reflexivity].
  - destruct (request_token cookie authorization) as [[|c t]|]; auto.
    destruct (jwt_decode j now (String c t)) as [payload| |e] eqn:Hdec; auto.
    + destruct (sub payload) as [e|]; auto.
      destruct (user_by_email users e) as [u|]; eauto.
    + right. right. eauto.
Qed.

(** X28. Logging in and coming back: [login] answers 404 without a cookie
    for an e-mail that is not in the database; for a known e-mail it sets
    the cookie [access_token], HTTP-only, SameSite lax, for 24 hours, with
    a token for the user's e-mail and id that expires 24 hours after the
    login; and when [jwt.decode] accepts that token, a request with the
    cookie is the request of that very user, whatever its
    [Authorization] header says. *)
Theorem login_then_authenticated (j : jose) (now later : Z)
    (users : list User) (e : string) (authorization : option string) :
  let payload user :=
    {| sub := Some (email user); claim_user_id := Some (u_id user);
       exp := now + 86400 |} in
  match user_by_email users e with
  | None => login j now users e = HTTPError 404 "User not found"
  | Some user =>
      ∃ cookie,
        login j now users e = Reply ("Login successful", e, cookie)
        ∧ ck_key cookie = "access_token"
        ∧ ck_value cookie = jwt_encode j (payload user)
        ∧ ck_httponly cookie = true
        ∧ ck_samesite cookie = "lax"
        ∧ ck_max_age cookie = 86400
        ∧ (ck_value cookie ≠ "" →
           jwt_decode j later (ck_value cookie) = Decoded (payload user) →
           get_current_user j later users (Some (ck_value cookie))
                            authorization
           = Reply user)
  end.
Proof.
  cbv zeta. unfold login.
  destruct (user_by_email users e) as [user|] eqn:Hu; [|reflexivity].
  pose proof (user_by_email_found _ _ _ Hu) as [_ He]. subst e.
  eexists. split; [reflexivity|].
  cbn [ck_key ck_value ck_httponly ck_samesite ck_max_age].
  unfold create_access_token. cbn [sub claim_user_id].
  change (ACCESS_TOKEN_EXPIRE_MINUTES =? 0) with false. cbv iota.
  change (ACCESS_TOKEN_EXPIRE_MINUTES * 60) with 86400.
  split; [reflexivity|]. split; [reflexivity|]. split; [reflexivity|].
  split; [reflexivity|]. split; [reflexivity|].
  intros Hne Hdec. unfold get_current_user, request_token.
  destruct (jwt_encode j _) as [|c t] eqn:Htok; [contradiction|].
  rewrite Hdec. cbn [sub]. now rewrite Hu.
Qed.

Lemma login_then_authenticated_witness :
  let alice := {| u_id := 1; email := "alice@example.org" |} in
  let j := {| jwt_encode := λ c, "token-" +:+ default "" (sub c);
              jwt_decode := λ now t,
                if String.eqb t "token-alice@example.org" then
                  Decoded {| sub := Some "alice@example.org";
                             claim_user_id := Some 1;
                             exp := 1700000000 + 86400 |}
                else JWTError |} in
  get_current_user j 1700003600 [alice] (Some "token-alice@example.org")
                   (Some "Bearer other")
  = Reply alice.
Proof.
  cbv zeta.
  pose proof (login_then_authenticated
    {| jwt_encode := λ c, "token-" +:+ default "" (sub c);
       jwt_decode := λ now t,
         if String.eqb t "token-alice@example.org" then
           Decoded {| sub := Some "alice@example.org";
                      claim_user_id := Some 1;
                      exp := 1700000000 + 86400 |}
         else JWTError |}
    1700000000 1700003600
    [{| u_id := 1; email := "alice@example.org" |}]
    "alice@example.org" (Some "Bearer other")) as H.
  cbv zeta in H. cbn [user_by_email List.find email String.eqb] in H.
  change (String.eqb "alice@example.org" "alice@example.org") with true in H.
  cbv iota in H. destruct H as (cookie & _ & _ & Hv & _ & _ & _ & H).
  rewrite Hv in H. apply H; [discriminate | reflexivity].
Defined.

Lemma setting_of_stored (table : list UserSetting) (uid : Z)
    (old s : UserSetting) :
  setting_of table uid = Some old → us_user_id s = uid →
  setting_of (store_setting table uid s) uid = Some s.
Proof.
  unfold setting_of. intros Hold Hs.
  induction table as [|row rest IH]; [discriminate|].
  cbn [List.find store_setting] in *.
  destruct (us_user_id row =? uid) eqn:Hrow.
  - cbn [List.find]. apply Z.eqb_eq in Hs. now rewrite Hs.
  - cbn [List.find]. rewrite Hrow. now apply IH.
Qed.

Lemma setting_of_appended (table : list UserSetting) (uid : Z)
    (s : UserSetting) :
  setting_of table uid = None → us_user_id s = uid →
  setting_of (table ++ [s]) uid = Some s.
Proof.
  unfold setting_of. intros Hnone Hs.
  induction table as [|row rest IH]; cbn [List.find app] in *.
  - apply Z.eqb_eq in Hs. now rewrite Hs.
  - destruct (us_user_id row =? uid); [discriminate | now apply IH].
Qed.

Lemma setting_of_other_stored (table : list UserSetting) (uid other : Z)
    (s : UserSetting) :
  other ≠ uid → us_user_id s = uid →
  setting_of (store_setting table uid s) other = setting_of table other.
Proof.
  unfold setting_of. intros Hne Hs.
  induction table as [|row rest IH]; [reflexivity|].
  cbn [List.find store_setting].
  destruct (Z.eqb_spec (us_user_id row) uid) as [Hrow|Hrow].
  - cbn [List.find].
    replace (us_user_id s =? other) with false
      by (symmetry; apply Z.eqb_neq; congruence).
    replace (us_user_id row =? other) with false
      by (symmetry; apply Z.eqb_neq; congruence).
    reflexivity.
  - cbn [List.find]. now rewrite IH.
Qed.

Lemma setting_of_other_appended (table : list UserSetting) (uid other : Z)
    (s : UserSetting) :
  other ≠ uid → us_user_id s = uid →
  setting_of (table ++ [s]) other = setting_of table other.
Proof.
  unfold setting_of. intros Hne Hs.
  induction table as [|row rest IH]; cbn [List.find app].
  - now replace (us_user_id s =? other) with false
      by (symmetry; apply Z.eqb_neq; congruence).
  - now rewrite IH.
Qed.

Lemma setting_of_user (table : list UserSetting) (uid : Z) (s : UserSetting) :
  setting_of table uid = Some s → us_user_id s = uid.
Proof.
  unfold setting_of. intros H. apply List.find_some in H as [_ H].
  now apply Z.eqb_eq.
Qed.

(** X29. A settings update is partial and private: the row returned is
    the user's own, the fields that the request sets have the new values
    and all others the values they had (the defaults of the columns, for a
    user without a row); the settings that any other user reads are what
    they were; and reading the settings afterwards returns the row just
    written and changes nothing. *)
Theorem settings_update_private (fresh fresh' uid : Z)
    (settings_update : UserSettingsUpdate) (table : list UserSetting) :
  let before := snd (get_settings fresh uid table) in
  let out := update_settings fresh uid settings_update table in
  snd out = apply_update settings_update before
  ∧ us_user_id (snd out) = uid
  ∧ us_id (snd out) = us_id before
  ∧ get_settings fresh' uid (fst out) = (fst out, snd out)
  ∧ ∀ other, other ≠ uid →
      setting_of (fst out) other = setting_of table other.
Proof.
  cbv zeta. unfold get_settings, update_settings.
  destruct (setting_of table uid) as [old|] eqn:Hold; cbn [fst snd].
  - pose proof (setting_of_user _ _ _ Hold) as Huid.
    split; [reflexivity|]. split; [exact Huid|]. split; [reflexivity|].
    split.
    + now rewrite (setting_of_stored _ _ old).
    + intros other Hne. now apply (setting_of_other_stored _ uid).
  - split; [reflexivity|]. split; [reflexivity|]. split; [reflexivity|].
    split.
    + now rewrite setting_of_appended.
    + intros other Hne. now apply (setting_of_other_appended _ uid).
Qed.

Lemma settings_update_private_witness :
  let table := [default_setting 1 10; default_setting 2 20] in
  let upd := {| set_sample_rate := Some 44100; set_quality := None;
                set_format := None; set_auto_save := None;
                set_tts_model := None; set_hf_token := Some (Some "hf_x") |} in
  setting_of (fst (update_settings 3 10 upd table)) 20
  = Some (default_setting 2 20).
Proof.
  cbv zeta.
  destruct (settings_update_private 3 3 10
              {| set_sample_rate := Some 44100; set_quality := None;
                 set_format := None; set_auto_save := None;
                 set_tts_model := None; set_hf_token := Some (Some "hf_x") |}
              [default_setting 1 10; default_setting 2 20])
    as (_ & _ & _ & _ & H).
  rewrite (H 20); [reflexivity | lia].
Defined.

Lemma current_user_sound_witness :
  let alice := {| u_id := 1; email := "alice@example.org" |} in
  let j := {| jwt_encode := λ _, "t";
              jwt_decode := λ _ t,
                if String.eqb t "abc" then
                  Decoded {| sub := Some "alice@example.org";
                             claim_user_id := Some 1; exp := 0 |}
                else JWTError |} in
  ∃ token payload,
    nth_error (split " "%char "Bearer abc def") 1 = Some token
    ∧ jwt_decode j 0 token = Decoded payload
    ∧ sub payload = Some "alice@example.org".
Proof.
  cbv zeta.
  destruct (current_user_sound
              {| jwt_encode := λ _, "t";
                 jwt_decode := λ _ t,
                   if String.eqb t "abc" then
                     Decoded {| sub := Some "alice@example.org";
                                claim_user_id := Some 1; exp := 0 |}
                   else JWTError |}
              0 [{| u_id := 1; email := "alice@example.org" |}]
              None (Some "Bearer abc def")) as (H & _).
  destruct (H {| u_id := 1; email := "alice@example.org" |})
    as (token & payload & _ & Htok & Hdec & Hsub & _);
    [vm_compute; reflexivity|].
  exists token, payload.
  destruct Htok as [Hc | (_ & h & [= <-] & _ & Hnth)]; [discriminate|].
  repeat split; assumption.
Defined.


Lemma user_by_email_appended (users : list User) (e : string) (u : User) :
  user_by_email users e = None → email u = e →
  user_by_email (users ++ [u]) e = Some u.
Proof.
  unfold user_by_email. intros Hnone He.
  induction users as [|row rest IH]; cbn [List.find app] in *.
  - apply String.eqb_eq in He. now rewrite He.
  - destruct (String.eqb (email row) e); [discriminate | now apply IH].
Qed.

Lemma user_by_email_other (users : list User) (e other : string) (u : User) :
  other ≠ e → email u = e →
  user_by_email (users ++ [u]) other = user_by_email users other.
Proof.
  unfold user_by_email. intros Hne He.
  induction users as [|row rest IH]; cbn [List.find app].
  - replace (String.eqb (email u) other) with false; [reflexivity|].
    symmetry. apply String.eqb_neq. congruence.
  - now rewrite IH.
Qed.

(** X30. Registering: an e-mail that has a user is refused with 400 and
    nothing changes. A new e-mail gets a user and a settings row with the
    defaults; from then on the e-mail logs in as that user, cannot be
    registered again, and the settings of the user are read without
    another row being written; the users found under other e-mails are
    the same as before. *)
Theorem register_then_login (j : jose) (now fresh_user fresh_setting : Z)
    (fresh' fresh'' : Z) (e : string) (users : list User)
    (table : list UserSetting) :
  let out := register fresh_user fresh_setting e users table in
  let users' := fst (fst out) in
  let table' := snd (fst out) in
  match user_by_email users e with
  | Some _ =>
      out = (users, table, HTTPError 400 "Email already registered")
  | None =>
      let user := {| u_id := fresh_user; email := e |} in
      snd out = Reply user
      ∧ user_by_email users' e = Some user
      ∧ (∃ cookie,
           login j now users' e = Reply ("Login successful", e, cookie)
           ∧ ck_value cookie
             = jwt_encode j {| sub := Some e; claim_user_id := Some fresh_user;
                               exp := now + 86400 |})
      ∧ snd (register fresh' fresh'' e users' table')
        = HTTPError 400 "Email already registered"
      ∧ (setting_of table fresh_user = None →
         get_settings fresh' fresh_user table'
         = (table', default_setting fresh_setting fresh_user))
      ∧ ∀ other, other ≠ e →
          user_by_email users' other = user_by_email users other
  end.
Proof.
  cbv zeta. unfold register.
  destruct (user_by_email users e) as [u|] eqn:Hu; [reflexivity|].
  cbn [fst snd u_id].
  assert (Hnew : user_by_email (users ++ [{| u_id := fresh_user; email := e |}])
                   e
                 = Some {| u_id := fresh_user; email := e |}).
  { now apply user_by_email_appended. }
  split; [reflexivity|]. split; [exact Hnew|]. split; [|split; [|split]].
  - unfold login. rewrite Hnew. eexists. split; reflexivity.
  - now rewrite Hnew.
  - intros Hnone. unfold get_settings.
    now rewrite setting_of_appended.
  - intros other Hne. now apply (user_by_email_other _ e).
Qed.

Lemma register_then_login_witness :
  let j := {| jwt_encode := λ _, "t"; jwt_decode := λ _ _, JWTError |} in
  get_settings 9 1
    (snd (fst (register 1 1 "alice@example.org" [] [])))
  = ([default_setting 1 1], default_setting 1 1).
Proof.
  cbv zeta.
  pose proof (register_then_login
                {| jwt_encode := λ _, "t"; jwt_decode := λ _ _, JWTError |}
                0 1 1 9 9 "alice@example.org" [] []) as H.
  cbv zeta in H. cbn [user_by_email List.find] in H.
  destruct H as (_ & _ & _ & _ & H & _).
  apply H. reflexivity.
Defined.
